(** * Git workflow engine of imooc-cli (packages/utils/lib/Git/Git.js)

    A shallow embedding of the [Git] class: the object's fields, the
    collaborators it talks to (simple-git, the hosting platform client, the
    prompt, the cache files) and every method of the class that takes part in
    [prepare] and [commit].  Asynchronous calls are awaited one after the
    other in the source, so a method is a state transformer that ends in one
    of four ways: it returns, it throws, it calls [process.exit], or it waits
    for an operator who never answers. *)

From Stdlib Require Import ZArith Ascii String List Bool.
From stdpp Require Import base option list gmap strings.
Import ListNotations.

Local Open Scope string_scope.
Local Open Scope list_scope.

(** ** Strings as JavaScript uses them here *)

Module Js.

(** [hay.indexOf(needle) >= 0] *)
Definition includes (needle hay : string) : bool :=
  match String.index 0 needle hay with
  | Some _ => true
  | None => false
  end.

(** A string is falsy exactly when it is empty. *)
Definition truthy (s : string) : bool :=
  match s with
  | EmptyString => false
  | String _ _ => true
  end.

(** [!v] for a value that is a string, [null] or [undefined]. *)
Definition falsy (v : option string) : bool :=
  match v with
  | Some s => negb (truthy s)
  | None => true
  end.

(** [str.split('\n')], on the characters of the string. *)
Fixpoint split_lines_aux (cur : string -> string) (s : string) : list string :=
  match s with
  | EmptyString => [cur EmptyString]
  | String c s' =>
      if Ascii.eqb c "010"%char
      then cur EmptyString :: split_lines_aux (fun t => t) s'
      else split_lines_aux (fun t => cur (String c t)) s'
  end.

Definition split_lines (s : string) : list string :=
  split_lines_aux (fun t => t) s.

(** [list.indexOf(x) >= 0] on an array of strings. *)
Definition array_includes (x : string) (l : list string) : bool :=
  existsb (String.eqb x) l.

(** The string held by a value already tested to be truthy. *)
Definition str (v : option string) : string := default "" v.

(** A value spliced into a template string or handed on as a string. *)
Definition show (v : option string) : string := default "undefined" v.

(** [a || b] on strings. *)
Definition or_else (a : option string) (b : string) : string :=
  match a with
  | Some s => if truthy s then s else b
  | None => b
  end.

End Js.

(** ** Constants of the module *)

Definition DEFAULT_CLI_HOME := ".imooc-cli".
Definition GIT_ROOT_DIR := ".git".
Definition GIT_SERVER_FILE := ".git_server".
Definition GIT_TOKEN_FILE := ".git_token".
Definition GIT_LOGIN_FILE := ".git_login".
Definition GIT_OWN_FILE := ".git_own".
Definition GIT_IGNORE_FILE := ".gitignore".
Definition REPO_OWNER_USER := "user".
Definition REPO_OWNER_ORG := "org".
Definition GITHUB := "github".
Definition GITEE := "gitee".
Definition VERSION_RELEASE := "release".
Definition VERSION_DEVELOP := "dev".

(** The [value] fields of the choice tables. *)
Definition GIT_SERVER_TYPE := [GITHUB; GITEE].
Definition GIT_OWNER_TYPE := [REPO_OWNER_USER; REPO_OWNER_ORG].
Definition GIT_OWNER_TYPE_ONLY := [REPO_OWNER_USER].

(** ** The two branch-discovery regular expressions

    [/.+?refs\/tags\/release\/(\d+\.\d+\.\d+)/g] and
    [/.+?refs\/heads\/dev\/(\d+\.\d+\.\d+)/g] differ only in the literal in
    the middle, so one matcher takes the literal as its argument.  Strings
    are sequences of single-byte characters; positions count characters. *)

Module Regex.

Definition is_digit (c : ascii) : bool :=
  let n := nat_of_ascii c in (48 <=? n)%nat && (n <=? 57)%nat.

(** [.] does not match a line terminator. *)
Definition line_terminator (c : ascii) : bool :=
  Ascii.eqb c "010"%char || Ascii.eqb c "013"%char.

(** The literal at the head of [s]; what follows it. *)
Fixpoint literal (lit s : string) : option string :=
  match lit, s with
  | EmptyString, _ => Some s
  | String a lit', String b s' => if Ascii.eqb a b then literal lit' s' else None
  | String _ _, EmptyString => None
  end.

(** The longest run of digits at the head of [s], and the rest. *)
Fixpoint digits (s : string) : string * string :=
  match s with
  | String c s' =>
      if is_digit c
      then let (d, r) := digits s' in (String c d, r)
      else (EmptyString, s)
  | EmptyString => (EmptyString, EmptyString)
  end.

(** [\.] at the head of [s]; what follows it. *)
Definition dot (s : string) : option string :=
  match s with
  | String c s' => if Ascii.eqb c "."%char then Some s' else None
  | EmptyString => None
  end.

(** [(\d+\.\d+\.\d+)] at the head of [s].  A greedy [\d+] that is followed by
    [\.] can only stop at the end of the digit run, since giving a digit back
    leaves a digit where the dot has to be; the last [\d+] takes its whole
    run. *)
Definition version_at (s : string) : option string :=
  let (d1, r1) := digits s in
  match d1, dot r1 with
  | String _ _, Some r1' =>
      let (d2, r2) := digits r1' in
      match d2, dot r2 with
      | String _ _, Some r2' =>
          let (d3, _) := digits r2' in
          match d3 with
          | String _ _ => Some (d1 +:+ "." +:+ d2 +:+ "." +:+ d3)
          | EmptyString => None
          end
      | _, _ => None
      end
  | _, _ => None
  end.

(** The part of the expression after [.+?]: the capture and the number of
    characters matched. *)
Definition tail_at (lit s : string) : option (string * nat) :=
  match literal lit s with
  | Some r =>
      match version_at r with
      | Some cap => Some (cap, String.length lit + String.length cap)
      | None => None
      end
  | None => None
  end.

(** The whole expression at the head of [s]: the lazy [.+?] takes one
    character, then one more each time the rest fails to match. *)
Fixpoint match_at (lit s : string) : option (string * nat) :=
  match s with
  | EmptyString => None
  | String c s' =>
      if line_terminator c then None
      else match tail_at lit s' with
           | Some (cap, n) => Some (cap, S n)
           | None =>
               match match_at lit s' with
               | Some (cap, n) => Some (cap, S n)
               | None => None
               end
           end
  end.

(** The first position from [pos] on at which the expression matches: the
    capture and the position just after the match. *)
Fixpoint search (lit s : string) (pos : nat) : option (string * nat) :=
  match match_at lit s with
  | Some (cap, n) => Some (cap, pos + n)
  | None =>
      match s with
      | EmptyString => None
      | String _ s' => search lit s' (S pos)
      end
  end.

Fixpoint skip (n : nat) (s : string) : string :=
  match n, s with
  | O, _ => s
  | S n', String _ s' => skip n' s'
  | S _, EmptyString => EmptyString
  end.

(** [reg.exec(s)] for an expression with the [g] flag: the search starts at
    [lastIndex]; a match leaves [lastIndex] just after it, a failure resets
    it to 0.  The result is the capture group and the new [lastIndex]. *)
Definition exec (lit : string) (lastIndex : nat) (s : string) : option string * nat :=
  if (String.length s <? lastIndex)%nat then (None, 0)
  else match search lit (skip lastIndex s) lastIndex with
       | Some (cap, e) => (Some cap, e)
       | None => (None, 0)
       end.

End Regex.

(** ** Semantic versions

    [semver.valid] belongs to a package; the engine takes it from the
    environment.  [Semver.valid] below is the package's strict grammar on
    the only strings this class hands to it, [MAJOR.MINOR.PATCH] made of
    digits: no leading zero, no part above [Number.MAX_SAFE_INTEGER], at
    most 256 characters. *)

Module Semver.

Fixpoint to_N (s : string) (acc : N) : N :=
  match s with
  | EmptyString => acc
  | String c s' => to_N s' (acc * 10 + (N_of_ascii c - 48))%N
  end.

Definition numeric_identifier (s : string) : bool :=
  match s with
  | EmptyString => false
  | String c EmptyString => true
  | String c (String _ _) =>
      negb (Ascii.eqb c "0"%char) && (to_N s 0 <=? 9007199254740991)%N
  end.

Definition valid (v : string) : bool :=
  let (d1, r1) := Regex.digits v in
  match Regex.dot r1 with
  | Some r1' =>
      let (d2, r2) := Regex.digits r1' in
      match Regex.dot r2 with
      | Some r2' =>
          let (d3, r3) := Regex.digits r2' in
          match r3 with
          | EmptyString =>
              numeric_identifier d1 && numeric_identifier d2 &&
              numeric_identifier d3 && (String.length v <=? 256)%nat
          | String _ _ => false
          end
      | None => false
      end
  | None => false
  end.

End Semver.

(** ** Data *)

Inductive GitServerKind := Github | Gitee.

(** Modelled from the spec: the hosting clients of [./Github] and [./Gitee],
    which are not among the sources, as far as this class uses the object
    held in [this.gitServer]: which platform it is, and the token [setToken]
    has bound to it.  What the platform answers ([getUser], [getOrgs],
    [getRepo], ...) comes from the environment below. *)
Record GitServer := {
  kind : GitServerKind;
  server_token : option string;
}.

Definition server_type (g : GitServer) : string :=
  match kind g with
  | Github => GITHUB
  | Gitee => GITEE
  end.

Definition createGitServer (gitServer : string) : option GitServer :=
  if String.eqb gitServer GITHUB then Some {| kind := Github; server_token := None |}
  else if String.eqb gitServer GITEE then Some {| kind := Gitee; server_token := None |}
  else None.

Record Identity := { id_login : string }.

Record Repo := { repo_url : string }.

(** An entry of [status.renamed]: simple-git reports a rename as an object
    with the old path, [from], and the new one, [to]. *)
Record StatusResultRenamed := { rename_from : string; rename_to : string }.

(** What [git.status()] resolves to, as far as the class reads it. *)
Record StatusResult := {
  conflicted : list string;
  not_added : list string;
  created : list string;
  deleted : list string;
  modified : list string;
  renamed : list StatusResultRenamed;
}.

(** What [git.add] is handed.  The class passes it the lists of a status as
    they are, so an entry is a path or, from [status.renamed], a rename. *)
Inductive AddEntry :=
| Path (p : string)
| Renamed (r : StatusResultRenamed).

#[global] Instance StatusResultRenamed_eq_dec : EqDecision StatusResultRenamed.
Proof. solve_decision. Defined.

#[global] Instance AddEntry_eq_dec : EqDecision AddEntry.
Proof. solve_decision. Defined.

Inductive LogLevel := verbose | notice | success | error.

Inductive PromptType := PList | PPassword | PText.

(** Everything the engine does to the outside world, in order.  A log line
    is recorded with its level and first argument. *)
Inductive Event :=
| Log (lvl : LogLevel) (msg : string)
| ConsoleLog (msg : string)
| Prompt (type : PromptType) (message : string) (choices : list string)
| FsEnsureDir (path : string)
| FsWrite (path data : string)
| SpinnerStart (msg : string)
| SpinnerStop
| HostSetToken (tok : string)
| HostGetUser
| HostGetOrgs
| HostGetRepo (login : option string) (name : string)
| HostCreateRepo (name : string)
| HostCreateOrgRepo (name : string) (login : option string)
| GitInit (dir : string)
| GitGetRemotes
| GitAddRemote (name url : string)
| GitStatus
| GitAdd (files : list AddEntry)
| GitCommit (message : string)
| GitPull (remote branch : string) (options : list (string * option string))
| GitPush (remote branch : string)
| GitListRemote (args : list string)
| GitBranchLocal
| GitCheckout (branch : string)
| GitCheckoutLocalBranch (branch : string)
| GitStashList
| GitStash (args : list string).

(** The collaborators.  Each answer may depend on everything that happened
    before it, the call itself included: the history is the argument. *)
Record Env := {
  (** the awaited call just issued rejects with this message *)
  rejects : list Event -> option string;
  git_status : list Event -> StatusResult;
  git_listRemote : list Event -> string;
  git_getRemotes : list Event -> list string;
  git_branchLocal : list Event -> list string;
  git_stashList : list Event -> list string;
  host_getUser : list Event -> option Identity;
  host_getOrgs : list Event -> list Identity;
  host_getRepo : list Event -> option Repo;
  host_createRepo : list Event -> option Repo;
  host_createOrgRepo : list Event -> option Repo;
  host_getRemote : GitServerKind -> option string -> string -> string;
  host_getSSHKeysUrl : GitServerKind -> string;
  host_getSSHKeysHelpUrl : GitServerKind -> string;
  fs_existsSync : list Event -> string -> bool;
  fs_ensureDirFails : list Event -> option string;
  path_resolve : string -> string -> string;
  semver_valid : string -> bool;
  userHome : string;
  env_CLI_HOME : option string;
}.

(** The fields of [this]. *)
Record Git := {
  name : string;
  version : string;
  dir : string;
  owner : string;
  login : option string;
  repo : option Repo;
  homePath : option string;
  refreshToken : bool;
  refreshOwner : bool;
  refreshServer : bool;
  prod : bool;
  gitServer : option GitServer;
  token : option string;
  user : option Identity;
  orgs : option (list Identity);
  remote : option string;
  branch : option string;
}.

(** [new Git({dir, name, version}, {cliHome, refreshToken, refreshOwner, refreshServer, prod})] *)
Definition constructor (dir name version : string) (cliHome : option string)
    (refreshToken refreshOwner refreshServer prod : bool) : Git :=
  {| name := name; version := version; dir := dir;
     owner := REPO_OWNER_USER; login := None; repo := None;
     homePath := cliHome;
     refreshToken := refreshToken; refreshOwner := refreshOwner;
     refreshServer := refreshServer; prod := prod;
     gitServer := None; token := None; user := None; orgs := None;
     remote := None; branch := None |}.

(** The object together with the world around it: the cache files, the
    answers the operator is still going to type, and the history. *)
Record State := {
  self : Git;
  files : gmap string string;
  answers : list string;
  trace : list Event;
}.

Inductive Exn :=
| Error (message : string)      (* [throw new Error(message)] in the class *)
| Rejected (message : string)   (* a collaborator's promise rejected *)
| TypeError (what : string).    (* property access on [null] *)

Inductive Outcome (A : Type) :=
| Ret (a : A)
| Throw (e : Exn)
| Exit (code : Z)
| Blocked.

Arguments Ret {A} a.
Arguments Throw {A} e.
Arguments Exit {A} code.
Arguments Blocked {A}.

Definition M (A : Type) : Type := State -> Outcome A * State.

Definition ret {A} (a : A) : M A := fun s => (Ret a, s).

Definition bind {A B} (m : M A) (k : A -> M B) : M B :=
  fun s =>
    match m s with
    | (Ret a, s') => k a s'
    | (Throw e, s') => (Throw e, s')
    | (Exit c, s') => (Exit c, s')
    | (Blocked, s') => (Blocked, s')
    end.

Notation "'do' x <- m ; k" := (bind m (fun x => k))
  (at level 10, x name, m at level 100, k at level 200).
Notation "m ;; k" := (bind m (fun _ => k))
  (at level 100, k at level 200, right associativity).

Definition throw {A} (e : Exn) : M A := fun s => (Throw e, s).
Definition process_exit {A} (code : Z) : M A := fun s => (Exit code, s).

Definition get_self : M Git := fun s => (Ret (self s), s).

Definition update_self (f : Git -> Git) : M unit :=
  fun s => (Ret tt, {| self := f (self s); files := files s;
                       answers := answers s; trace := trace s |}).

(** The state after some more events have happened. *)
Definition extend (s : State) (evs : list Event) : State :=
  {| self := self s; files := files s;
     answers := answers s; trace := trace s ++ evs |}.

Definition emit (e : Event) : M unit := fun s => (Ret tt, extend s [e]).

Definition history : M (list Event) := fun s => (Ret (trace s), s).

(** [promise.catch(handler)] *)
Definition catch {A} (m : M A) (handler : Exn -> M A) : M A :=
  fun s =>
    match m s with
    | (Throw e, s') => handler e s'
    | r => r
    end.

(** [try { m } finally { fin }] *)
Definition finally {A} (m : M A) (fin : M unit) : M A :=
  fun s =>
    match m s with
    | (Ret a, s') => (fin ;; ret a) s'
    | (Throw e, s') => (fin ;; throw e) s'
    | r => r
    end.

(** ** Primitive operations *)

Section Engine.

Variable env : Env.

Definition log (lvl : LogLevel) (msg : string) : M unit := emit (Log lvl msg).

(** An awaited call on a collaborator: it is issued, then it either rejects
    or resolves to the collaborator's reply. *)
Definition call {A} (e : Event) (reply : list Event -> A) : M A :=
  emit e ;;
  do h <- history;
  match rejects env h with
  | Some msg => throw (Rejected msg)
  | None => ret (reply h)
  end.

Definition call_ (e : Event) : M unit := call e (fun _ => tt).

(** Modelled from the spec: the prompt of [../inquirer], which is not among
    the sources.  [inquirer({ type, choices, message, defaultValue: '' })]
    shows the question and returns what the operator enters; the answers are
    taken in order from those the state holds, and with none left the engine
    stays at the prompt. *)
Definition inquirer (type : PromptType) (message : string) (choices : list string)
    : M string :=
  emit (Prompt type message choices) ;;
  fun s =>
    match answers s with
    | [] => (Blocked, s)
    | a :: rest =>
        (Ret a, {| self := self s; files := files s;
                   answers := rest; trace := trace s |})
    end.

(** Modelled from the spec: the cache primitives [readFile] and [writeFile]
    of [../file], which is not among the sources.  Reading yields the stored
    value or nothing and has no side effect; writing overwrites
    unconditionally. *)
Definition readFile (path : string) : M (option string) :=
  fun s => (Ret (files s !! path), s).

(** Modelled from the spec: [writeFile(path, data)] of [../file]; the entry
    is overwritten. *)
Definition writeFile (path data : string) : M unit :=
  emit (FsWrite path data) ;;
  fun s => (Ret tt, {| self := self s; files := <[path := data]> (files s);
                       answers := answers s; trace := trace s |}).

Definition existsSync (path : string) : M bool :=
  fun s => (Ret (fs_existsSync env (trace s) path), s).

Definition ensureDirSync (path : string) : M unit :=
  emit (FsEnsureDir path) ;;
  do h <- history;
  match fs_ensureDirFails env h with
  | Some msg => throw (Rejected msg)
  | None => ret tt
  end.

(** [this.gitServer.<member>]: a [TypeError] when the field is still [null]. *)
Definition the_gitServer : M GitServer :=
  do g <- get_self;
  match gitServer g with
  | Some srv => ret srv
  | None => throw (TypeError "gitServer")
  end.

(** [this.orgs.<member>]: the field is undefined until [checkUserAndOrgs]. *)
Definition the_orgs : M (list Identity) :=
  do g <- get_self;
  match orgs g with
  | Some os => ret os
  | None => throw (TypeError "orgs")
  end.

(** Field assignments [this.f = v]. *)
Definition set_homePath (v : option string) (g : Git) : Git :=
  {| name := name g; version := version g; dir := dir g; owner := owner g;
     login := login g; repo := repo g; homePath := v;
     refreshToken := refreshToken g; refreshOwner := refreshOwner g;
     refreshServer := refreshServer g; prod := prod g;
     gitServer := gitServer g; token := token g; user := user g;
     orgs := orgs g; remote := remote g; branch := branch g |}.

Definition set_gitServer (v : option GitServer) (g : Git) : Git :=
  {| name := name g; version := version g; dir := dir g; owner := owner g;
     login := login g; repo := repo g; homePath := homePath g;
     refreshToken := refreshToken g; refreshOwner := refreshOwner g;
     refreshServer := refreshServer g; prod := prod g;
     gitServer := v; token := token g; user := user g;
     orgs := orgs g; remote := remote g; branch := branch g |}.

Definition set_token (v : option string) (g : Git) : Git :=
  {| name := name g; version := version g; dir := dir g; owner := owner g;
     login := login g; repo := repo g; homePath := homePath g;
     refreshToken := refreshToken g; refreshOwner := refreshOwner g;
     refreshServer := refreshServer g; prod := prod g;
     gitServer := gitServer g; token := v; user := user g;
     orgs := orgs g; remote := remote g; branch := branch g |}.

Definition set_user (v : option Identity) (g : Git) : Git :=
  {| name := name g; version := version g; dir := dir g; owner := owner g;
     login := login g; repo := repo g; homePath := homePath g;
     refreshToken := refreshToken g; refreshOwner := refreshOwner g;
     refreshServer := refreshServer g; prod := prod g;
     gitServer := gitServer g; token := token g; user := v;
     orgs := orgs g; remote := remote g; branch := branch g |}.

Definition set_orgs (v : option (list Identity)) (g : Git) : Git :=
  {| name := name g; version := version g; dir := dir g; owner := owner g;
     login := login g; repo := repo g; homePath := homePath g;
     refreshToken := refreshToken g; refreshOwner := refreshOwner g;
     refreshServer := refreshServer g; prod := prod g;
     gitServer := gitServer g; token := token g; user := user g;
     orgs := v; remote := remote g; branch := branch g |}.

Definition set_owner (v : string) (g : Git) : Git :=
  {| name := name g; version := version g; dir := dir g; owner := v;
     login := login g; repo := repo g; homePath := homePath g;
     refreshToken := refreshToken g; refreshOwner := refreshOwner g;
     refreshServer := refreshServer g; prod := prod g;
     gitServer := gitServer g; token := token g; user := user g;
     orgs := orgs g; remote := remote g; branch := branch g |}.

Definition set_login (v : option string) (g : Git) : Git :=
  {| name := name g; version := version g; dir := dir g; owner := owner g;
     login := v; repo := repo g; homePath := homePath g;
     refreshToken := refreshToken g; refreshOwner := refreshOwner g;
     refreshServer := refreshServer g; prod := prod g;
     gitServer := gitServer g; token := token g; user := user g;
     orgs := orgs g; remote := remote g; branch := branch g |}.

Definition set_repo (v : option Repo) (g : Git) : Git :=
  {| name := name g; version := version g; dir := dir g; owner := owner g;
     login := login g; repo := v; homePath := homePath g;
     refreshToken := refreshToken g; refreshOwner := refreshOwner g;
     refreshServer := refreshServer g; prod := prod g;
     gitServer := gitServer g; token := token g; user := user g;
     orgs := orgs g; remote := remote g; branch := branch g |}.

Definition set_remote (v : option string) (g : Git) : Git :=
  {| name := name g; version := version g; dir := dir g; owner := owner g;
     login := login g; repo := repo g; homePath := homePath g;
     refreshToken := refreshToken g; refreshOwner := refreshOwner g;
     refreshServer := refreshServer g; prod := prod g;
     gitServer := gitServer g; token := token g; user := user g;
     orgs := orgs g; remote := v; branch := branch g |}.

Definition set_branch (v : option string) (g : Git) : Git :=
  {| name := name g; version := version g; dir := dir g; owner := owner g;
     login := login g; repo := repo g; homePath := homePath g;
     refreshToken := refreshToken g; refreshOwner := refreshOwner g;
     refreshServer := refreshServer g; prod := prod g;
     gitServer := gitServer g; token := token g; user := user g;
     orgs := orgs g; remote := remote g; branch := v |}.


(** ** The methods of the class *)

(** [checkHomePath] *)
Definition checkHomePath : M unit :=
  do g <- get_self;
  (if Js.falsy (homePath g) then
     if negb (Js.falsy (env_CLI_HOME env)) then
       update_self (set_homePath
         (Some (path_resolve env (userHome env) (Js.str (env_CLI_HOME env)))))
     else
       update_self (set_homePath
         (Some (path_resolve env (userHome env) DEFAULT_CLI_HOME)))
   else ret tt) ;;
  do g <- get_self;
  log verbose "home" ;;
  ensureDirSync (Js.str (homePath g)) ;;
  do found <- existsSync (Js.str (homePath g));
  if negb found then throw (Error "用户主目录获取失败！") else ret tt.

(** [createPath(file)]; [path.resolve] refuses an undefined segment. *)
Definition createPath (file : string) : M string :=
  do g <- get_self;
  match homePath g with
  | None => throw (TypeError "homePath")
  | Some home =>
      let rootDir := path_resolve env home GIT_ROOT_DIR in
      let filePath := path_resolve env rootDir file in
      ensureDirSync rootDir ;;
      ret filePath
  end.

(** [checkGitServer] *)
Definition checkGitServer : M unit :=
  do gitServerPath <- createPath GIT_SERVER_FILE;
  do cached <- readFile gitServerPath;
  do g <- get_self;
  do gitServer <-
    (if Js.falsy cached || refreshServer g then
       do chosen <- inquirer PList "请选择您想要托管的Git平台" GIT_SERVER_TYPE;
       writeFile gitServerPath chosen ;;
       log success "git server写入成功" ;;
       ret chosen
     else
       log success "git server获取成功" ;;
       ret (Js.str cached));
  update_self (set_gitServer (createGitServer gitServer)).

(** [checkGitToken] *)
Definition checkGitToken : M unit :=
  do tokenPath <- createPath GIT_TOKEN_FILE;
  do cached <- readFile tokenPath;
  do g <- get_self;
  do token <-
    (if Js.falsy cached || refreshToken g then
       do srv <- the_gitServer;
       log notice (server_type srv +:+ " token未生成") ;;
       do typed <- inquirer PPassword "请将token复制到这里" [];
       writeFile tokenPath typed ;;
       log success "token 写入成功" ;;
       ret typed
     else
       log verbose "token" ;;
       log success "token 获取成功" ;;
       ret (Js.str cached));
  update_self (set_token (Some token)) ;;
  do srv <- the_gitServer;
  emit (HostSetToken token) ;;
  update_self (set_gitServer (Some {| kind := kind srv; server_token := Some token |})).

(** [checkUserAndOrgs] *)
Definition checkUserAndOrgs : M unit :=
  the_gitServer ;;
  do u <- call HostGetUser (host_getUser env);
  update_self (set_user u) ;;
  the_gitServer ;;
  do os <- call HostGetOrgs (host_getOrgs env);
  update_self (set_orgs (Some os)) ;;
  match u with
  | None => throw (Error "用户或组织信息获取失败")
  | Some _ =>
      do srv <- the_gitServer;
      log success (server_type srv +:+ " 用户和组织信息获取成功")
  end.

(** [checkGitOwner] *)
Definition checkGitOwner : M unit :=
  do ownerPath <- createPath GIT_OWN_FILE;
  do loginPath <- createPath GIT_LOGIN_FILE;
  do cachedOwner <- readFile ownerPath;
  do cachedLogin <- readFile loginPath;
  do g <- get_self;
  do resolved <-
    (if Js.falsy cachedOwner || Js.falsy cachedLogin || refreshOwner g then
       do srv <- the_gitServer;
       log notice (server_type srv +:+ " owner 未生成，先选择 owner") ;;
       do os <- the_orgs;
       do owner <- inquirer PList "请选择远程仓库类型"
                     (match os with
                      | _ :: _ => GIT_OWNER_TYPE
                      | [] => GIT_OWNER_TYPE_ONLY
                      end);
       do login <-
         (if String.eqb owner REPO_OWNER_USER then
            match user g with
            | Some u => ret (id_login u)
            | None => throw (TypeError "user")
            end
          else inquirer PList "请选择" (map id_login os));
       writeFile ownerPath owner ;;
       writeFile loginPath login ;;
       log success "git owner写入成功" ;;
       log success "git login写入成功" ;;
       ret (owner, login)
     else
       log success "git owner 获取成功" ;;
       log success "git login 获取成功" ;;
       ret (Js.str cachedOwner, Js.str cachedLogin));
  update_self (set_owner (fst resolved)) ;;
  update_self (set_login (Some (snd resolved))).

(** [checkRepo] *)
Definition checkRepo : M unit :=
  the_gitServer ;;
  do g <- get_self;
  do found <- call (HostGetRepo (login g) (name g)) (host_getRepo env);
  do repo <-
    match found with
    | Some r => ret (Some r)
    | None =>
        emit (SpinnerStart "开始创建远程仓库...") ;;
        do made <-
          finally
            (if String.eqb (owner g) REPO_OWNER_USER then
               call (HostCreateRepo (name g)) (host_createRepo env)
             else
               call (HostCreateOrgRepo (name g) (login g)) (host_createOrgRepo env))
            (emit SpinnerStop);
        match made with
        | Some _ => log success "远程仓库创建成功" ;; ret made
        | None => throw (Error "远程仓库创建失败")
        end
    end;
  log success "远程仓库信息获取成功" ;;
  update_self (set_repo repo).

Definition GITIGNORE_CONTENT : string :=
".DS_Store
node_modules
/dist


# local env files
.env.local
.env.*.local

# Log files
npm-debug.log*
yarn-debug.log*
yarn-error.log*
pnpm-debug.log*

# Editor directories and files
.idea
.vscode
*.suo
*.ntvs*
*.njsproj
*.sln
*.sw?".

(** [checkGitIgnore] *)
Definition checkGitIgnore : M unit :=
  do g <- get_self;
  let gitIgnore := path_resolve env (dir g) GIT_IGNORE_FILE in
  do found <- existsSync gitIgnore;
  if negb found then
    writeFile gitIgnore GITIGNORE_CONTENT ;;
    log success "自动写入 .gitignore 文件"
  else ret tt.

(** [checkRemoteMaster] *)
Definition checkRemoteMaster : M bool :=
  do listing <- call (GitListRemote ["--refs"]) (git_listRemote env);
  ret (Js.includes "refs/heads/master" listing).

(** [checkConflicted] *)
Definition checkConflicted : M unit :=
  log notice "代码冲突检查" ;;
  do status <- call GitStatus (git_status env);
  match conflicted status with
  | _ :: _ => throw (Error "当前代码存在冲突，请手动处理合并后再试！")
  | [] => log success "代码检查通过"
  end.

(** The loop [while (!message) message = await inquirer(...)] of
    [checkNotCommitted].  Every turn shows the question and takes the next
    answer, so the loop is a recursion on the answers still to come; when
    they run out the engine is left waiting at the prompt. *)
Fixpoint ask_commit_message (pending : list string) (shown : list Event)
    : Outcome string * list string * list Event :=
  let shown' := shown ++ [Prompt PText "请输入 commit 信息：" []] in
  match pending with
  | [] => (Blocked, [], shown')
  | a :: rest =>
      if Js.truthy a then (Ret a, rest, shown')
      else ask_commit_message rest shown'
  end.

Definition commit_message_loop : M string :=
  fun s =>
    let '(o, rest, shown) := ask_commit_message (answers s) [] in
    (o, {| self := self s; files := files s;
           answers := rest; trace := trace s ++ shown |}).

Definition any_pending (status : StatusResult) : bool :=
  negb (Nat.eqb (length (not_added status)) 0) ||
  negb (Nat.eqb (length (created status)) 0) ||
  negb (Nat.eqb (length (deleted status)) 0) ||
  negb (Nat.eqb (length (modified status)) 0) ||
  negb (Nat.eqb (length (renamed status)) 0).

(** [checkNotCommitted] *)
Definition checkNotCommitted : M unit :=
  do status <- call GitStatus (git_status env);
  if any_pending status then
    log verbose "status" ;;
    call_ (GitAdd (map Path (not_added status))) ;;
    call_ (GitAdd (map Path (created status))) ;;
    call_ (GitAdd (map Path (deleted status))) ;;
    call_ (GitAdd (map Path (modified status))) ;;
    call_ (GitAdd (map Renamed (renamed status))) ;;
    do message <- commit_message_loop;
    call_ (GitCommit message) ;;
    log success "本地 commit 提交成功"
  else ret tt.

Definition exn_message (e : Exn) : string :=
  match e with
  | Error m => m
  | Rejected m => m
  | TypeError m => m
  end.

(** [pullRemoteRepo(branchName, options = {})] *)
Definition pullRemoteRepo (branchName : string)
    (options : list (string * option string)) : M unit :=
  log notice ("同步远程 " +:+ branchName +:+ " 分支代码") ;;
  catch (call_ (GitPull "origin" branchName options))
    (fun err =>
       (if Js.includes "Permission denied (publickey)" (exn_message err) then
          do srv <- the_gitServer;
          throw (Error ("请获取本地 ssh publickey 并配置到："
                        +:+ host_getSSHKeysUrl env (kind srv)
                        +:+ "，配置方法："
                        +:+ host_getSSHKeysHelpUrl env (kind srv)))
        else if Js.includes ("Couldn't find remote ref " +:+ branchName)
                            (exn_message err) then
          log notice ("获取远程 [" +:+ branchName +:+ "] 分支失败")
        else
          log error (exn_message err)) ;;
       process_exit 0).

(** [pushRemoteRepo(branchName)] *)
Definition pushRemoteRepo (branchName : string) : M unit :=
  log notice ("推送代码至远程 " +:+ branchName +:+ " 分支") ;;
  call_ (GitPush "origin" branchName) ;;
  log success "推送代码成功".

(** [initCommit] *)
Definition initCommit : M unit :=
  checkConflicted ;;
  checkNotCommitted ;;
  do hasMaster <- checkRemoteMaster;
  if hasMaster then
    log notice "远程存在 master 分支，强制合并" ;;
    pullRemoteRepo "master" [("--allow-unrelated-histories", None)]
  else
    pushRemoteRepo "master".

(** [init] *)
Definition init : M unit :=
  do g <- get_self;
  let gitPath := path_resolve env (dir g) GIT_ROOT_DIR in
  do srv <- the_gitServer;
  let url := host_getRemote env (kind srv) (login g) (name g) in
  update_self (set_remote (Some url)) ;;
  do found <- existsSync gitPath;
  if found then log success "git 已完成初始化"
  else
    log notice "执行 git 初始化" ;;
    call_ (GitInit (dir g)) ;;
    log notice "添加 git remote" ;;
    do remotes <- call GitGetRemotes (git_getRemotes env);
    log verbose "git remotes" ;;
    (if negb (Js.array_includes "origin" remotes)
     then call_ (GitAddRemote "origin" url)
     else ret tt) ;;
    initCommit.

(** [prepare] *)
Definition prepare : M unit :=
  checkHomePath ;;
  checkGitServer ;;
  checkGitToken ;;
  checkUserAndOrgs ;;
  checkGitOwner ;;
  checkRepo ;;
  checkGitIgnore ;;
  init.

(** [getRemoteBranchList(type)].  The expression object [reg] is created
    once and carries its [lastIndex] from one line of the listing to the
    next; the callback yields the capture or [undefined], and
    [filter(_ => _)] keeps the truthy results. *)
Definition branch_literal (type : option string) : string :=
  match type with
  | Some t => if String.eqb t VERSION_RELEASE
              then "refs/tags/release/" else "refs/heads/dev/"
  | None => "refs/heads/dev/"
  end.

Fixpoint scan_lines (lit : string) (lastIndex : nat) (lines : list string)
    : list (option string) :=
  match lines with
  | [] => []
  | remote :: rest =>
      let (m, lastIndex') := Regex.exec lit lastIndex remote in
      match m with
      | Some cap =>
          (if semver_valid env cap then Some cap else None)
            :: scan_lines lit lastIndex' rest
      | None => None :: scan_lines lit lastIndex' rest
      end
  end.

Definition keep_truthy (l : list (option string)) : list string :=
  omap (fun v => match v with
                 | Some s => if Js.truthy s then Some s else None
                 | None => None
                 end) l.

Definition branchList (type : option string) (remoteList : string) : list string :=
  keep_truthy (scan_lines (branch_literal type) 0 (Js.split_lines remoteList)).

Definition getRemoteBranchList (type : option string) : M (list string) :=
  do remoteList <- call (GitListRemote ["--refs"]) (git_listRemote env);
  emit (ConsoleLog remoteList) ;;
  ret (branchList type remoteList).

(** [getCorrectVersion(type)] *)
Definition getCorrectVersion (type : option string) : M unit :=
  log notice "获取代码分支" ;;
  do remoteBranchList <- getRemoteBranchList type;
  do g <- get_self;
  let branch := Js.or_else type VERSION_DEVELOP +:+ "/" +:+ version g in
  update_self (set_branch (Some branch)) ;;
  log success ("代码分支获取成功 " +:+ branch).

(** [checkoutBranch] *)
Definition checkoutBranch : M unit :=
  do localBranchList <- call GitBranchLocal (git_branchLocal env);
  do g <- get_self;
  (if Js.array_includes (Js.show (branch g)) localBranchList
   then call_ (GitCheckout (Js.show (branch g)))
   else call_ (GitCheckoutLocalBranch (Js.show (branch g)))) ;;
  log success ("分支切换到" +:+ Js.show (branch g)).

(** [checkStash] *)
Definition checkStash : M unit :=
  log notice "检查 stash 记录" ;;
  do stashList <- call GitStashList (git_stashList env);
  match stashList with
  | _ :: _ => call_ (GitStash ["pop"]) ;; log success "stash pop 成功"
  | [] => ret tt
  end.

(** [pullRemoteMasterAndBranch] *)
Definition pullRemoteMasterAndBranch : M unit :=
  do g <- get_self;
  log notice ("合并 [master] -> [" +:+ Js.show (branch g) +:+ "]") ;;
  pullRemoteRepo "master" [] ;;
  log success "合并远程 [master] 分支内容成功" ;;
  checkConflicted ;;
  log notice "检查远程分支" ;;
  do remoteBranchList <- getRemoteBranchList None;
  if Js.array_includes (version g) remoteBranchList then
    log notice ("合并 [" +:+ Js.show (branch g) +:+ "] -> [" +:+ Js.show (branch g) +:+ "]") ;;
    pullRemoteRepo (Js.show (branch g)) [] ;;
    log success ("合并远程 [" +:+ Js.show (branch g) +:+ "] 分支内容成功") ;;
    checkConflicted
  else
    log success ("不存在远程分支 [" +:+ Js.show (branch g) +:+ "]").

(** [commit] *)
Definition commit : M unit :=
  getCorrectVersion None ;;
  checkStash ;;
  checkConflicted ;;
  checkNotCommitted ;;
  checkoutBranch ;;
  pullRemoteMasterAndBranch ;;
  do g <- get_self;
  pushRemoteRepo (Js.show (branch g)).

End Engine.

(** ** Concrete collaborators, used to run the engine on examples *)

Module Sample.

Definition nl : string := String "010"%char EmptyString.
Definition tab : string := String "009"%char EmptyString.

Definition clean : StatusResult :=
  {| conflicted := []; not_added := []; created := [];
     deleted := []; modified := []; renamed := [] |}.

(** A platform and a repository where everything succeeds: the working tree
    is clean, the remote has no refs, the account is [sam] without
    organisations, and every directory asked about exists. *)
Definition quiet : Env :=
  {| rejects := fun _ => None;
     git_status := fun _ => clean;
     git_listRemote := fun _ => "";
     git_getRemotes := fun _ => [];
     git_branchLocal := fun _ => [];
     git_stashList := fun _ => [];
     host_getUser := fun _ => Some {| id_login := "sam" |};
     host_getOrgs := fun _ => [];
     host_getRepo := fun _ => Some {| repo_url := "git@github.com:sam/demo.git" |};
     host_createRepo := fun _ => None;
     host_createOrgRepo := fun _ => None;
     host_getRemote := fun _ l n => "git@github.com:" +:+ Js.show l +:+ "/" +:+ n +:+ ".git";
     host_getSSHKeysUrl := fun _ => "https://github.com/settings/keys";
     host_getSSHKeysHelpUrl := fun _ => "https://docs.github.com/ssh";
     fs_existsSync := fun _ _ => true;
     fs_ensureDirFails := fun _ => None;
     path_resolve := fun a b => a +:+ "/" +:+ b;
     semver_valid := Semver.valid;
     userHome := "/home/sam";
     env_CLI_HOME := None |}.

(** The same, with chosen replies of simple-git. *)
Definition with_git (rej : list Event -> option string) (st : list Event -> StatusResult)
    (listing : string) : Env :=
  {| rejects := rej;
     git_status := st;
     git_listRemote := fun _ => listing;
     git_getRemotes := git_getRemotes quiet;
     git_branchLocal := git_branchLocal quiet;
     git_stashList := git_stashList quiet;
     host_getUser := host_getUser quiet;
     host_getOrgs := host_getOrgs quiet;
     host_getRepo := host_getRepo quiet;
     host_createRepo := host_createRepo quiet;
     host_createOrgRepo := host_createOrgRepo quiet;
     host_getRemote := host_getRemote quiet;
     host_getSSHKeysUrl := host_getSSHKeysUrl quiet;
     host_getSSHKeysHelpUrl := host_getSSHKeysHelpUrl quiet;
     fs_existsSync := fs_existsSync quiet;
     fs_ensureDirFails := fs_ensureDirFails quiet;
     path_resolve := path_resolve quiet;
     semver_valid := semver_valid quiet;
     userHome := userHome quiet;
     env_CLI_HOME := env_CLI_HOME quiet |}.

(** Every pull rejects with the given message; nothing else fails. *)
Definition pull_fails (msg : string) (h : list Event) : option string :=
  match last h with
  | Some (GitPull _ _ _) => Some msg
  | _ => None
  end.

(** A fresh object for project [demo] at the given version, as the command
    line builds it, with the answers the operator is going to give. *)
Definition fresh (version : string) (typed : list string) : State :=
  {| self := constructor "/work/demo" "demo" version None false false false false;
     files := ∅; answers := typed; trace := [] |}.

(** The same object once [prepare] has bound a GitHub client to it. *)
Definition prepared (version : string) (typed : list string) : State :=
  {| self := set_gitServer (Some {| kind := Github; server_token := Some "t0k" |})
               (constructor "/work/demo" "demo" version None false false false false);
     files := ∅; answers := typed; trace := [] |}.

End Sample.

(** ** Publishing *)

Definition GIT_PUBLISH_FILE := ".git_publish".

(** The [value] fields of the table of publish targets. *)
Definition GIT_PUBLISH_TYPE := ["oss"].

(** Modelled from the spec: the build collaborator of [../Build/CloudBuild],
    which is not among the sources.  [publish] constructs it from the object,
    the publish target and the production flag, and awaits its three phases
    in turn; what a phase does is the collaborator's own business, so each
    phase is an arbitrary computation of the engine. *)
Record CloudBuild := {
  cloud_prepare : M unit;
  cloud_init : M unit;
  cloud_build : M unit;
}.

Section Publishing.

Variable env : Env.

(** [new CloudBuild(this, gitPublishType, { prod })] *)
Variable new_CloudBuild : Git -> string -> bool -> CloudBuild.

(** [publish] *)
Definition publish : M unit :=
  log notice "开始发布" ;;
  do gitPublishTypePath <- createPath env GIT_PUBLISH_FILE;
  do cached <- readFile gitPublishTypePath;
  do gitPublishType <-
    (if Js.falsy cached then
       do chosen <- inquirer PList "请选择您想要上传代码的平台" GIT_PUBLISH_TYPE;
       writeFile gitPublishTypePath chosen ;;
       log success "git publish类型写入成功" ;;
       ret chosen
     else
       log success "git publish类型获取成功" ;;
       ret (Js.str cached));
  do g <- get_self;
  let cloudBuild := new_CloudBuild g gitPublishType (prod g) in
  cloud_prepare cloudBuild ;;
  cloud_init cloudBuild ;;
  cloud_build cloudBuild.

End Publishing.

(** * Vocabulary of the properties *)

Definition SSH_SIGNATURE := "Permission denied (publickey)".
Definition MISSING_REF := "Couldn't find remote ref ".

(** The history at the moment [git.pull] settles. *)
Definition pulling (s : State) (branchName : string)
    (options : list (string * option string)) : list Event :=
  trace s ++ [Log notice ("同步远程 " +:+ branchName +:+ " 分支代码");
              GitPull "origin" branchName options].

(** The message of the error [checkConflicted] throws. *)
Definition UNRESOLVED_CONFLICT := "当前代码存在冲突，请手动处理合并后再试！".

(** The message of the error thrown when the pull is refused for want of a
    registered SSH key. *)
Definition ssh_setup_message (env : Env) (srv : GitServer) : string :=
  "请获取本地 ssh publickey 并配置到：" +:+ host_getSSHKeysUrl env (kind srv)
  +:+ "，配置方法：" +:+ host_getSSHKeysHelpUrl env (kind srv).

(** The history at the moment [git.status] settles in [checkConflicted]. *)
Definition checking (s : State) : list Event :=
  trace s ++ [Log notice "代码冲突检查"; GitStatus].

(** The question [checkNotCommitted] asks. *)
Definition COMMIT_PROMPT : Event := Prompt PText "请输入 commit 信息：" [].

(** A status with nothing to stage. *)
Definition nothing_pending (st : StatusResult) : Prop :=
  not_added st = [] /\ created st = [] /\ deleted st = [] /\
  modified st = [] /\ renamed st = [].

(** What [checkNotCommitted] has done when it comes to the renames: it has
    read the status, logged it, and handed the four lists of paths to
    [git.add]. *)
Definition staged_paths (st : StatusResult) : list Event :=
  [GitStatus; Log verbose "status";
   GitAdd (map Path (not_added st)); GitAdd (map Path (created st));
   GitAdd (map Path (deleted st)); GitAdd (map Path (modified st))].

Definition is_rename (f : AddEntry) : bool :=
  match f with
  | Renamed _ => true
  | Path _ => false
  end.

(** The call that has just been issued is an [add] holding a rename. *)
Definition adds_a_rename (h : list Event) : bool :=
  match last h with
  | Some (GitAdd files) => existsb is_rename files
  | _ => false
  end.

(** simple-git runs [git add] with the entries it is handed as the paths.
    An entry that is an object names no path, and the call is refused; [msg]
    is what the refusal says.  Nothing else is refused here. *)
Definition refuses_renames (env : Env) (msg : string) : Prop :=
  forall h, rejects env h = if adds_a_rename h then Some msg else None.

(** The working tree after [git mv a.js b.js]. *)
Definition one_rename : StatusResult :=
  {| conflicted := []; not_added := []; created := []; deleted := [];
     modified := [];
     renamed := [{| rename_from := "a.js"; rename_to := "b.js" |}] |}.

(** What git says of an argument that names no file. *)
Definition NO_SUCH_PATH := "fatal: pathspec '[object Object]' did not match any files".

(** A simple-git that refuses an [add] holding a rename, on the tree of
    [one_rename]. *)
Definition after_a_rename : Env :=
  Sample.with_git (fun h => if adds_a_rename h then Some NO_SUCH_PATH else None)
    (fun _ => one_rename) "".

(** The calls made on simple-git, among all the events of a history. *)
Definition is_git_call (e : Event) : bool :=
  match e with
  | GitInit _ | GitGetRemotes | GitAddRemote _ _ | GitStatus | GitAdd _
  | GitCommit _ | GitPull _ _ _ | GitPush _ _ | GitListRemote _
  | GitBranchLocal | GitCheckout _ | GitCheckoutLocalBranch _
  | GitStashList | GitStash _ => true
  | _ => false
  end.

Definition git_calls (h : list Event) : list Event := List.filter is_git_call h.

(** The history at the moment [git.listRemote] settles in [getCorrectVersion]. *)
Definition listing_refs (s : State) : list Event :=
  trace s ++ [Log notice "获取代码分支"; GitListRemote ["--refs"]].

(** The option [initCommit] passes to its pull. *)
Definition ALLOW_UNRELATED : list (string * option string) :=
  [("--allow-unrelated-histories", None)].

(** [hay] has [needle] somewhere inside. *)
Definition mentions (needle hay : string) : Prop :=
  exists pre post, hay = pre +:+ needle +:+ post.

(** Two heads of the [dev] channel on consecutive lines, as
    [git ls-remote --refs] prints them. *)
Definition two_dev_heads : string :=
  "3b18e512dba79e4c8300dd08aeb37f8e728b8dad" +:+ Sample.tab +:+ "refs/heads/dev/1.0.0"
  +:+ Sample.nl +:+
  "9d4c2f7a1e6b5d3c8f0a2b4c6d8e0f1a3b5c7d9e" +:+ Sample.tab +:+ "refs/heads/dev/1.1.0".

(** A well-formed head next to a malformed one. *)
Definition one_good_one_bad : string :=
  "3b18e512dba79e4c8300dd08aeb37f8e728b8dad" +:+ Sample.tab +:+ "refs/heads/dev/1.0.0"
  +:+ Sample.nl +:+
  "9d4c2f7a1e6b5d3c8f0a2b4c6d8e0f1a3b5c7d9e" +:+ Sample.tab +:+ "refs/heads/dev/x.y.z".

(** [s'] is [s] some events later: the fields of the object are the same,
    and the calls made on simple-git in between are [calls]. *)
Definition advances (s s' : State) (calls : list Event) : Prop :=
  self s' = self s
  /\ exists evs, trace s' = trace s ++ evs /\ git_calls evs = calls.

(** The five stagings and the commit of [checkNotCommitted]. *)
Definition staging (st : StatusResult) (message : string) : list Event :=
  [GitAdd (map Path (not_added st)); GitAdd (map Path (created st));
   GitAdd (map Path (deleted st)); GitAdd (map Path (modified st));
   GitAdd (map Renamed (renamed st)); GitCommit message].

(** The calls [commit] makes on simple-git when it runs to its end, phase by
    phase.  [stash], [staged] and [sync] are the optional parts, [checkout]
    is one of the two ways to switch to the branch. *)
Definition commit_calls (b : string) (stash staged : list Event)
    (checkout : Event) (sync : list Event) : list Event :=
  [GitListRemote ["--refs"]]                       (* resolve version and branch *)
  ++ GitStashList :: stash                         (* restore any stash *)
  ++ [GitStatus]                                   (* check for conflicts *)
  ++ GitStatus :: staged                           (* stage and commit *)
  ++ [GitBranchLocal; checkout]                    (* switch to the branch *)
  ++ [GitPull "origin" "master" []; GitStatus]     (* merge master *)
  ++ GitListRemote ["--refs"] :: sync              (* merge the remote branch *)
  ++ [GitPush "origin" b].                         (* push *)

(** [s] ends in [suffix]. *)
Definition ends_with (suffix s : string) : bool :=
  (String.length suffix <=? String.length s)%nat
  && String.eqb (substring (String.length s - String.length suffix)
                           (String.length suffix) s) suffix.

(** The remote has the branch [b]: a line of the listing, which
    [git ls-remote --refs] prints as an object id, a tab and the name of the
    ref, ends in [refs/heads/<b>]. *)
Definition remote_has_branch (listing b : string) : bool :=
  existsb (ends_with (Sample.tab +:+ "refs/heads/" +:+ b)) (Js.split_lines listing).

(** A remote whose only head on the [dev] channel is a release candidate. *)
Definition one_candidate_head : string :=
  "3b18e512dba79e4c8300dd08aeb37f8e728b8dad" +:+ Sample.tab +:+ "refs/heads/dev/1.0.0-rc1".

(** The remote refuses the pull of [b], a branch it does not have, in git's
    words. *)
Definition no_such_branch (b : string) (h : list Event) : option string :=
  match last h with
  | Some (GitPull _ pulled _) =>
      if String.eqb pulled b then Some ("fatal: " +:+ MISSING_REF +:+ b) else None
  | _ => None
  end.

(** A line of the listing names the head [refs/heads/dev/<v>]. *)
Definition remote_has_dev_head (listing v : string) : Prop :=
  exists line, In line (Js.split_lines listing)
               /\ mentions ("refs/heads/dev/" +:+ v) line.

(** A computation whose final state is related to its initial state by [R],
    however it ends. *)
Definition respects {A} (R : State -> State -> Prop) (m : M A) : Prop :=
  forall s, R s (m s).2.

(** A relation that holds across any number of events and answers. *)
Definition passes_time (R : State -> State -> Prop) : Prop :=
  forall s a evs,
    R s {| self := self s; files := files s; answers := a; trace := trace s ++ evs |}.

(** The relations used below: a view of the state is what it was; the
    history has only grown. *)
Definition same {X} (view : State -> X) (s s' : State) : Prop := view s' = view s.
Definition later (s s' : State) : Prop := exists evs, trace s' = trace s ++ evs.

(** *** The cache and the questions *)

(** The cache root [checkHomePath] settles on. *)
Definition home_of (env : Env) (cliHome : option string) : string :=
  if Js.falsy cliHome then
    path_resolve env (userHome env)
      (if negb (Js.falsy (env_CLI_HOME env)) then Js.str (env_CLI_HOME env)
       else DEFAULT_CLI_HOME)
  else Js.str cliHome.

Definition cache_root (env : Env) (home : string) : string :=
  path_resolve env home GIT_ROOT_DIR.

(** The file of a cached category. *)
Definition cache_path (env : Env) (home file : string) : string :=
  path_resolve env (cache_root env home) file.

Definition is_prompt (e : Event) : bool :=
  match e with
  | Prompt _ _ _ => true
  | _ => false
  end.

(** The questions put to the operator, among all the events of a history. *)
Definition prompts (h : list Event) : list Event := List.filter is_prompt h.

Definition SERVER_PROMPT : Event :=
  Prompt PList "请选择您想要托管的Git平台" GIT_SERVER_TYPE.

Definition TOKEN_PROMPT : Event := Prompt PPassword "请将token复制到这里" [].

Definition OWNER_PROMPT (os : list Identity) : Event :=
  Prompt PList "请选择远程仓库类型"
    (match os with
     | _ :: _ => GIT_OWNER_TYPE
     | [] => GIT_OWNER_TYPE_ONLY
     end).

(** Running [m] from [s] puts the question [q] to the operator, and no
    question before it. *)
Definition asks {A} (m : M A) (s : State) (q : Event) : Prop :=
  exists before after,
    trace (m s).2 = trace s ++ before ++ q :: after /\ prompts before = [].

(** The context [prepare] resolves: hosting client, token, owner kind and
    login. *)
Definition resolved (g : Git) : option GitServer * option string * string * option string :=
  (gitServer g, token g, owner g, login g).

(** A cache entry that holds a value: the file is there and is not empty. *)
Definition cached (s : State) (path value : string) : Prop :=
  files s !! path = Some value /\ value <> "".

(** What the later steps of [prepare] rely on and never change: the cache
    root and the project directory. *)
Definition anchors (s : State) : option string * string :=
  (homePath (self s), dir (self s)).

Definition resolution (s : State) := resolved (self s).

(** The files are what they were, except perhaps the one at [path]. *)
Definition same_files_but (path : string) (s s' : State) : Prop :=
  forall p, p <> path -> files s' !! p = files s !! p.

(** The five files [prepare] writes are five different files. *)
Definition cache_files_apart (env : Env) (home dir : string) : Prop :=
  NoDup [cache_path env home GIT_SERVER_FILE; cache_path env home GIT_TOKEN_FILE;
         cache_path env home GIT_OWN_FILE; cache_path env home GIT_LOGIN_FILE;
         path_resolve env dir GIT_IGNORE_FILE].

(** From the history [t] on, what a run of [prepare] has found or made is
    still there: the collaborators answer, the account and the remote
    repository exist, and so do the cache root and the local repository. *)
Definition still_there (env : Env) (t : list Event) (home dir : string) : Prop :=
  (forall h, rejects env (t ++ h) = None)
  /\ (forall h, host_getUser env (t ++ h) <> None)
  /\ (forall h, host_getRepo env (t ++ h) <> None)
  /\ (forall h, fs_existsSync env (t ++ h) home = true)
  /\ (forall h, fs_existsSync env (t ++ h) (path_resolve env dir GIT_ROOT_DIR) = true).

(** The state in which the command line calls [prepare]: a new object, the
    files on disk, the answers to come and the history so far. *)
Definition launch (dir name version : string) (cliHome : option string)
    (refreshToken refreshOwner refreshServer prod : bool)
    (disk : gmap string string) (typed : list string) (h : list Event) : State :=
  {| self := constructor dir name version cliHome refreshToken refreshOwner
               refreshServer prod;
     files := disk; answers := typed; trace := h |}.

(** *** The phases of [commit]

    The calls [commit] may make on simple-git, as a machine.  A phase keeps
    what the call that led to it was answered, and a call the engine makes
    on a condition is a move of the machine under that condition only.  [b]
    is the branch being committed to, [v] the version of the project, and
    [h] the history at the moment the call is answered. *)
Inductive Phase :=
| Start                               (* nothing done yet *)
| Resolved                            (* remote refs listed, branch name settled *)
| StashListed (all : list string)
| StashPopped
| ConflictsChecked (st : StatusResult)
| StatusRead (st : StatusResult)
| Staged (st : StatusResult) (n : nat) (* [n] of the five lists handed to [git.add] *)
| Committed
| BranchesListed (all : list string)
| Switched                            (* on the branch *)
| MasterPulled
| MasterChecked (st : StatusResult)
| RefsListed (listing : string)
| BranchPulled
| BranchChecked (st : StatusResult)
| Pushed.

Definition is_refs (args : list string) : bool := bool_decide (args = ["--refs"]).
Definition is_pop (args : list string) : bool := bool_decide (args = ["pop"]).
Definition plain_pull (remote branch wanted : string)
    (options : list (string * option string)) : bool :=
  String.eqb remote "origin" && String.eqb branch wanted
  && match options with [] => true | _ :: _ => false end.

Definition none_stashed (all : list string) : bool :=
  match all with [] => true | _ :: _ => false end.

Definition no_conflict (st : StatusResult) : bool :=
  match conflicted st with [] => true | _ :: _ => false end.

(** The five lists of a status, as they are handed to [git.add]. *)
Definition lists_to_add (st : StatusResult) : list (list AddEntry) :=
  [map Path (not_added st); map Path (created st); map Path (deleted st);
   map Path (modified st); map Renamed (renamed st)].

(** The scan of the listing for heads of the [dev] channel comes up with
    the version. *)
Definition scan_finds (env : Env) (v listing : string) : bool :=
  Js.array_includes v (branchList env None listing).

Definition next (env : Env) (b v : string) (h : list Event) (p : Phase) (e : Event)
    : option Phase :=
  match p, e with
  | Start, GitListRemote args => if is_refs args then Some Resolved else None
  | Resolved, GitStashList => Some (StashListed (git_stashList env h))
  | StashListed all, GitStash args =>
      if is_pop args && negb (none_stashed all) then Some StashPopped else None
  | StashListed all, GitStatus =>
      if none_stashed all then Some (ConflictsChecked (git_status env h)) else None
  | StashPopped, GitStatus => Some (ConflictsChecked (git_status env h))
  | ConflictsChecked st, GitStatus =>
      if no_conflict st then Some (StatusRead (git_status env h)) else None
  | StatusRead st, GitAdd files =>
      if any_pending st && bool_decide (lists_to_add st !! 0%nat = Some files)
      then Some (Staged st 1) else None
  | Staged st n, GitAdd files =>
      if bool_decide (lists_to_add st !! n = Some files)
      then Some (Staged st (S n)) else None
  | Staged st n, GitCommit message =>
      if (n =? 5)%nat && Js.truthy message then Some Committed else None
  | StatusRead st, GitBranchLocal =>
      if any_pending st then None else Some (BranchesListed (git_branchLocal env h))
  | Committed, GitBranchLocal => Some (BranchesListed (git_branchLocal env h))
  | BranchesListed all, GitCheckout b' =>
      if String.eqb b' b && Js.array_includes b all then Some Switched else None
  | BranchesListed all, GitCheckoutLocalBranch b' =>
      if String.eqb b' b && negb (Js.array_includes b all) then Some Switched else None
  | Switched, GitPull remote b' options =>
      if plain_pull remote b' "master" options then Some MasterPulled else None
  | MasterPulled, GitStatus => Some (MasterChecked (git_status env h))
  | MasterChecked st, GitListRemote args =>
      if is_refs args && no_conflict st
      then Some (RefsListed (git_listRemote env h)) else None
  | RefsListed listing, GitPull remote b' options =>
      if plain_pull remote b' b options && scan_finds env v listing
      then Some BranchPulled else None
  | BranchPulled, GitStatus => Some (BranchChecked (git_status env h))
  | RefsListed listing, GitPush remote b' =>
      if String.eqb remote "origin" && String.eqb b' b
         && negb (scan_finds env v listing)
      then Some Pushed else None
  | BranchChecked st, GitPush remote b' =>
      if String.eqb remote "origin" && String.eqb b' b && no_conflict st
      then Some Pushed else None
  | _, _ => None
  end.

(** The phase reached from [p] through the events [evs], which follow the
    history [h], if the machine has a move for each call on simple-git
    among them.  The other events move nothing. *)
Fixpoint walk (env : Env) (b v : string) (h : list Event) (p : Phase)
    (evs : list Event) : option Phase :=
  match evs with
  | [] => Some p
  | e :: rest =>
      if is_git_call e then
        match next env b v (h ++ [e]) p e with
        | Some q => walk env b v (h ++ [e]) q rest
        | None => None
        end
      else walk env b v (h ++ [e]) p rest
  end.

(** A project in the middle of work: an entry is stashed, two files are
    pending, and the branch of version [1.0.0] exists both locally and on
    the remote. *)
Definition busy : Env :=
  {| rejects := fun _ => None;
     git_status := fun _ => {| conflicted := []; not_added := ["notes.md"];
                               created := []; deleted := [];
                               modified := ["package.json"]; renamed := [] |};
     git_listRemote := fun _ => "3b18e512dba79e4c8300dd08aeb37f8e728b8dad"
                                +:+ Sample.tab +:+ "refs/heads/dev/1.0.0";
     git_getRemotes := fun _ => ["origin"];
     git_branchLocal := fun _ => ["master"; "dev/1.0.0"];
     git_stashList := fun _ => ["stash@{0}: WIP on master"];
     host_getUser := host_getUser Sample.quiet;
     host_getOrgs := host_getOrgs Sample.quiet;
     host_getRepo := host_getRepo Sample.quiet;
     host_createRepo := host_createRepo Sample.quiet;
     host_createOrgRepo := host_createOrgRepo Sample.quiet;
     host_getRemote := host_getRemote Sample.quiet;
     host_getSSHKeysUrl := host_getSSHKeysUrl Sample.quiet;
     host_getSSHKeysHelpUrl := host_getSSHKeysHelpUrl Sample.quiet;
     fs_existsSync := fs_existsSync Sample.quiet;
     fs_ensureDirFails := fs_ensureDirFails Sample.quiet;
     path_resolve := path_resolve Sample.quiet;
     semver_valid := semver_valid Sample.quiet;
     userHome := userHome Sample.quiet;
     env_CLI_HOME := env_CLI_HOME Sample.quiet |}.

(** [m], started on the object [g] in a phase that satisfies [entry], leaves
    the object alone and moves the machine on, however it ends; when it
    returns [a], the phase reached satisfies [exit a]. *)
Definition follows {A} (env : Env) (b v : string) (g : Git) (entry : Phase -> Prop)
    (m : M A) (exit : A -> Phase -> Prop) : Prop :=
  forall s p,
    self s = g -> entry p ->
    self (m s).2 = g
    /\ exists new p',
         trace (m s).2 = trace s ++ new
         /\ walk env b v (trace s) p new = Some p'
         /\ forall a, (m s).1 = Ret a -> exit a p'.

(** * Vocabulary of the further properties *)

(** *** What a run adds to the history *)

(** Between [s] and [s'] the history has grown by events that all satisfy
    [P]. *)
Definition added (P : Event -> Prop) (s s' : State) : Prop :=
  exists evs, trace s' = trace s ++ evs /\ Forall P evs.

(** What [commit] does to the outside world: it logs, it calls simple-git,
    and it asks for a commit message. *)
Definition commit_event (e : Event) : Prop :=
  match e with
  | Log _ _ | ConsoleLog _ => True
  | Prompt _ _ _ => e = COMMIT_PROMPT
  | _ => is_git_call e = true
  end.

(** An event that is not a call on simple-git. *)
Definition off_git (e : Event) : Prop := is_git_call e = false.

(** The calls [prepare] may make on simple-git: it never switches branches
    and never touches the stash, and what it pulls or pushes is [master] of
    [origin]. *)
Definition first_sync_event (e : Event) : Prop :=
  match e with
  | GitPull r b _ | GitPush r b => r = "origin" /\ b = "master"
  | GitCheckout _ | GitCheckoutLocalBranch _ | GitBranchLocal
  | GitStashList | GitStash _ => False
  | _ => True
  end.

(** A commit, if the event is one, has a message that is not empty. *)
Definition commits_with_message (e : Event) : Prop :=
  match e with
  | GitCommit m => m <> ""
  | _ => True
  end.

(** The requests to the hosting platform, among all the events. *)
Definition is_host_call (e : Event) : bool :=
  match e with
  | HostGetUser | HostGetOrgs | HostGetRepo _ _ | HostCreateRepo _
  | HostCreateOrgRepo _ _ => true
  | _ => false
  end.

(** An event that is not a request to the hosting platform. *)
Definition off_platform (e : Event) : Prop := is_host_call e = false.

(** An event other than a push. *)
Definition not_a_push (e : Event) : Prop :=
  match e with
  | GitPush _ _ => False
  | _ => True
  end.

(** An event that neither stages, commits, switches branches, pulls nor
    pushes. *)
Definition leaves_work_alone (e : Event) : Prop :=
  match e with
  | GitAdd _ | GitCommit _ | GitCheckout _ | GitCheckoutLocalBranch _
  | GitPull _ _ _ | GitPush _ _ => False
  | _ => True
  end.

(** The files [prepare] may write and the directories it may create, for
    the cache root [home] and the project directory [wd]. *)
Definition own_files (env : Env) (home wd : string) : list string :=
  [cache_path env home GIT_SERVER_FILE; cache_path env home GIT_TOKEN_FILE;
   cache_path env home GIT_OWN_FILE; cache_path env home GIT_LOGIN_FILE;
   path_resolve env wd GIT_IGNORE_FILE].

(** An event that, if it writes a file or creates a directory, keeps to
    those. *)
Definition within_own_files (env : Env) (home wd : string) (e : Event) : Prop :=
  match e with
  | FsWrite p _ => In p (own_files env home wd)
  | FsEnsureDir p => p = home \/ p = cache_root env home
  | _ => True
  end.

(** Whether the spinner is turning after the events [evs], when it stood
    still before them. *)
Definition spinning (evs : list Event) : bool :=
  fold_left (fun turning e =>
               match e with
               | SpinnerStart _ => true
               | SpinnerStop => false
               | _ => turning
               end) evs false.

(** The last thing that happened is a push to [origin]. *)
Definition ends_with_push (s : State) : Prop :=
  exists h b, trace s = h ++ [GitPush "origin" b].

(** *** How a run ends *)

(** A relation that is only claimed of runs that start in a state where
    [I] holds, and that hands [I] on. *)
Definition from (I : State -> Prop) (R : State -> State -> Prop) (s s' : State) : Prop :=
  I s -> I s' /\ R s s'.

(** [m] calls [process.exit(c)] only in final states that satisfy [Q c]. *)
Definition exits {A} (Q : Z -> State -> Prop) (m : M A) : Prop :=
  forall s c, (m s).1 = Exit c -> Q c (m s).2.

(** The process was ended with status 0, and the last things that happened
    are a pull that was refused and the log line about it. *)
Definition after_failed_pull (env : Env) (c : Z) (s' : State) : Prop :=
  c = 0%Z
  /\ exists h b opts lvl msg,
       trace s' = h ++ [GitPull "origin" b opts; Log lvl msg]
       /\ rejects env (h ++ [GitPull "origin" b opts]) <> None.

(** From any state that satisfies [pre], [m] returns, and [post] holds of
    what it returns and of the state it returns in. *)
Definition returns {A} (pre : State -> Prop) (m : M A) (post : A -> State -> Prop)
    : Prop :=
  forall s, pre s -> exists a s', m s = (Ret a, s') /\ post a s'.

(** From any state that satisfies [pre], [m] ends in a way and in a state
    that satisfy [post]. *)
Definition ends {A} (pre : State -> Prop) (m : M A)
    (post : Outcome A -> State -> Prop) : Prop :=
  forall s, pre s -> post (m s).1 (m s).2.

(** A condition on the answers the operator is still going to give. *)
Definition on (Q : list string -> Prop) (s : State) : Prop := Q (answers s).

(** Among the answers to come there is one that is not blank. *)
Definition has_message (typed : list string) : Prop :=
  exists a, In a typed /\ a <> "".

(** *** The object and the cache *)

(** The object as [commit] and [publish] need it: the cache root, a hosting
    client that holds the token, the account and its organisations, the
    login the repository lives under, the repository and its remote URL. *)
Definition ready (g : Git) : Prop :=
  homePath g <> None
  /\ (exists srv t, gitServer g = Some srv /\ server_token srv = Some t
                    /\ token g = Some t)
  /\ user g <> None /\ orgs g <> None /\ login g <> None
  /\ repo g <> None /\ remote g <> None.

(** Both entries of the owner are in the cache: the kind of owner and the
    login. *)
Definition owner_is_cached (env : Env) (s : State) (home : string) : bool :=
  negb (Js.falsy (files s !! cache_path env home GIT_OWN_FILE))
  && negb (Js.falsy (files s !! cache_path env home GIT_LOGIN_FILE)).

(** The question about which organisation. *)
Definition ORG_PROMPT (os : list Identity) : Event :=
  Prompt PList "请选择" (map id_login os).

(** The call by which [checkRepo] creates the repository of the object. *)
Definition creation (g : Git) : Event :=
  if String.eqb (owner g) REPO_OWNER_USER then HostCreateRepo (name g)
  else HostCreateOrgRepo (name g) (login g).

(** What the platform answers to it. *)
Definition created_by (env : Env) (g : Git) (h : list Event) : option Repo :=
  if String.eqb (owner g) REPO_OWNER_USER then host_createRepo env h
  else host_createOrgRepo env h.

(** *** Lines of the listing *)

(** Every character of [s] passes [p]. *)
Fixpoint every (p : ascii -> bool) (s : string) : bool :=
  match s with
  | EmptyString => true
  | String c r => p c && every p r
  end.

(** A run of digits, at least one. *)
Definition number (d : string) : bool := Js.truthy d && every Regex.is_digit d.

(** The text goes on with a digit. *)
Definition starts_with_digit (s : string) : bool :=
  match s with
  | String c _ => Regex.is_digit c
  | EmptyString => false
  end.

(** A character that may stand before the ref name on its line: not a line
    break, and not the [r] a ref name starts with.  The object id and the
    tab that [git ls-remote] prints are made of such characters. *)
Definition before_ref (c : ascii) : bool :=
  negb (Regex.line_terminator c) && negb (Ascii.eqb c "r"%char).

(** A character other than the line feed the listing is split at. *)
Definition no_line_feed (c : ascii) : bool := negb (Ascii.eqb c "010"%char).

(** The expression does not match the line, searched from its start. *)
Definition no_match (lit line : string) : Prop := (Regex.exec lit 0 line).1 = None.

(** *** Publishing *)

(** The question [publish] asks. *)
Definition PUBLISH_PROMPT : Event :=
  Prompt PList "请选择您想要上传代码的平台" GIT_PUBLISH_TYPE.

(** The three phases of a build, awaited in turn. *)
Definition phases (build : CloudBuild) : M unit :=
  cloud_prepare build ;; cloud_init build ;; cloud_build build.

(** *** Collaborators and objects for the examples *)

(** The collaborators of [Sample.quiet] on a platform that has no repository
    for the project yet and creates one under the account when asked. *)
Definition without_repository : Env :=
  {| rejects := rejects Sample.quiet;
     git_status := git_status Sample.quiet;
     git_listRemote := git_listRemote Sample.quiet;
     git_getRemotes := git_getRemotes Sample.quiet;
     git_branchLocal := git_branchLocal Sample.quiet;
     git_stashList := git_stashList Sample.quiet;
     host_getUser := host_getUser Sample.quiet;
     host_getOrgs := host_getOrgs Sample.quiet;
     host_getRepo := fun _ => None;
     host_createRepo := fun _ => Some {| repo_url := "git@github.com:sam/demo.git" |};
     host_createOrgRepo := fun _ => None;
     host_getRemote := host_getRemote Sample.quiet;
     host_getSSHKeysUrl := host_getSSHKeysUrl Sample.quiet;
     host_getSSHKeysHelpUrl := host_getSSHKeysHelpUrl Sample.quiet;
     fs_existsSync := fs_existsSync Sample.quiet;
     fs_ensureDirFails := fs_ensureDirFails Sample.quiet;
     path_resolve := path_resolve Sample.quiet;
     semver_valid := semver_valid Sample.quiet;
     userHome := userHome Sample.quiet;
     env_CLI_HOME := env_CLI_HOME Sample.quiet |}.

(** The collaborators of [Sample.quiet] in a project directory that is not
    a repository yet, with chosen replies of simple-git. *)
Definition not_yet_a_repository (rej : list Event -> option string) (listing : string)
    : Env :=
  {| rejects := rej;
     git_status := git_status Sample.quiet;
     git_listRemote := fun _ => listing;
     git_getRemotes := git_getRemotes Sample.quiet;
     git_branchLocal := git_branchLocal Sample.quiet;
     git_stashList := git_stashList Sample.quiet;
     host_getUser := host_getUser Sample.quiet;
     host_getOrgs := host_getOrgs Sample.quiet;
     host_getRepo := host_getRepo Sample.quiet;
     host_createRepo := host_createRepo Sample.quiet;
     host_createOrgRepo := host_createOrgRepo Sample.quiet;
     host_getRemote := host_getRemote Sample.quiet;
     host_getSSHKeysUrl := host_getSSHKeysUrl Sample.quiet;
     host_getSSHKeysHelpUrl := host_getSSHKeysHelpUrl Sample.quiet;
     fs_existsSync := fun _ p => negb (String.eqb p "/work/demo/.git");
     fs_ensureDirFails := fs_ensureDirFails Sample.quiet;
     path_resolve := path_resolve Sample.quiet;
     semver_valid := semver_valid Sample.quiet;
     userHome := userHome Sample.quiet;
     env_CLI_HOME := env_CLI_HOME Sample.quiet |}.

(** Every push is refused with the given message; nothing else fails. *)
Definition push_fails (msg : string) (h : list Event) : option string :=
  match last h with
  | Some (GitPush _ _) => Some msg
  | _ => None
  end.

(** Every status lists one conflicted path; nothing else is pending. *)
Definition in_conflict : StatusResult :=
  {| conflicted := ["package.json"]; not_added := []; created := [];
     deleted := []; modified := []; renamed := [] |}.

(** An object as [checkUserAndOrgs] leaves it: the cache root is settled, a
    GitHub client is bound, and the account is [sam] with the given
    organisations. *)
Definition signed_in (os : list Identity) (disk : gmap string string)
    (typed : list string) : State :=
  {| self := set_orgs (Some os)
               (set_user (Some {| id_login := "sam" |})
                  (set_homePath (Some "/home/sam/.imooc-cli")
                     (self (Sample.prepared "1.0.0" typed))));
     files := disk; answers := typed; trace := [] |}.

(** A build collaborator that only logs its phases with the target it was
    given. *)
Definition logging_build (g : Git) (target : string) (prod : bool) : CloudBuild :=
  {| cloud_prepare := log notice ("prepare " +:+ target);
     cloud_init := log notice ("init " +:+ target);
     cloud_build := log notice ("build " +:+ target) |}.

(** * Properties *)

(** Run a computation inside a hypothesis, case by case. *)
Ltac run_in H :=
  unfold bind, log, call_, call, emit, history, get_self, update_self, ret,
    throw, process_exit, extend in H;
  cbn in H;
  repeat (match type of H with
          | context [rejects ?env ?h] => destruct (rejects env h) eqn:?
          | context [match ?x with _ => _ end] =>
              lazymatch x with
              | context [match _ with _ => _ end] => fail
              | _ => destruct x eqn:?
              end
          end; cbn in H; try discriminate H).

Lemma bind_ret_inv {A B} (m : M A) (k : A -> M B) s b s' :
  bind m k s = (Ret b, s') ->
  exists a s1, m s = (Ret a, s1) /\ k a s1 = (Ret b, s').
Proof.
  unfold bind. destruct (m s) as [[a | e | c |] s1]; try discriminate. eauto.
Qed.

(** Split a run that returned into the runs of its steps. *)
Ltac unbind H :=
  repeat (lazymatch type of H with bind _ _ _ = _ => idtac end;
          apply bind_ret_inv in H;
          let a := fresh "a" in
          let s := fresh "s" in
          let Hstep := fresh "Hstep" in
          destruct H as (a & s & Hstep & H); cbn beta in H;
          try match type of a with unit => destruct a end).

(** ** Synchronisation: [pullRemoteRepo] *)

Section Pull.

Variable env : Env.

Lemma pullRemoteRepo_resolved s b opts :
  rejects env (pulling s b opts) = None ->
  pullRemoteRepo env b opts s
  = (Ret tt, extend s [Log notice ("同步远程 " +:+ b +:+ " 分支代码");
                       GitPull "origin" b opts]).
Proof.
  unfold pulling. intros H.
  unfold pullRemoteRepo, catch, bind, log, call_, call, emit, history, extend; cbn.
  rewrite <- app_assoc; cbn. rewrite H. reflexivity.
Qed.

Lemma pullRemoteRepo_rejected s b opts msg :
  rejects env (pulling s b opts) = Some msg ->
  pullRemoteRepo env b opts s
  = let s1 := extend s [Log notice ("同步远程 " +:+ b +:+ " 分支代码");
                        GitPull "origin" b opts] in
    if Js.includes SSH_SIGNATURE msg then
      match gitServer (self s) with
      | Some srv => (Throw (Error (ssh_setup_message env srv)), s1)
      | None => (Throw (TypeError "gitServer"), s1)
      end
    else if Js.includes (MISSING_REF +:+ b) msg then
      (Exit 0%Z, extend s1 [Log notice ("获取远程 [" +:+ b +:+ "] 分支失败")])
    else
      (Exit 0%Z, extend s1 [Log error msg]).
Proof.
  unfold pulling. intros H.
  unfold pullRemoteRepo, catch, bind, log, call_, call, emit, history, extend; cbn.
  rewrite <- app_assoc; cbn. rewrite H. cbn.
  unfold SSH_SIGNATURE, MISSING_REF.
  destruct (Js.includes _ msg); cbn.
  - unfold the_gitServer, bind, get_self; cbn.
    destruct (gitServer (self s)); reflexivity.
  - destruct (Js.includes _ msg); reflexivity.
Qed.

(** C1, as amended: a failed pull is classified by the text of its message.
    With the public-key signature in it, the SSH-setup error is thrown (the
    links come from the hosting client); otherwise, with the missing-ref
    signature for the branch in it, a notice is logged and the process exits
    with code 0; with neither, the message is logged as an error and the
    process exits with code 0. *)
Theorem pullRemoteRepo_classifies s b opts msg :
  rejects env (pulling s b opts) = Some msg ->
  let attempted := extend s [Log notice ("同步远程 " +:+ b +:+ " 分支代码");
                             GitPull "origin" b opts] in
  (Js.includes SSH_SIGNATURE msg = true ->
     forall srv, gitServer (self s) = Some srv ->
     pullRemoteRepo env b opts s
     = (Throw (Error (ssh_setup_message env srv)), attempted))
  /\ (Js.includes SSH_SIGNATURE msg = false ->
      Js.includes (MISSING_REF +:+ b) msg = true ->
      pullRemoteRepo env b opts s
      = (Exit 0%Z, extend attempted [Log notice ("获取远程 [" +:+ b +:+ "] 分支失败")]))
  /\ (Js.includes SSH_SIGNATURE msg = false ->
      Js.includes (MISSING_REF +:+ b) msg = false ->
      pullRemoteRepo env b opts s
      = (Exit 0%Z, extend attempted [Log error msg])).
Proof.
  intros Hrej attempted.
  rewrite (pullRemoteRepo_rejected _ _ _ _ Hrej); cbn zeta.
  repeat split.
  - intros -> srv ->. reflexivity.
  - intros -> ->. reflexivity.
  - intros -> ->. reflexivity.
Qed.

(** C9: a pull that fails with a message without the public-key signature
    ends the process through [process.exit(0)], whether or not the message
    names a missing remote ref. *)
Theorem pullRemoteRepo_failure_exits_zero s b opts msg :
  rejects env (pulling s b opts) = Some msg ->
  Js.includes SSH_SIGNATURE msg = false ->
  (pullRemoteRepo env b opts s).1 = Exit 0%Z.
Proof.
  intros Hrej Hssh.
  rewrite (pullRemoteRepo_rejected _ _ _ _ Hrej); cbn zeta. rewrite Hssh.
  destruct (Js.includes (MISSING_REF +:+ b) msg); reflexivity.
Qed.

End Pull.

(** C1 as written fails: the remote has no [master], the message carries the
    missing-ref signature and not the public-key one, and the call does not
    return to its caller; the process exits. *)
Lemma pullRemoteRepo_missing_ref_does_not_proceed :
  let msg := "fatal: Couldn't find remote ref master" in
  let env := Sample.with_git (Sample.pull_fails msg) (fun _ => Sample.clean) "" in
  let s := Sample.prepared "1.0.0" [] in
  rejects env (pulling s "master" []) = Some msg
  /\ Js.includes SSH_SIGNATURE msg = false
  /\ Js.includes (MISSING_REF +:+ "master") msg = true
  /\ (pullRemoteRepo env "master" [] s).1 = Exit 0%Z
  /\ (pullRemoteRepo env "master" [] s).1 <> Ret tt.
Proof.
  vm_compute. repeat split; discriminate.
Qed.

Lemma pullRemoteRepo_classifies_witness :
  let msg := "fatal: Couldn't find remote ref dev/1.0.0" in
  let env := Sample.with_git (Sample.pull_fails msg) (fun _ => Sample.clean) "" in
  (pullRemoteRepo env "dev/1.0.0" [] (Sample.prepared "1.0.0" [])).1 = Exit 0%Z.
Proof.
  intros msg env.
  pose proof (pullRemoteRepo_classifies env (Sample.prepared "1.0.0" []) "dev/1.0.0" []
                msg eq_refl) as (_ & Hmissing & _).
  rewrite Hmissing; reflexivity.
Defined.

Lemma pullRemoteRepo_failure_exits_zero_witness :
  let msg := "fatal: unable to access remote: Could not resolve host" in
  let env := Sample.with_git (Sample.pull_fails msg) (fun _ => Sample.clean) "" in
  (pullRemoteRepo env "master" [] (Sample.prepared "1.0.0" [])).1 = Exit 0%Z.
Proof.
  intros msg env.
  apply (pullRemoteRepo_failure_exits_zero env (Sample.prepared "1.0.0" []) "master" [] msg);
    reflexivity.
Defined.

(** ** Conflict guard *)

Section Guard.

Variable env : Env.

Lemma checkConflicted_resolved s :
  rejects env (checking s) = None ->
  checkConflicted env s
  = match conflicted (git_status env (checking s)) with
    | _ :: _ => (Throw (Error UNRESOLVED_CONFLICT),
                 extend s [Log notice "代码冲突检查"; GitStatus])
    | [] => (Ret tt, extend s [Log notice "代码冲突检查"; GitStatus;
                               Log success "代码检查通过"])
    end.
Proof.
  unfold checking. intros H.
  unfold checkConflicted, bind, log, call, emit, history, extend; cbn.
  rewrite <- app_assoc; cbn. rewrite H; cbn.
  destruct (conflicted _); cbn.
  - rewrite <- app_assoc. reflexivity.
  - reflexivity.
Qed.

(** C5: once the status is known, [checkConflicted] throws the
    unresolved-conflict error exactly when the status lists a conflicted
    path, and returns normally when it lists none. *)
Theorem checkConflicted_raises_iff_conflicted s :
  rejects env (checking s) = None ->
  ((checkConflicted env s).1 = Throw (Error UNRESOLVED_CONFLICT)
     <-> conflicted (git_status env (checking s)) <> [])
  /\ (conflicted (git_status env (checking s)) = [] ->
      (checkConflicted env s).1 = Ret tt).
Proof.
  intros H. rewrite (checkConflicted_resolved _ H).
  destruct (conflicted _) as [|p ps]; cbn; split.
  - split; [discriminate | congruence].
  - reflexivity.
  - split; [discriminate | reflexivity].
  - discriminate.
Qed.

End Guard.

Lemma checkConflicted_raises_iff_conflicted_witness :
  let env := Sample.with_git (fun _ => None)
               (fun _ => {| conflicted := ["src/index.js"]; not_added := [];
                            created := []; deleted := []; modified := [];
                            renamed := [] |}) "" in
  (checkConflicted env (Sample.fresh "1.0.0" [])).1 = Throw (Error UNRESOLVED_CONFLICT).
Proof.
  intros env.
  apply (checkConflicted_raises_iff_conflicted env (Sample.fresh "1.0.0" []) eq_refl).
  discriminate.
Defined.

Section Staging.

Variable env : Env.

Lemma ask_commit_message_skips_blanks blanks m rest shown :
  Forall (fun a => a = "") blanks ->
  m <> "" ->
  ask_commit_message (blanks ++ m :: rest) shown
  = (Ret m, rest, shown ++ repeat COMMIT_PROMPT (S (length blanks))).
Proof.
  intros Hblank Hm. revert shown.
  induction Hblank as [|a blanks -> _ IH]; intros shown; cbn.
  - destruct m; [congruence | reflexivity].
  - rewrite IH. rewrite <- app_assoc. reflexivity.
Qed.

Lemma any_pending_false st : any_pending st = false <-> nothing_pending st.
Proof.
  unfold any_pending, nothing_pending.
  destruct (not_added st), (created st), (deleted st), (modified st), (renamed st);
    cbn; intuition congruence.
Qed.

Lemma adds_a_rename_last h e : adds_a_rename (h ++ [e]) = adds_a_rename [e].
Proof. unfold adds_a_rename. now rewrite last_snoc. Qed.

Lemma paths_hold_no_rename l : existsb is_rename (map Path l) = false.
Proof. induction l; [reflexivity | assumption]. Qed.

(** C4 fails on the code where the tree holds a rename.  Take a simple-git
    that refuses an [add] holding a rename entry, as it does, and nothing
    else.  On a tree with nothing pending [checkNotCommitted] only reads the
    status.  With something pending and no rename it stages the lists, asks
    for a commit message once for every blank answer and once more for the
    first one that is not blank, and commits once, with that message.  With
    a rename it hands the entries of [status.renamed], which are objects and
    not paths, to [git.add] as they are: the call is refused and
    [checkNotCommitted] throws the refusal, having asked for no message and
    made no commit. *)
Theorem checkNotCommitted_throws_on_a_rename s msg :
  refuses_renames env msg ->
  let st := git_status env (trace s ++ [GitStatus]) in
  (nothing_pending st -> checkNotCommitted env s = (Ret tt, extend s [GitStatus]))
  /\ (~ nothing_pending st ->
      renamed st = [] ->
      forall blanks m rest,
        answers s = blanks ++ m :: rest ->
        Forall (fun a => a = "") blanks ->
        m <> "" ->
        checkNotCommitted env s
        = (Ret tt,
           {| self := self s; files := files s; answers := rest;
              trace := trace s
                ++ staged_paths st ++ [GitAdd []]
                ++ repeat COMMIT_PROMPT (S (length blanks))
                ++ [GitCommit m; Log success "本地 commit 提交成功"] |}))
  /\ (renamed st <> [] ->
      checkNotCommitted env s
      = (Throw (Rejected msg),
         extend s (staged_paths st ++ [GitAdd (map Renamed (renamed st))]))).
Proof.
  intros Hgit st.
  assert (Hstatus : rejects env (trace s ++ [GitStatus]) = None)
    by (rewrite Hgit, adds_a_rename_last; reflexivity).
  assert (Hpaths : forall h l, rejects env (h ++ [GitAdd (map Path l)]) = None).
  { intros h l. rewrite Hgit, adds_a_rename_last. cbn.
    now rewrite paths_hold_no_rename. }
  split; [| split].
  - intros Hclean. apply any_pending_false in Hclean.
    unfold checkNotCommitted, bind, call, emit, history, extend; cbn.
    rewrite Hstatus; cbn. fold st. rewrite Hclean. reflexivity.
  - intros Hdirty Hnone blanks m rest Hans Hblank Hm.
    assert (Hpending : any_pending st = true).
    { destruct (any_pending st) eqn:E; [reflexivity |].
      apply any_pending_false in E. contradiction. }
    unfold checkNotCommitted, bind, call_, call, log, emit, history, extend,
      commit_message_loop; cbn.
    rewrite Hstatus; cbn. fold st. rewrite Hpending; cbn.
    repeat (rewrite Hpaths; cbn). rewrite Hnone; cbn.
    rewrite Hgit, adds_a_rename_last; cbn.
    rewrite Hans, (ask_commit_message_skips_blanks _ _ _ _ Hblank Hm); cbn.
    rewrite Hgit, adds_a_rename_last; cbn.
    unfold staged_paths. repeat (rewrite <- app_assoc; cbn). reflexivity.
  - intros Hsome.
    assert (Hpending : any_pending st = true).
    { unfold any_pending. destruct (renamed st); [contradiction |].
      cbn. now rewrite !orb_true_r. }
    unfold checkNotCommitted, bind, call_, call, log, emit, history, extend,
      commit_message_loop; cbn.
    rewrite Hstatus; cbn. fold st. rewrite Hpending; cbn.
    repeat (rewrite Hpaths; cbn).
    rewrite Hgit, adds_a_rename_last.
    destruct (renamed st) as [|r rs]; [contradiction |]. cbn.
    unfold staged_paths. repeat (rewrite <- app_assoc; cbn). reflexivity.
Qed.

End Staging.

Lemma checkNotCommitted_throws_on_a_rename_witness :
  let r := checkNotCommitted after_a_rename (Sample.fresh "1.0.0" ["rename a to b"]) in
  r.1 = Throw (Rejected NO_SUCH_PATH)
  /\ answers r.2 = ["rename a to b"]
  /\ git_calls (trace r.2)
     = [GitStatus; GitAdd []; GitAdd []; GitAdd []; GitAdd [];
        GitAdd [Renamed {| rename_from := "a.js"; rename_to := "b.js" |}]].
Proof.
  intros r.
  destruct (checkNotCommitted_throws_on_a_rename after_a_rename
              (Sample.fresh "1.0.0" ["rename a to b"]) NO_SUCH_PATH
              (fun _ => eq_refl)) as (_ & _ & H).
  subst r. rewrite H by discriminate. repeat split.
Defined.

(** ** Branch resolution: [getCorrectVersion] *)

Section Resolution.

Variable env : Env.

Lemma getCorrectVersion_resolved type s :
  rejects env (listing_refs s) = None ->
  let branch := Js.or_else type VERSION_DEVELOP +:+ "/" +:+ version (self s) in
  getCorrectVersion env type s
  = (Ret tt,
     {| self := set_branch (Some branch) (self s);
        files := files s; answers := answers s;
        trace := trace s ++ [Log notice "获取代码分支"; GitListRemote ["--refs"];
                             ConsoleLog (git_listRemote env (listing_refs s));
                             Log success ("代码分支获取成功 " +:+ branch)] |}).
Proof.
  unfold listing_refs. intros H.
  unfold getCorrectVersion, getRemoteBranchList, bind, log, call, emit, history,
    get_self, update_self, ret, extend; cbn.
  rewrite <- app_assoc; cbn. rewrite H; cbn.
  repeat (rewrite <- app_assoc; cbn). reflexivity.
Qed.

(** C3, as amended: once the remote refs are listed, [getCorrectVersion]
    returns with the branch name made of the channel ([dev] when none is
    given), a slash and the version string exactly as the object holds it.
    So [release] and [1.2.3] give [release/1.2.3], no channel and [0.1.0]
    give [dev/0.1.0]; the version is not checked. *)
Theorem getCorrectVersion_branch_name type s :
  rejects env (listing_refs s) = None ->
  let r := getCorrectVersion env type s in
  r.1 = Ret tt
  /\ branch (self r.2)
     = Some (Js.or_else type VERSION_DEVELOP +:+ "/" +:+ version (self s))
  /\ (type = Some "release" -> version (self s) = "1.2.3" ->
      branch (self r.2) = Some "release/1.2.3")
  /\ (type = None -> version (self s) = "0.1.0" ->
      branch (self r.2) = Some "dev/0.1.0").
Proof.
  intros H r. subst r. rewrite (getCorrectVersion_resolved _ _ H); cbn.
  repeat split.
  - intros -> ->. reflexivity.
  - intros -> ->. reflexivity.
Qed.

End Resolution.

Lemma getCorrectVersion_branch_name_witness :
  branch (self (getCorrectVersion Sample.quiet (Some "release")
                  (Sample.fresh "1.2.3" [])).2)
  = Some "release/1.2.3".
Proof.
  apply (getCorrectVersion_branch_name Sample.quiet (Some "release")
           (Sample.fresh "1.2.3" []) eq_refl); reflexivity.
Defined.

(** C3 as written fails: [1.2] is not a semantic version, and it is taken
    into the resolved branch name all the same. *)
Lemma getCorrectVersion_accepts_invalid_version :
  let r := getCorrectVersion Sample.quiet None (Sample.fresh "1.2" []) in
  Semver.valid "1.2" = false
  /\ r.1 = Ret tt
  /\ branch (self r.2) = Some "dev/1.2".
Proof.
  vm_compute. repeat split.
Qed.

(** ** First synchronisation: [initCommit] *)

Section Init.

Variable env : Env.

Lemma bind_assoc {A B C} (m : M A) (k : A -> M B) (k' : B -> M C) s :
  bind (bind m k) k' s = bind m (fun a => bind (k a) k') s.
Proof.
  unfold bind. destruct (m s) as [[a | e | c |] s']; reflexivity.
Qed.

Lemma git_calls_app h h' : git_calls (h ++ h') = git_calls h ++ git_calls h'.
Proof. apply List.filter_app. Qed.

Lemma pullRemoteRepo_git_calls s b opts :
  git_calls (trace (pullRemoteRepo env b opts s).2)
  = git_calls (trace s) ++ [GitPull "origin" b opts].
Proof.
  destruct (rejects env (pulling s b opts)) as [msg |] eqn:Hrej.
  - rewrite (pullRemoteRepo_rejected _ _ _ _ _ Hrej); cbn zeta.
    destruct (Js.includes SSH_SIGNATURE msg);
      [destruct (gitServer (self s)) |
       destruct (Js.includes (MISSING_REF +:+ b) msg)];
      cbn; rewrite ?git_calls_app; cbn; rewrite ?app_nil_r; reflexivity.
  - rewrite (pullRemoteRepo_resolved _ _ _ _ Hrej); cbn.
    rewrite git_calls_app. reflexivity.
Qed.

Lemma pushRemoteRepo_git_calls s b :
  git_calls (trace (pushRemoteRepo env b s).2)
  = git_calls (trace s) ++ [GitPush "origin" b].
Proof.
  unfold pushRemoteRepo, bind, log, call_, call, emit, history, extend; cbn.
  destruct (rejects env _); cbn;
    repeat (rewrite ?git_calls_app; cbn); rewrite ?app_nil_r;
    rewrite <- ?app_assoc; reflexivity.
Qed.

(** C2, as amended: after the conflict check and the commit of pending
    changes, [initCommit] lists the remote refs and then makes exactly one
    more call on the repository: a pull of [master] with
    [--allow-unrelated-histories] when the listing mentions
    [refs/heads/master], a push to [master] when it does not. *)
Theorem initCommit_pulls_or_pushes s s1 :
  (checkConflicted env ;; checkNotCommitted env) s = (Ret tt, s1) ->
  let h := trace s1 ++ [GitListRemote ["--refs"]] in
  rejects env h = None ->
  git_calls (trace (initCommit env s).2)
  = git_calls (trace s1)
    ++ [GitListRemote ["--refs"];
        if Js.includes "refs/heads/master" (git_listRemote env h)
        then GitPull "origin" "master" ALLOW_UNRELATED
        else GitPush "origin" "master"].
Proof.
  intros Hfirst h Hlist.
  unfold initCommit.
  change (checkConflicted env;; checkNotCommitted env;; ?k)
    with (bind (checkConflicted env) (fun _ => bind (checkNotCommitted env) (fun _ => k))).
  rewrite <- (bind_assoc (checkConflicted env) (fun _ => checkNotCommitted env)).
  unfold bind at 1. rewrite Hfirst.
  unfold checkRemoteMaster, call, emit, history, extend, bind, log, ret;
    cbn -[pullRemoteRepo pushRemoteRepo].
  fold h. rewrite Hlist; cbn -[pullRemoteRepo pushRemoteRepo].
  destruct (Js.includes "refs/heads/master" (git_listRemote env h)).
  - rewrite pullRemoteRepo_git_calls; cbn. subst h.
    rewrite !git_calls_app; cbn. rewrite ?app_nil_r, <- ?app_assoc. reflexivity.
  - rewrite pushRemoteRepo_git_calls; cbn. subst h.
    rewrite !git_calls_app; cbn. rewrite ?app_nil_r, <- ?app_assoc. reflexivity.
Qed.

End Init.

(** C2 as written fails: the remote already has a [master] branch, nothing
    goes wrong, and [initCommit] pulls it without pushing anything. *)
Lemma initCommit_pulls_without_pushing :
  let listing := "5f2c9a" +:+ Sample.tab +:+ "refs/heads/master" in
  let env := Sample.with_git (fun _ => None) (fun _ => Sample.clean) listing in
  let r := initCommit env (Sample.prepared "1.0.0" []) in
  Js.includes "refs/heads/master" listing = true
  /\ r.1 = Ret tt
  /\ git_calls (trace r.2)
     = [GitStatus; GitStatus; GitListRemote ["--refs"];
        GitPull "origin" "master" ALLOW_UNRELATED]
  /\ ~ In (GitPush "origin" "master") (trace r.2).
Proof.
  vm_compute. repeat split.
  intros H. repeat (destruct H as [H | H]; [discriminate H |]). exact H.
Qed.

Lemma initCommit_pulls_or_pushes_witness :
  let env := Sample.quiet in
  let s := Sample.prepared "1.0.0" [] in
  git_calls (trace (initCommit env s).2)
  = [GitStatus; GitStatus; GitListRemote ["--refs"]; GitPush "origin" "master"].
Proof.
  intros env s.
  exact (initCommit_pulls_or_pushes env s
           ((checkConflicted env ;; checkNotCommitted env) s).2 eq_refl eq_refl).
Defined.

(** ** Remote-ref scanning: [getRemoteBranchList] *)

Section Scanning.

Variable env : Env.

Lemma append_cons x (a b : string) : String x a +:+ b = String x (a +:+ b).
Proof. reflexivity. Qed.

Lemma append_assoc (a b c : string) : (a +:+ b) +:+ c = a +:+ (b +:+ c).
Proof.
  induction a as [|x a IH]; [reflexivity |].
  now rewrite !append_cons, IH.
Qed.

Lemma literal_prefix lit s r : Regex.literal lit s = Some r -> s = lit +:+ r.
Proof.
  revert s. induction lit as [|a lit IH]; intros s H.
  - injection H as ->. reflexivity.
  - destruct s as [|b s]; [discriminate |]. cbn in H.
    destruct (Ascii.eqb_spec a b) as [-> |]; [| discriminate].
    now rewrite append_cons, <- (IH _ H).
Qed.

Lemma digits_prefix s : s = (Regex.digits s).1 +:+ (Regex.digits s).2.
Proof.
  induction s as [|c s IH]; cbn; [reflexivity |].
  destruct (Regex.is_digit c); [| reflexivity].
  destruct (Regex.digits s) as [d r]; cbn in *.
  now rewrite append_cons, <- IH.
Qed.

Lemma dot_prefix s r : Regex.dot s = Some r -> s = "." +:+ r.
Proof.
  destruct s as [|c s]; cbn; [discriminate |].
  destruct (Ascii.eqb_spec c "."%char) as [-> |]; [| discriminate].
  intros [= ->]. reflexivity.
Qed.

Lemma version_at_prefix s cap :
  Regex.version_at s = Some cap -> exists post, s = cap +:+ post.
Proof.
  unfold Regex.version_at.
  pose proof (digits_prefix s) as H1.
  destruct (Regex.digits s) as [d1 r1]; cbn in H1.
  destruct d1 as [|c1 d1]; [discriminate |].
  destruct (Regex.dot r1) as [r1' |] eqn:Hdot1; [| discriminate].
  pose proof (digits_prefix r1') as H2.
  destruct (Regex.digits r1') as [d2 r2]; cbn in H2.
  destruct d2 as [|c2 d2]; [discriminate |].
  destruct (Regex.dot r2) as [r2' |] eqn:Hdot2; [| discriminate].
  pose proof (digits_prefix r2') as H3.
  destruct (Regex.digits r2') as [d3 r3]; cbn in H3.
  destruct d3 as [|c3 d3]; [discriminate |].
  intros [= <-]. exists r3.
  rewrite H1, (dot_prefix _ _ Hdot1), H2, (dot_prefix _ _ Hdot2), H3.
  now rewrite !append_assoc.
Qed.

Lemma tail_at_mentions lit s cap n :
  Regex.tail_at lit s = Some (cap, n) -> exists post, s = lit +:+ cap +:+ post.
Proof.
  unfold Regex.tail_at.
  destruct (Regex.literal lit s) as [r |] eqn:Hlit; [| discriminate].
  destruct (Regex.version_at r) as [cap' |] eqn:Hver; [| discriminate].
  intros [= <- _]. destruct (version_at_prefix _ _ Hver) as [post ->].
  exists post. exact (literal_prefix _ _ _ Hlit).
Qed.

Lemma match_at_mentions lit s cap n :
  Regex.match_at lit s = Some (cap, n) -> mentions (lit +:+ cap) s.
Proof.
  revert n. induction s as [|c s IH]; intros n; cbn; [discriminate |].
  destruct (Regex.line_terminator c); [discriminate |].
  destruct (Regex.tail_at lit s) as [[cap' n'] |] eqn:Htail.
  - intros [= <- _]. destruct (tail_at_mentions _ _ _ _ Htail) as [post ->].
    exists (String c EmptyString), post. cbn. now rewrite append_assoc.
  - destruct (Regex.match_at lit s) as [[cap' n'] |]; [| discriminate].
    intros [= <- _]. destruct (IH _ eq_refl) as (pre & post & ->).
    exists (String c pre), post. reflexivity.
Qed.

Lemma search_unfold lit s pos :
  Regex.search lit s pos
  = match Regex.match_at lit s with
    | Some (cap, n) => Some (cap, pos + n)
    | None =>
        match s with
        | EmptyString => None
        | String _ s' => Regex.search lit s' (S pos)
        end
    end.
Proof. destruct s; reflexivity. Qed.

Lemma search_mentions lit s pos cap e :
  Regex.search lit s pos = Some (cap, e) -> mentions (lit +:+ cap) s.
Proof.
  revert pos. induction s as [|c s IH]; intros pos; rewrite search_unfold.
  - cbn. discriminate.
  - destruct (Regex.match_at lit (String c s)) as [[cap' n'] |] eqn:Hm.
    + intros [= <- _]. exact (match_at_mentions _ _ _ _ Hm).
    + intros H. destruct (IH _ H) as (pre & post & ->).
      exists (String c pre), post. reflexivity.
Qed.

Lemma skip_suffix n s : exists pre, s = pre +:+ Regex.skip n s.
Proof.
  revert s. induction n as [|n IH]; intros s; cbn.
  - now exists "".
  - destruct s as [|c s]; [now exists "" |].
    destruct (IH s) as [pre H]. exists (String c pre).
    now rewrite append_cons, <- H.
Qed.

Lemma exec_mentions lit i s cap e :
  Regex.exec lit i s = (Some cap, e) -> mentions (lit +:+ cap) s.
Proof.
  unfold Regex.exec. destruct (_ <? _)%nat; [discriminate |].
  destruct (Regex.search lit (Regex.skip i s) i) as [[cap' e'] |] eqn:Hs;
    [| discriminate].
  intros [= <- _]. destruct (search_mentions _ _ _ _ _ Hs) as (pre & post & H).
  destruct (skip_suffix i s) as [pre0 H0].
  exists (pre0 +:+ pre), post. rewrite H0 at 1. rewrite H.
  now rewrite !append_assoc.
Qed.

Lemma scan_lines_sound lit i lines v :
  In (Some v) (scan_lines env lit i lines) ->
  semver_valid env v = true
  /\ exists line, In line lines /\ mentions (lit +:+ v) line.
Proof.
  revert i. induction lines as [|line lines IH]; intros i; cbn; [tauto |].
  destruct (Regex.exec lit i line) as [[cap |] i'] eqn:Hexec; cbn.
  - intros [Hhead | Htail].
    + destruct (semver_valid env cap) eqn:Hvalid; [| discriminate].
      injection Hhead as <-. split; [assumption |].
      exists line. split; [now left | exact (exec_mentions _ _ _ _ _ Hexec)].
    + destruct (IH _ Htail) as (Hv & l & Hl & Hm). eauto 6.
  - intros [Hhead | Htail]; [discriminate |].
    destruct (IH _ Htail) as (Hv & l & Hl & Hm). eauto 6.
Qed.

Lemma keep_truthy_In v l : In v (keep_truthy l) -> In (Some v) l.
Proof.
  induction l as [|[s |] l IH]; cbn; [tauto | | tauto].
  destruct (Js.truthy s); cbn; [| tauto].
  intros [-> | H]; [now left | right; auto].
Qed.

(** Whatever [getRemoteBranchList] returns is a version the package accepts,
    taken from a line of the listing that names it under the channel. *)
Lemma branchList_sound type listing v :
  In v (branchList env type listing) ->
  semver_valid env v = true
  /\ exists line, In line (Js.split_lines listing)
                  /\ mentions (branch_literal type +:+ v) line.
Proof.
  intros H. apply keep_truthy_In in H. exact (scan_lines_sound _ _ _ _ H).
Qed.

End Scanning.

(** The listing of the spec's example: of [dev/1.0.0] and [dev/x.y.z] only
    [1.0.0] comes out. *)
Example getRemoteBranchList_discards_malformed :
  branchList Sample.quiet None one_good_one_bad = ["1.0.0"].
Proof. vm_compute. reflexivity. Qed.

(** C6 fails on the code: two well-formed heads of the [dev] channel on
    consecutive lines of the listing, and only the first comes out.  The
    expression keeps its [lastIndex] from the first line, so the search in
    the second line starts at its very end. *)
Theorem getRemoteBranchList_skips_next_line :
  let env := Sample.with_git (fun _ => None) (fun _ => Sample.clean) two_dev_heads in
  Semver.valid "1.0.0" = true
  /\ Semver.valid "1.1.0" = true
  /\ Regex.exec "refs/heads/dev/" 0
       ("9d4c2f7a1e6b5d3c8f0a2b4c6d8e0f1a3b5c7d9e" +:+ Sample.tab +:+ "refs/heads/dev/1.1.0")
     = (Some "1.1.0", 61)
  /\ Regex.exec "refs/heads/dev/" 61
       ("9d4c2f7a1e6b5d3c8f0a2b4c6d8e0f1a3b5c7d9e" +:+ Sample.tab +:+ "refs/heads/dev/1.1.0")
     = (None, 0)
  /\ (getRemoteBranchList env None (Sample.fresh "1.1.0" [])).1 = Ret ["1.0.0"].
Proof. vm_compute. repeat split. Qed.

(** ** Relations a computation respects *)

Section Respects.

Variable R : State -> State -> Prop.
Hypothesis Hrefl : forall s, R s s.
Hypothesis Htrans : forall s1 s2 s3, R s1 s2 -> R s2 s3 -> R s1 s3.
Hypothesis Htime : passes_time R.

Lemma respects_bind {A B} (m : M A) (k : A -> M B) :
  respects R m -> (forall a, respects R (k a)) -> respects R (bind m k).
Proof.
  intros Hm Hk s. unfold bind. specialize (Hm s).
  destruct (m s) as [[a | e | c |] s1]; cbn in *; try assumption.
  eapply Htrans; [exact Hm | apply Hk].
Qed.

Lemma respects_catch {A} (m : M A) (handler : Exn -> M A) :
  respects R m -> (forall e, respects R (handler e)) -> respects R (catch m handler).
Proof.
  intros Hm Hh s. unfold catch. specialize (Hm s).
  destruct (m s) as [[a | e | c |] s1]; cbn in *; try assumption.
  eapply Htrans; [exact Hm | apply Hh].
Qed.

Lemma respects_emit e : respects R (emit e).
Proof. intros s. apply Htime. Qed.

Lemma respects_finally {A} (m : M A) :
  respects R m -> respects R (finally m (emit SpinnerStop)).
Proof.
  intros Hm s. unfold finally. specialize (Hm s).
  destruct (m s) as [[a | e | c |] s1]; cbn in *; try assumption;
    (eapply Htrans; [exact Hm | apply Htime]).
Qed.

Lemma respects_inquirer type message choices :
  respects R (inquirer type message choices).
Proof.
  intros s. unfold inquirer, bind, emit, extend; cbn.
  destruct (answers s); cbn; apply Htime.
Qed.

Lemma respects_loop : respects R commit_message_loop.
Proof.
  intros s. unfold commit_message_loop.
  destruct (ask_commit_message (answers s) []) as [[o rest] shown].
  apply Htime.
Qed.

Lemma respects_pure {A} (m : M A) : (forall s, (m s).2 = s) -> respects R m.
Proof. intros H s. rewrite H. apply Hrefl. Qed.

End Respects.

Lemma same_refl {X} (view : State -> X) s : same view s s.
Proof. reflexivity. Qed.

Lemma same_trans {X} (view : State -> X) s1 s2 s3 :
  same view s1 s2 -> same view s2 s3 -> same view s1 s3.
Proof. unfold same. congruence. Qed.

Lemma later_refl s : later s s.
Proof. exists []. now rewrite app_nil_r. Qed.

Lemma later_trans s1 s2 s3 : later s1 s2 -> later s2 s3 -> later s1 s3.
Proof.
  intros [e1 H1] [e2 H2]. exists (e1 ++ e2). rewrite H2, H1. symmetry. apply app_assoc.
Qed.

Lemma later_time : passes_time later.
Proof. intros s a evs. now exists evs. Qed.

(** Decompose a computation along its binds; [leaf] closes what is left of
    the primitive state functions. *)
Ltac respect Hrefl Htrans Htime leaf :=
  repeat first
    [ assumption
    | apply (respects_inquirer _ Htime)
    | apply (respects_loop _ Htime)
    | apply (respects_emit _ Htime)
    | apply (respects_finally _ Htrans Htime)
    | apply (respects_catch _ Htrans); [| intros ?]
    | apply (respects_bind _ Htrans); [| intros ?]
    | apply (respects_pure _ Hrefl); intros ?; reflexivity
    | match goal with
      | |- respects _ (match ?x with _ => _ end) => destruct x
      end
    | (intros ?; leaf) ].

Ltac unfold_primitives :=
  unfold call_, call, log, writeFile, readFile, existsSync, ensureDirSync,
    the_gitServer, the_orgs, createPath, ret, throw, process_exit, get_self,
    history, update_self.

(** [keeps view]: the computation leaves [view] as it was.  The view must
    not look at the history or the answers. *)
Ltac keeps view :=
  unfold_primitives;
  let Htime := fresh "Htime" in
  assert (Htime : passes_time (same view)) by (intros ? ? ?; reflexivity);
  respect (same_refl view) (same_trans view) Htime ltac:(reflexivity).

Ltac grows :=
  unfold_primitives;
  respect later_refl later_trans later_time
    ltac:(exists []; cbn; now rewrite app_nil_r).

(** ** The steps of [commit] leave the object alone *)

Section Untouched.

Variable env : Env.

Lemma keeps_self_checkStash : respects (same self) (checkStash env).
Proof. unfold checkStash. keeps self. Qed.

Lemma keeps_self_checkConflicted : respects (same self) (checkConflicted env).
Proof. unfold checkConflicted. keeps self. Qed.

Lemma keeps_self_checkNotCommitted : respects (same self) (checkNotCommitted env).
Proof. unfold checkNotCommitted. keeps self. Qed.

Lemma keeps_self_checkoutBranch : respects (same self) (checkoutBranch env).
Proof. unfold checkoutBranch. keeps self. Qed.

Lemma keeps_self_pullRemoteRepo b opts : respects (same self) (pullRemoteRepo env b opts).
Proof. unfold pullRemoteRepo. keeps self. Qed.

Lemma keeps_self_pushRemoteRepo b : respects (same self) (pushRemoteRepo env b).
Proof. unfold pushRemoteRepo. keeps self. Qed.

Lemma keeps_self_getRemoteBranchList type :
  respects (same self) (getRemoteBranchList env type).
Proof. unfold getRemoteBranchList. keeps self. Qed.

Lemma keeps_self_pullRemoteMasterAndBranch :
  respects (same self) (pullRemoteMasterAndBranch env).
Proof.
  unfold pullRemoteMasterAndBranch.
  pose proof keeps_self_pullRemoteRepo. pose proof keeps_self_checkConflicted.
  pose proof keeps_self_getRemoteBranchList. keeps self.
Qed.

End Untouched.

(** ** The order of [commit] *)

Section Order.

Variable env : Env.

Lemma advances_trans s1 s2 s3 c1 c2 :
  advances s1 s2 c1 -> advances s2 s3 c2 -> advances s1 s3 (c1 ++ c2).
Proof.
  intros (Hself1 & e1 & Ht1 & Hc1) (Hself2 & e2 & Ht2 & Hc2). split.
  - congruence.
  - exists (e1 ++ e2). split.
    + rewrite Ht2, Ht1. symmetry. apply app_assoc.
    + rewrite git_calls_app. congruence.
Qed.


Ltac advanced :=
  split; [reflexivity |];
  eexists; split;
  [cbn; rewrite <- ?app_assoc; cbn; reflexivity | reflexivity].

Lemma checkStash_ret s s' :
  checkStash env s = (Ret tt, s') ->
  exists stash, (stash = [] \/ stash = [GitStash ["pop"]])
                /\ advances s s' (GitStashList :: stash).
Proof.
  intros H. unfold checkStash in H. run_in H; injection H as <-.
  - exists []. split; [now left | advanced].
  - exists [GitStash ["pop"]]. split; [now right | advanced].
Qed.

Lemma checkConflicted_ret s s' :
  checkConflicted env s = (Ret tt, s') -> advances s s' [GitStatus].
Proof.
  intros H. unfold checkConflicted in H. run_in H; injection H as <-. advanced.
Qed.

Lemma ask_commit_message_ret pending shown m rest shown' :
  ask_commit_message pending shown = (Ret m, rest, shown') ->
  m <> "" /\ exists k, shown' = shown ++ repeat COMMIT_PROMPT k.
Proof.
  revert shown. induction pending as [|a pending IH]; intros shown; cbn.
  - discriminate.
  - destruct (Js.truthy a) eqn:Ha.
    + intros [= <- _ <-]. split; [now destruct a | now exists 1].
    + intros H. destruct (IH _ H) as (Hm & k & ->). split; [assumption |].
      exists (S k). now rewrite <- app_assoc.
Qed.

Lemma git_calls_prompts k : git_calls (repeat COMMIT_PROMPT k) = [].
Proof. induction k; [reflexivity | assumption]. Qed.

Lemma checkNotCommitted_ret s s' :
  checkNotCommitted env s = (Ret tt, s') ->
  exists staged,
    (staged = []
     \/ exists st m, m <> "" /\ ~ nothing_pending st /\ staged = staging st m)
    /\ advances s s' (GitStatus :: staged).
Proof.
  intros H. unfold checkNotCommitted, commit_message_loop in H.
  run_in H; injection H as <-.
  - match goal with
    | Hask : ask_commit_message _ _ = (Ret ?m, _, _), Hp : any_pending ?st = true |- _ =>
        apply ask_commit_message_ret in Hask; destruct Hask as (Hm & k & ->);
        exists (staging st m); split;
        [right; exists st, m; repeat split; [exact Hm |];
         intros Hc; apply any_pending_false in Hc; congruence |];
        split; [reflexivity |]; eexists; split;
        [cbn; rewrite <- !app_assoc; cbn; reflexivity |];
        unfold git_calls, staging; cbn; do 6 f_equal;
        fold (git_calls (repeat COMMIT_PROMPT k
                         ++ [GitCommit m; Log success "本地 commit 提交成功"]));
        rewrite git_calls_app, git_calls_prompts; reflexivity
    end.
  - exists []. split; [now left | advanced].
Qed.

Lemma checkoutBranch_ret s s' :
  checkoutBranch env s = (Ret tt, s') ->
  let b := Js.show (branch (self s)) in
  exists checkout,
    (checkout = GitCheckout b \/ checkout = GitCheckoutLocalBranch b)
    /\ advances s s' [GitBranchLocal; checkout].
Proof.
  intros H. unfold checkoutBranch in H. run_in H; injection H as <-.
  - eexists. split; [left; reflexivity | advanced].
  - eexists. split; [right; reflexivity | advanced].
Qed.

Lemma pullRemoteRepo_ret s s' b opts :
  pullRemoteRepo env b opts s = (Ret tt, s') ->
  advances s s' [GitPull "origin" b opts].
Proof.
  intros H.
  destruct (rejects env (pulling s b opts)) as [msg |] eqn:Hrej.
  - rewrite (pullRemoteRepo_rejected _ _ _ _ _ Hrej) in H; cbn zeta in H.
    destruct (Js.includes SSH_SIGNATURE msg);
      [destruct (gitServer (self s)) |
       destruct (Js.includes (MISSING_REF +:+ b) msg)]; discriminate.
  - rewrite (pullRemoteRepo_resolved _ _ _ _ Hrej) in H.
    injection H as <-. advanced.
Qed.

Lemma pushRemoteRepo_ret s s' b :
  pushRemoteRepo env b s = (Ret tt, s') -> advances s s' [GitPush "origin" b].
Proof.
  intros H. unfold pushRemoteRepo in H. run_in H; injection H as <-. advanced.
Qed.

Lemma getRemoteBranchList_ret type s s' l :
  getRemoteBranchList env type s = (Ret l, s') ->
  advances s s' [GitListRemote ["--refs"]]
  /\ exists h, l = branchList env type (git_listRemote env h).
Proof.
  intros H. unfold getRemoteBranchList in H. run_in H.
  injection H as <- <-. split; [advanced | eauto].
Qed.

Lemma getCorrectVersion_ret type s s' :
  getCorrectVersion env type s = (Ret tt, s') ->
  self s' = set_branch (Some (Js.or_else type VERSION_DEVELOP +:+ "/" +:+ version (self s)))
              (self s)
  /\ exists evs, trace s' = trace s ++ evs
                 /\ git_calls evs = [GitListRemote ["--refs"]].
Proof.
  intros H.
  destruct (rejects env (listing_refs s)) as [msg |] eqn:Hrej.
  - unfold getCorrectVersion, getRemoteBranchList in H. run_in H.
    unfold listing_refs in Hrej. rewrite <- app_assoc in *. cbn in *. congruence.
  - rewrite (getCorrectVersion_resolved _ _ _ Hrej) in H. injection H as <-.
    split; [reflexivity |]. eexists; split; reflexivity.
Qed.

Lemma log_ret lvl msg s s' :
  log lvl msg s = (Ret tt, s') -> advances s s' [].
Proof. intros [= <-]. advanced. Qed.

Lemma get_self_ret s g s' : get_self s = (Ret g, s') -> g = self s /\ s' = s.
Proof. intros [= <- <-]. split; reflexivity. Qed.

Ltac steps :=
  repeat match goal with
         | H : get_self _ = (Ret _, _) |- _ => apply get_self_ret in H as [-> ->]
         | H : log _ _ _ = (Ret _, _) |- _ => apply log_ret in H
         | H : pullRemoteRepo _ _ _ _ = (Ret _, _) |- _ => apply pullRemoteRepo_ret in H
         | H : pushRemoteRepo _ _ _ = (Ret _, _) |- _ => apply pushRemoteRepo_ret in H
         | H : checkConflicted _ _ = (Ret _, _) |- _ => apply checkConflicted_ret in H
         end.

Ltac chain :=
  repeat match goal with
         | H1 : advances ?a ?b _, H2 : advances ?b ?c _ |- _ =>
             let H := fresh "Hadv" in
             pose proof (advances_trans _ _ _ _ _ H1 H2) as H; clear H1 H2;
             cbn [app] in H
         end.

Lemma pullRemoteMasterAndBranch_ret s s' :
  pullRemoteMasterAndBranch env s = (Ret tt, s') ->
  let b := Js.show (branch (self s)) in
  exists sync,
    (sync = []
     \/ sync = [GitPull "origin" b []; GitStatus]
        /\ exists h, Js.array_includes (version (self s))
                       (branchList env None (git_listRemote env h)) = true)
    /\ advances s s' ([GitPull "origin" "master" []; GitStatus;
                       GitListRemote ["--refs"]] ++ sync).
Proof.
  intros H b. unfold pullRemoteMasterAndBranch in H.
  do 7 (apply bind_ret_inv in H;
        let a := fresh "a" in
        let s := fresh "s" in
        let Hstep := fresh "Hstep" in
        destruct H as (a & s & Hstep & H); cbn beta in H;
        try match type of a with unit => destruct a end).
  match goal with
  | Hl : getRemoteBranchList _ _ _ = _ |- _ =>
      apply getRemoteBranchList_ret in Hl as [Hlist [h ->]]
  end.
  steps.
  destruct (Js.array_includes _ _) eqn:Hin.
  - exists [GitPull "origin" b []; GitStatus]. split; [right; eauto |].
    unbind H. steps. chain. assumption.
  - exists []. split; [now left |].
    steps. chain. assumption.
Qed.

Lemma array_includes_In x l : Js.array_includes x l = true -> In x l.
Proof.
  unfold Js.array_includes. rewrite existsb_exists.
  intros (y & Hy & Heq). apply String.eqb_eq in Heq. now subst.
Qed.

Lemma includes_dev_head v h :
  Js.array_includes v (branchList env None (git_listRemote env h)) = true ->
  remote_has_dev_head (git_listRemote env h) v.
Proof.
  intros H. apply array_includes_In in H.
  exact (proj2 (branchList_sound env None _ _ H)).
Qed.

(** What a complete run of [commit] has done. *)
Lemma commit_ret s s' :
  commit env s = (Ret tt, s') ->
  let v := version (self s) in
  let b := "dev/" +:+ v in
  self s' = set_branch (Some b) (self s)
  /\ exists stash staged checkout sync evs,
      trace s' = trace s ++ evs
      /\ git_calls evs = commit_calls b stash staged checkout sync
      /\ (stash = [] \/ stash = [GitStash ["pop"]])
      /\ (staged = []
          \/ exists st m, m <> "" /\ ~ nothing_pending st /\ staged = staging st m)
      /\ (checkout = GitCheckout b \/ checkout = GitCheckoutLocalBranch b)
      /\ (sync = []
          \/ sync = [GitPull "origin" b []; GitStatus]
             /\ exists h, Js.array_includes v
                            (branchList env None (git_listRemote env h)) = true).
Proof.
  intros H v b. unfold commit in H. unbind H.
  match goal with
  | Hv : getCorrectVersion _ _ _ = (_, ?t) |- _ =>
      apply getCorrectVersion_ret in Hv as (Hself & evs0 & Htrace0 & Hcalls0);
      rename t into sv
  end.
  match goal with
  | Hx : checkStash _ _ = _ |- _ =>
      apply checkStash_ret in Hx as (stash & Hstash & Hadv)
  end.
  match goal with
  | Hx : checkConflicted _ _ = _ |- _ =>
      apply checkConflicted_ret in Hx;
      pose proof (advances_trans _ _ _ _ _ Hadv Hx) as Hadv1; clear Hadv Hx
  end.
  match goal with
  | Hx : checkNotCommitted _ _ = _ |- _ =>
      apply checkNotCommitted_ret in Hx as (staged & Hstaged & Hx);
      pose proof (advances_trans _ _ _ _ _ Hadv1 Hx) as Hadv2; clear Hadv1 Hx
  end.
  match goal with
  | Hx : checkoutBranch _ _ = _ |- _ =>
      apply checkoutBranch_ret in Hx as (checkout & Hcheckout & Hx);
      rewrite (proj1 Hadv2) in Hcheckout;
      pose proof (advances_trans _ _ _ _ _ Hadv2 Hx) as Hadv3; clear Hadv2 Hx
  end.
  match goal with
  | Hx : pullRemoteMasterAndBranch _ _ = _ |- _ =>
      apply pullRemoteMasterAndBranch_ret in Hx as (sync & Hsync & Hx);
      rewrite (proj1 Hadv3) in Hsync;
      pose proof (advances_trans _ _ _ _ _ Hadv3 Hx) as Hadv4; clear Hadv3 Hx
  end.
  match goal with
  | Hx : get_self _ = _ |- _ => apply get_self_ret in Hx as [-> ->]
  end.
  apply pushRemoteRepo_ret in H. rewrite (proj1 Hadv4) in H.
  pose proof (advances_trans _ _ _ _ _ Hadv4 H) as (Hself' & evs & Htrace & Hcalls).
  clear Hadv4 H.
  rewrite Hself in Hcheckout, Hsync, Hcalls. cbn in Hcheckout, Hsync, Hcalls.
  split; [rewrite Hself', Hself; reflexivity |].
  exists stash, staged, checkout, sync, (evs0 ++ evs). split; [| split].
  - rewrite Htrace, Htrace0. symmetry. apply app_assoc.
  - rewrite git_calls_app, Hcalls0, Hcalls. unfold commit_calls.
    cbn. rewrite <- !app_assoc. reflexivity.
  - auto.
Qed.

(** *** Every run moves along the phases *)

Section Phases.

Variables b v : string.

Lemma walk_app h p evs evs' :
  walk env b v h p (evs ++ evs')
  = match walk env b v h p evs with
    | Some q => walk env b v (h ++ evs) q evs'
    | None => None
    end.
Proof.
  revert h p. induction evs as [|e evs IH]; intros h p; cbn.
  - now rewrite app_nil_r.
  - destruct (is_git_call e).
    + destruct (next env b v (h ++ [e]) p e); [| reflexivity].
      rewrite IH, <- app_assoc. reflexivity.
    + rewrite IH, <- app_assoc. reflexivity.
Qed.

Lemma walk_quiet h p evs :
  git_calls evs = [] -> walk env b v h p evs = Some p.
Proof.
  revert h. induction evs as [|e evs IH]; intros h; cbn; [reflexivity |].
  unfold git_calls; cbn. destruct (is_git_call e); [discriminate |]. apply IH.
Qed.

Lemma follows_bind {A B} g P (m : M A) Q (k : A -> M B) R :
  follows env b v g P m Q ->
  (forall a, follows env b v g (Q a) (k a) R) ->
  follows env b v g P (bind m k) R.
Proof.
  intros Hm Hk s p Hself Hp.
  destruct (Hm s p Hself Hp) as (Hself1 & new1 & p1 & Ht1 & Hr1 & Hq).
  unfold bind. destruct (m s) as [[a | e | c |] s1]; cbn in *;
    try (split; [assumption |]; exists new1, p1;
         split; [assumption |]; split; [assumption | discriminate]).
  destruct (Hk a s1 p1 Hself1 (Hq a eq_refl)) as (Hself2 & new2 & p2 & Ht2 & Hr2 & Hx).
  split; [assumption |]. exists (new1 ++ new2), p2. split; [| split].
  - rewrite Ht2, Ht1. symmetry. apply app_assoc.
  - rewrite walk_app, Hr1, <- Ht1. exact Hr2.
  - exact Hx.
Qed.

Lemma follows_weaken {A} g (P P' : Phase -> Prop) (m : M A) (Q Q' : A -> Phase -> Prop) :
  follows env b v g P' m Q' ->
  (forall p, P p -> P' p) ->
  (forall a p, Q' a p -> Q a p) ->
  follows env b v g P m Q.
Proof.
  intros Hm HP HQ s p Hself Hp.
  destruct (Hm s p Hself (HP p Hp)) as (Hself1 & new & p' & Ht & Hr & Hq).
  split; [assumption |]. exists new, p'. repeat split; auto.
Qed.

(** What is known of the phase on entry may be taken apart. *)
Lemma follows_given {A X} g (P : X -> Phase -> Prop) (m : M A) Q :
  (forall x, follows env b v g (P x) m Q) ->
  follows env b v g (fun p => exists x, P x p) m Q.
Proof. intros H s p Hself [x Hp]. exact (H x s p Hself Hp). Qed.

Lemma follows_assume {A} g (fact : Prop) (P : Phase -> Prop) (m : M A) Q :
  (fact -> follows env b v g P m Q) ->
  follows env b v g (fun p => fact /\ P p) m Q.
Proof. intros H s p Hself [Hfact Hp]. exact (H Hfact s p Hself Hp). Qed.

Lemma follows_log g (P : Phase -> Prop) (Q : unit -> Phase -> Prop) lvl msg :
  (forall p, P p -> Q tt p) ->
  follows env b v g P (log lvl msg) Q.
Proof.
  intros HQ s p Hself Hp. cbn. split; [assumption |].
  exists [Log lvl msg], p. repeat split. intros [] _. auto.
Qed.

Lemma follows_log_same g (P : Phase -> Prop) lvl msg :
  follows env b v g P (log lvl msg) (fun _ p => P p).
Proof. apply follows_log. auto. Qed.

Lemma follows_get g (P : Phase -> Prop) :
  follows env b v g P get_self (fun a p => a = g /\ P p).
Proof.
  intros s p Hself Hp. cbn. split; [assumption |].
  exists [], p. split; [now rewrite app_nil_r |]. split; [reflexivity |].
  intros a [= <-]. split; assumption.
Qed.

Lemma follows_ret {A} g (P : Phase -> Prop) (Q : A -> Phase -> Prop) (a : A) :
  (forall p, P p -> Q a p) ->
  follows env b v g P (ret a) Q.
Proof.
  intros HQ s p Hself Hp. cbn. split; [assumption |].
  exists [], p. split; [now rewrite app_nil_r |]. split; [reflexivity |].
  intros a' [= <-]. auto.
Qed.

Lemma follows_throw {A} g (P : Phase -> Prop) e (Q : A -> Phase -> Prop) :
  follows env b v g P (throw e) Q.
Proof.
  intros s p Hself Hp. cbn. split; [assumption |].
  exists [], p. split; [now rewrite app_nil_r |]. split; [reflexivity | discriminate].
Qed.

(** A call that is a move of the machine: the phase it leads to may keep
    what the call was answered. *)
Lemma follows_call {A} g (P : Phase -> Prop) e (reply : list Event -> A)
    (q : A -> Phase) :
  is_git_call e = true ->
  (forall h p, P p -> next env b v h p e = Some (q (reply h))) ->
  follows env b v g P (call env e reply) (fun a p' => p' = q a).
Proof.
  intros He Hnext s p Hself Hp.
  unfold call, bind, emit, history, extend; cbn.
  assert (Hrun : walk env b v (trace s) p [e] = Some (q (reply (trace s ++ [e])))).
  { cbn. rewrite He. now rewrite (Hnext _ p Hp). }
  destruct (rejects env (trace s ++ [e])); cbn;
    (split; [assumption |]; eexists [e], _; split; [reflexivity |];
     split; [exact Hrun |]).
  - discriminate.
  - now intros a [= <-].
Qed.

Lemma ask_commit_message_shows pending shown :
  exists k, (ask_commit_message pending shown).2 = shown ++ repeat COMMIT_PROMPT k.
Proof.
  revert shown. induction pending as [|a pending IH]; intros shown; cbn.
  - now exists 1.
  - destruct (Js.truthy a); cbn; [now exists 1 |].
    destruct (IH (shown ++ [Prompt PText "请输入 commit 信息：" []])) as [k Hk].
    exists (S k). rewrite Hk, <- app_assoc. reflexivity.
Qed.

Lemma follows_loop g (P : Phase -> Prop) :
  follows env b v g P commit_message_loop (fun m p => P p /\ Js.truthy m = true).
Proof.
  intros s p Hself Hp. unfold commit_message_loop.
  destruct (ask_commit_message_shows (answers s) []) as [k Hk].
  destruct (ask_commit_message (answers s) []) as [[o rest] shown] eqn:Hask.
  cbn in *. subst shown. split; [assumption |].
  exists (repeat COMMIT_PROMPT k), p. split; [reflexivity |].
  rewrite (walk_quiet _ _ _ (git_calls_prompts k)). split; [reflexivity |].
  intros m ->. split; [assumption |].
  apply ask_commit_message_ret in Hask as [Hm _]. now destruct m.
Qed.

Lemma follows_pullRemoteRepo g (P : Phase -> Prop) br opts q :
  (forall h p, P p -> next env b v h p (GitPull "origin" br opts) = Some q) ->
  follows env b v g P (pullRemoteRepo env br opts) (fun _ p' => p' = q).
Proof.
  intros Hnext s p Hself Hp.
  assert (Hrun : forall tail, git_calls tail = [] ->
            walk env b v (trace s) p
              ([Log notice ("同步远程 " +:+ br +:+ " 分支代码");
                GitPull "origin" br opts] ++ tail) = Some q).
  { intros tail Htail. cbn. rewrite (Hnext _ p Hp). now apply walk_quiet. }
  split; [rewrite (keeps_self_pullRemoteRepo env br opts s); exact Hself |].
  destruct (rejects env (pulling s br opts)) as [msg |] eqn:Hrej.
  - rewrite (pullRemoteRepo_rejected _ _ _ _ _ Hrej); cbn zeta.
    destruct (Js.includes SSH_SIGNATURE msg);
      [destruct (gitServer (self s)) |
       destruct (Js.includes (MISSING_REF +:+ br) msg)]; cbn;
      eexists _, q; (split; [rewrite <- ?app_assoc; reflexivity |]);
      (split; [first [apply (Hrun [_]) | apply (Hrun [])]; reflexivity
              | discriminate]).
  - rewrite (pullRemoteRepo_resolved _ _ _ _ Hrej); cbn.
    eexists _, q. split; [reflexivity |]. split; [apply (Hrun []); reflexivity | auto].
Qed.

Section Moves.

Variable g : Git.
Hypothesis Hbranch : branch g = Some b.
Hypothesis Hversion : version g = v.

Ltac pass := (eapply follows_bind; [apply follows_log_same |]; intros ?).

(** The phase on entry, once it is known. *)
Ltac entered :=
  let h := fresh "h" in
  let p := fresh "p" in
  let Hp := fresh "Hp" in
  intros h p Hp; cbn beta in Hp;
  repeat match type of Hp with
         | _ \/ _ => destruct Hp as [Hp | Hp]
         | exists _, _ => destruct Hp as [? Hp]
         | _ /\ _ => let H := fresh "Hfact" in destruct Hp as [H Hp]
         end;
  subst p; cbn [next];
  repeat match goal with
         | H : no_conflict _ = true |- _ => rewrite H
         | H : none_stashed _ = _ |- _ => rewrite H
         | H : any_pending _ = _ |- _ => rewrite H
         | H : scan_finds _ _ _ = _ |- _ => rewrite H
         | H : Js.array_includes _ _ = _ |- _ => rewrite H
         | H : Js.truthy _ = true |- _ => rewrite H
         end;
  rewrite ?String.eqb_refl, ?andb_true_r; cbn [andb negb];
  rewrite ?bool_decide_eq_true_2 by reflexivity;
  try reflexivity.

Lemma checkStash_follows :
  follows env b v g (eq Resolved) (checkStash env)
    (fun _ p => p = StashListed [] \/ p = StashPopped).
Proof.
  unfold checkStash. pass.
  eapply follows_bind;
    [apply (follows_call g _ GitStashList _ StashListed);
     [reflexivity | now intros h p <-] |].
  intros [|entry rest]; cbn beta iota.
  - apply follows_ret. auto.
  - eapply follows_bind;
      [apply (follows_call g _ (GitStash ["pop"]) _ (fun _ => StashPopped));
       [reflexivity | now intros h p ->] |].
    intros ?. apply follows_log. auto.
Qed.

(** [checkConflicted] moves to the phase [q] of the status it read, and
    returns only if that status is free of conflicts. *)
Lemma checkConflicted_follows (P : Phase -> Prop) (q : StatusResult -> Phase) :
  (forall h p, P p -> next env b v h p GitStatus = Some (q (git_status env h))) ->
  follows env b v g P (checkConflicted env)
    (fun _ p => exists st, no_conflict st = true /\ p = q st).
Proof.
  intros Hnext. unfold checkConflicted. pass.
  eapply follows_bind;
    [apply (follows_call g _ GitStatus _ q); [reflexivity | exact Hnext] |].
  intros status. destruct (conflicted status) eqn:Hc.
  - apply follows_log. intros p ->. exists status. split; [| reflexivity].
    unfold no_conflict. now rewrite Hc.
  - apply follows_throw.
Qed.

Lemma checkNotCommitted_follows :
  follows env b v g
    (fun p => exists st, no_conflict st = true /\ p = ConflictsChecked st)
    (checkNotCommitted env)
    (fun _ p => (exists st, any_pending st = false /\ p = StatusRead st)
                \/ p = Committed).
Proof.
  unfold checkNotCommitted.
  eapply follows_bind;
    [apply (follows_call g _ GitStatus _ StatusRead); [reflexivity | entered] |].
  intros status. destruct (any_pending status) eqn:Hpending.
  - pass.
    eapply follows_bind;
      [apply (follows_call g _ (GitAdd _) _ (fun _ => Staged status 1));
       [reflexivity | entered] |]. intros ?.
    eapply follows_bind;
      [apply (follows_call g _ (GitAdd _) _ (fun _ => Staged status 2));
       [reflexivity | entered] |]. intros ?.
    eapply follows_bind;
      [apply (follows_call g _ (GitAdd _) _ (fun _ => Staged status 3));
       [reflexivity | entered] |]. intros ?.
    eapply follows_bind;
      [apply (follows_call g _ (GitAdd _) _ (fun _ => Staged status 4));
       [reflexivity | entered] |]. intros ?.
    eapply follows_bind;
      [apply (follows_call g _ (GitAdd _) _ (fun _ => Staged status 5));
       [reflexivity | entered] |]. intros ?.
    eapply follows_bind; [apply follows_loop |]. intros message.
    eapply follows_bind;
      [apply (follows_call g _ (GitCommit message) _ (fun _ => Committed));
       [reflexivity | entered] |]. intros ?.
    apply follows_log. auto.
  - apply follows_ret. intros p ->. left. eauto.
Qed.

Lemma checkoutBranch_follows :
  follows env b v g
    (fun p => (exists st, any_pending st = false /\ p = StatusRead st)
              \/ p = Committed)
    (checkoutBranch env)
    (fun _ p => p = Switched).
Proof.
  unfold checkoutBranch.
  eapply follows_bind;
    [apply (follows_call g _ GitBranchLocal _ BranchesListed);
     [reflexivity | entered] |].
  intros locals.
  eapply follows_bind; [apply follows_get |]. intros g'.
  apply follows_assume. intros ->. rewrite Hbranch. change (Js.show (Some b)) with b.
  eapply follows_bind; [| intros ?; apply follows_log_same].
  destruct (Js.array_includes b locals) eqn:Hlocal;
    (apply (follows_call g _ _ _ (fun _ => Switched)); [reflexivity | entered]).
Qed.

Lemma pushRemoteRepo_follows :
  follows env b v g
    (fun p => (exists listing, scan_finds env v listing = false /\ p = RefsListed listing)
              \/ (exists st, no_conflict st = true /\ p = BranchChecked st))
    (pushRemoteRepo env b)
    (fun _ p => p = Pushed).
Proof.
  unfold pushRemoteRepo. pass.
  eapply follows_bind; [| intros ?; apply follows_log_same].
  apply (follows_call g _ _ _ (fun _ => Pushed)); [reflexivity | entered].
Qed.

Lemma getRemoteBranchList_follows type :
  follows env b v g
    (fun p => exists st, no_conflict st = true /\ p = MasterChecked st)
    (getRemoteBranchList env type)
    (fun l p => exists listing, l = branchList env type listing /\ p = RefsListed listing).
Proof.
  unfold getRemoteBranchList.
  eapply follows_bind;
    [apply (follows_call g _ (GitListRemote ["--refs"]) _ RefsListed);
     [reflexivity | entered] |].
  intros listing.
  eapply follows_bind;
    [| intros ?; apply follows_ret; intros p Hp; exists listing; split;
       [reflexivity | exact Hp]].
  intros s p Hself Hp. cbn. split; [assumption |].
  exists [ConsoleLog listing], p. auto.
Qed.

Lemma pullRemoteMasterAndBranch_follows :
  follows env b v g (fun p => p = Switched) (pullRemoteMasterAndBranch env)
    (fun _ p => (exists listing, scan_finds env v listing = false /\ p = RefsListed listing)
                \/ (exists st, no_conflict st = true /\ p = BranchChecked st)).
Proof.
  unfold pullRemoteMasterAndBranch.
  eapply follows_bind; [apply follows_get |]. intros g'.
  apply follows_assume. intros ->. rewrite Hbranch, Hversion.
  change (Js.show (Some b)) with b. pass.
  eapply follows_bind;
    [apply (follows_pullRemoteRepo g _ "master" [] MasterPulled); entered |].
  intros ?. pass.
  eapply follows_bind;
    [apply (checkConflicted_follows _ MasterChecked); entered |]. intros ?.
  pass.
  eapply follows_bind; [apply (getRemoteBranchList_follows None) |].
  intros remoteBranchList. apply follows_given. intros listing.
  apply follows_assume. intros ->.
  destruct (Js.array_includes v (branchList env None listing)) eqn:Hscan;
    fold (scan_finds env v listing) in Hscan.
  - pass.
    eapply follows_bind;
      [apply (follows_pullRemoteRepo g _ b [] BranchPulled); entered;
       unfold plain_pull; rewrite !String.eqb_refl; reflexivity |].
    intros ?. pass.
    eapply follows_weaken;
      [apply (checkConflicted_follows (fun p => p = BranchPulled) BranchChecked); entered
      | auto | cbn beta; intros _ p Hp; right; exact Hp].
  - apply follows_log. intros p ->. left. eauto.
Qed.

(** After the branch is resolved, the rest of [commit] goes from [Resolved]
    to [Pushed]. *)
Lemma commit_rest_follows :
  follows env b v g (eq Resolved)
    (checkStash env ;; checkConflicted env ;; checkNotCommitted env ;;
     checkoutBranch env ;; pullRemoteMasterAndBranch env ;;
     do g' <- get_self; pushRemoteRepo env (Js.show (branch g')))
    (fun _ p => p = Pushed).
Proof.
  eapply follows_bind; [apply checkStash_follows |]. intros ?.
  eapply follows_bind;
    [apply (checkConflicted_follows _ ConflictsChecked); entered |].
  intros ?.
  eapply follows_bind; [apply checkNotCommitted_follows |]. intros ?.
  eapply follows_bind; [apply checkoutBranch_follows |]. intros ?.
  eapply follows_bind; [apply pullRemoteMasterAndBranch_follows |]. intros ?.
  eapply follows_bind; [apply follows_get |]. intros g'.
  apply follows_assume. intros ->. rewrite Hbranch. change (Js.show (Some b)) with b.
  apply pushRemoteRepo_follows.
Qed.

End Moves.

End Phases.

Lemma getCorrectVersion_rejected type s msg :
  rejects env (listing_refs s) = Some msg ->
  getCorrectVersion env type s
  = (Throw (Rejected msg),
     extend s [Log notice "获取代码分支"; GitListRemote ["--refs"]]).
Proof.
  unfold listing_refs. intros H.
  unfold getCorrectVersion, getRemoteBranchList, bind, log, call, emit, history,
    extend, throw; cbn.
  rewrite <- app_assoc; cbn. rewrite H. reflexivity.
Qed.

(** X30: [commit] calls simple-git in one fixed order, and makes each
    optional call on what it has just read.  However a run ends, its events
    are a walk of the phase machine from [Start]: the remote refs; the stash
    list, and a pop exactly when the list is not empty; the status, and no
    further call when it shows a conflict; the status again, and exactly
    when something is pending the five lists of that status handed to
    [git.add] and a commit with a message that is not empty; the local
    branches, and [dev/<version>] checked out if it is among them and
    created if not; the pull of [master] and the status; the remote refs,
    and exactly when the scan of that listing comes up with the version a
    pull of the branch and the status; the push of the branch.  A run that
    returns has made that push last. *)
Theorem commit_moves_through_the_phases s :
  let v := version (self s) in
  let b := "dev/" +:+ v in
  exists evs p,
    trace (commit env s).2 = trace s ++ evs
    /\ walk env b v (trace s) Start evs = Some p
    /\ ((commit env s).1 = Ret tt -> p = Pushed).
Proof.
  intros v b.
  destruct (rejects env (listing_refs s)) as [msg |] eqn:Hrej.
  - assert (E : commit env s
                = (Throw (Rejected msg),
                   extend s [Log notice "获取代码分支"; GitListRemote ["--refs"]])).
    { unfold commit. unfold bind at 1.
      now rewrite (getCorrectVersion_rejected _ _ _ Hrej). }
    rewrite E. cbn.
    eexists _, Resolved. split; [reflexivity |]. split; [reflexivity |].
    intros H. discriminate H.
  - pose proof (getCorrectVersion_resolved _ None _ Hrej) as Hfirst. cbn zeta in Hfirst.
    match type of Hfirst with
    | _ = (Ret tt, ?t) =>
        assert (E : commit env s
                    = (checkStash env ;; checkConflicted env ;; checkNotCommitted env ;;
                       checkoutBranch env ;; pullRemoteMasterAndBranch env ;;
                       do g' <- get_self; pushRemoteRepo env (Js.show (branch g'))) t)
          by (unfold commit; unfold bind at 1; now rewrite Hfirst);
        destruct (commit_rest_follows b v (self t) eq_refl eq_refl t Resolved
                    eq_refl eq_refl)
          as (_ & new & p & Htrace & Hrun & Hret)
    end.
    rewrite E.
    eexists _, p. split; [| split].
    + rewrite Htrace. cbn [trace]. rewrite <- app_assoc. reflexivity.
    + rewrite walk_app. cbn. exact Hrun.
    + intros H. exact (Hret tt H).
Qed.

End Order.

(** ** The channel of [commit] *)

Section Channel.

Variable env : Env.

(** C10: [commit] resolves its branch on the [dev] channel.  Once the remote
    refs are listed, the branch of the object is [dev/<version>] however the
    run ends, and never a [release] branch; a run that reaches its end has
    pushed [dev/<version>], and has pulled it only if the listing scanned
    for heads of the [dev] channel names [refs/heads/dev/<version>]. *)
Theorem commit_stays_on_dev_channel s :
  rejects env (listing_refs s) = None ->
  let r := commit env s in
  let v := version (self s) in
  branch (self r.2) = Some ("dev/" +:+ v)
  /\ (forall v', branch (self r.2) <> Some ("release/" +:+ v'))
  /\ (r.1 = Ret tt ->
      forall evs, trace r.2 = trace s ++ evs ->
        In (GitPush "origin" ("dev/" +:+ v)) evs
        /\ (In (GitPull "origin" ("dev/" +:+ v) []) evs ->
            exists h, remote_has_dev_head (git_listRemote env h) v)).
Proof.
  intros Hlist r v.
  assert (Hbranch : branch (self r.2) = Some ("dev/" +:+ v)).
  { subst r. unfold commit. unfold bind at 1.
    rewrite (getCorrectVersion_resolved _ _ _ Hlist); cbn zeta.
    match goal with
    | |- branch (self (?m ?t).2) = _ =>
        assert (Hk : respects (same self) m); [| rewrite (Hk t); reflexivity]
    end.
    pose proof (keeps_self_checkStash env). pose proof (keeps_self_checkConflicted env).
    pose proof (keeps_self_checkNotCommitted env). pose proof (keeps_self_checkoutBranch env).
    pose proof (keeps_self_pullRemoteMasterAndBranch env).
    pose proof (keeps_self_pushRemoteRepo env). keeps self. }
  split; [exact Hbranch |]. split.
  - intros v'. rewrite Hbranch. discriminate.
  - intros Hret evs Htrace.
    destruct (commit_ret env s r.2) as (_ & stash & staged & checkout & sync & evs'
                                        & Ht & Hc & Hs & Hg & Hk & Hy).
    { subst r. destruct (commit env s) as [o t]; cbn in *. now subst o. }
    rewrite Ht in Htrace. apply app_inv_head in Htrace. subst evs'.
    cbn zeta in Hc, Hk, Hy. fold v in Hc, Hk, Hy.
    assert (Hin : forall e, is_git_call e = true ->
                    (In e evs <-> In e (commit_calls ("dev/" +:+ v) stash staged checkout sync))).
    { intros e He. rewrite <- Hc. unfold git_calls. rewrite List.filter_In. tauto. }
    split.
    + apply Hin; [reflexivity |]. unfold commit_calls.
      rewrite !in_app_iff; cbn. rewrite !in_app_iff; cbn.
      do 3 right. rewrite !in_app_iff; cbn. rewrite !in_app_iff; cbn. intuition.
    + intros Hpull. apply Hin in Hpull; [| reflexivity].
      unfold commit_calls in Hpull.
      destruct Hy as [-> | (-> & h & Hh)].
      * exfalso.
        destruct Hs as [-> | ->];
          destruct Hg as [-> | (st & m & _ & _ & ->)];
          destruct Hk as [-> | ->]; cbn in Hpull;
          repeat (destruct Hpull as [Hpull | Hpull]; [discriminate Hpull |]);
          exact Hpull.
      * exists h. exact (includes_dev_head _ _ _ Hh).
Qed.

End Channel.

Lemma commit_stays_on_dev_channel_witness :
  branch (self (commit Sample.quiet (Sample.prepared "2.3.4" [])).2) = Some "dev/2.3.4".
Proof.
  apply (commit_stays_on_dev_channel Sample.quiet (Sample.prepared "2.3.4" []) eq_refl).
Defined.

(** The machine has no move for a run that leaves out a call the engine
    owes to what it has read: with an entry in the stash, the status may
    not follow the stash list directly; and with a scan that comes up with
    the version, the push may not follow the listing directly. *)
Example phases_refuse_a_skipped_step :
  walk busy "dev/1.0.0" "1.0.0" [] Resolved [GitStashList; GitStatus] = None
  /\ walk busy "dev/1.0.0" "1.0.0" [] (MasterChecked Sample.clean)
       [GitListRemote ["--refs"]; GitPush "origin" "dev/1.0.0"] = None.
Proof. split; vm_compute; reflexivity. Qed.

Lemma commit_moves_through_the_phases_witness :
  let s := Sample.prepared "1.0.0" [""; "wip"] in
  exists evs,
    trace (commit busy s).2 = trace s ++ evs
    /\ walk busy "dev/1.0.0" "1.0.0" (trace s) Start evs = Some Pushed
    /\ In (GitStash ["pop"]) evs
    /\ In (GitCommit "wip") evs
    /\ In (GitPull "origin" "dev/1.0.0" []) evs.
Proof.
  intros s.
  destruct (commit_moves_through_the_phases busy s) as (evs & p & Ht & Hrun & Hret).
  exists evs. split; [exact Ht |].
  rewrite (Hret eq_refl) in Hrun. split; [exact Hrun |].
  change (trace s ++ evs) with evs in Ht. rewrite <- Ht.
  vm_compute. intuition.
Defined.

(** C8 fails on the code in the condition of the branch pull: [commit]
    decides on it by its scan of the listing, and the scan is not the
    remote.  A remote whose only head on the [dev] channel is
    [dev/1.0.0-rc1] has no branch [dev/1.0.0]; at version [1.0.0] the scan
    reads [1.0.0] off that line, [commit] pulls [dev/1.0.0], the remote
    refuses, and the process exits with status 0 before any push.  A remote
    with the heads [dev/1.0.0] and [dev/1.1.0] on consecutive lines has the
    branch [dev/1.1.0]; at version [1.1.0] the scan misses it, [commit]
    logs that there is no such remote branch and goes from the listing
    straight to the push. *)
Theorem commit_pulls_by_its_scan_not_by_the_remote :
  (let env := Sample.with_git (no_such_branch "dev/1.0.0") (fun _ => Sample.clean)
                one_candidate_head in
   let r := commit env (Sample.prepared "1.0.0" []) in
   remote_has_branch one_candidate_head "dev/1.0.0" = false
   /\ r.1 = Exit 0%Z
   /\ git_calls (trace r.2)
      = [GitListRemote ["--refs"]; GitStashList; GitStatus; GitStatus;
         GitBranchLocal; GitCheckoutLocalBranch "dev/1.0.0";
         GitPull "origin" "master" []; GitStatus; GitListRemote ["--refs"];
         GitPull "origin" "dev/1.0.0" []])
  /\ (let env := Sample.with_git (fun _ => None) (fun _ => Sample.clean) two_dev_heads in
      let r := commit env (Sample.prepared "1.1.0" []) in
      remote_has_branch two_dev_heads "dev/1.1.0" = true
      /\ r.1 = Ret tt
      /\ In (Log success "不存在远程分支 [dev/1.1.0]") (trace r.2)
      /\ git_calls (trace r.2)
         = [GitListRemote ["--refs"]; GitStashList; GitStatus; GitStatus;
            GitBranchLocal; GitCheckoutLocalBranch "dev/1.1.0";
            GitPull "origin" "master" []; GitStatus; GitListRemote ["--refs"];
            GitPush "origin" "dev/1.1.0"]).
Proof.
  split; intros env r.
  - split; [reflexivity |]. vm_compute. split; reflexivity.
  - split; [reflexivity |]. vm_compute. intuition.
Qed.

(** ** The cache of [prepare] *)

Section Cache.

Variable env : Env.
Hypothesis Hdirs : forall h, fs_ensureDirFails env h = None.

Lemma createPath_ok s home file :
  homePath (self s) = Some home ->
  createPath env file s
  = (Ret (cache_path env home file), extend s [FsEnsureDir (cache_root env home)]).
Proof.
  intros Hhome.
  unfold createPath, bind, get_self, ensureDirSync, emit, history, ret; cbn.
  rewrite Hhome; cbn. rewrite Hdirs. reflexivity.
Qed.

Lemma asks_inquirer {A} type message choices (k : string -> M A) s :
  (forall a, respects later (k a)) ->
  asks (bind (inquirer type message choices) k) s (Prompt type message choices).
Proof.
  intros Hk. exists []. unfold bind, inquirer, emit, extend; cbn.
  destruct (answers s) as [|a rest]; cbn.
  - exists []. split; reflexivity.
  - match goal with |- context [k a ?t] => destruct (Hk a t) as [evs Hevs] end.
    exists evs. split; [| reflexivity].
    destruct (k a _) as [[? | ? | ? |] t']; cbn in *; rewrite Hevs;
      now rewrite <- app_assoc.
Qed.

Lemma asks_bind {A B} (m : M A) (k : A -> M B) s q :
  asks m s q -> (forall a, respects later (k a)) -> asks (bind m k) s q.
Proof.
  intros (before & after & Htrace & Hquiet) Hk. unfold asks, bind.
  destruct (m s) as [[a | e | c |] s1] eqn:Hm; cbn in *;
    try (exists before, after; split; assumption).
  destruct (Hk a s1) as [evs Hevs].
  exists before, (after ++ evs). split; [| assumption].
  rewrite Hevs, Htrace. rewrite <- !app_assoc. reflexivity.
Qed.

Lemma asks_seq {A B} (m : M A) (k : A -> M B) s q a s1 evs :
  m s = (Ret a, s1) ->
  trace s1 = trace s ++ evs ->
  prompts evs = [] ->
  asks (k a) s1 q ->
  asks (bind m k) s q.
Proof.
  intros Hm Htrace Hquiet (before & after & Hk & Hbefore).
  exists (evs ++ before), after. unfold bind. rewrite Hm. cbn. split.
  - rewrite Hk, Htrace. now rewrite <- !app_assoc.
  - unfold prompts in *. rewrite List.filter_app, Hquiet, Hbefore. reflexivity.
Qed.

Lemma checkGitServer_refresh_asks s home :
  homePath (self s) = Some home ->
  refreshServer (self s) = true ->
  asks (checkGitServer env) s SERVER_PROMPT.
Proof.
  intros Hhome Hrefresh. unfold checkGitServer.
  eapply asks_seq; [apply createPath_ok; exact Hhome | reflexivity | reflexivity |].
  eapply asks_seq; [reflexivity | symmetry; apply app_nil_r | reflexivity |].
  eapply asks_seq; [reflexivity | symmetry; apply app_nil_r | reflexivity |].
  cbn [self extend]. rewrite Hrefresh, orb_true_r.
  apply asks_bind; [apply asks_inquirer |]; intros; grows.
Qed.

Lemma checkGitToken_refresh_asks s home srv :
  homePath (self s) = Some home ->
  gitServer (self s) = Some srv ->
  refreshToken (self s) = true ->
  asks (checkGitToken env) s TOKEN_PROMPT.
Proof.
  intros Hhome Hsrv Hrefresh. unfold checkGitToken.
  eapply asks_seq; [apply createPath_ok; exact Hhome | reflexivity | reflexivity |].
  eapply asks_seq; [reflexivity | symmetry; apply app_nil_r | reflexivity |].
  eapply asks_seq; [reflexivity | symmetry; apply app_nil_r | reflexivity |].
  cbn [self extend]. rewrite Hrefresh, orb_true_r.
  apply asks_bind; [| intros; grows].
  eapply asks_seq;
    [unfold the_gitServer, bind, get_self; cbn; rewrite Hsrv; reflexivity
    | symmetry; apply app_nil_r | reflexivity |].
  eapply asks_seq; [reflexivity | reflexivity | reflexivity |].
  apply asks_inquirer. intros; grows.
Qed.

Lemma checkGitOwner_refresh_asks s home srv os :
  homePath (self s) = Some home ->
  gitServer (self s) = Some srv ->
  orgs (self s) = Some os ->
  refreshOwner (self s) = true ->
  asks (checkGitOwner env) s (OWNER_PROMPT os).
Proof.
  intros Hhome Hsrv Horgs Hrefresh. unfold checkGitOwner.
  eapply asks_seq; [apply createPath_ok; exact Hhome | reflexivity | reflexivity |].
  eapply asks_seq; [apply createPath_ok; exact Hhome | reflexivity | reflexivity |].
  eapply asks_seq; [reflexivity | symmetry; apply app_nil_r | reflexivity |].
  eapply asks_seq; [reflexivity | symmetry; apply app_nil_r | reflexivity |].
  eapply asks_seq; [reflexivity | symmetry; apply app_nil_r | reflexivity |].
  cbn [self extend]. rewrite Hrefresh, orb_true_r.
  apply asks_bind; [| intros; grows].
  eapply asks_seq;
    [unfold the_gitServer, bind, get_self; cbn; rewrite Hsrv; reflexivity
    | symmetry; apply app_nil_r | reflexivity |].
  eapply asks_seq; [reflexivity | reflexivity | reflexivity |].
  eapply asks_seq;
    [unfold the_orgs, bind, get_self; cbn; rewrite Horgs; reflexivity
    | symmetry; apply app_nil_r | reflexivity |].
  apply asks_inquirer. intros; grows.
Qed.

(** *** What a first run of [prepare] leaves behind *)

Lemma falsy_false v : Js.falsy v = false -> exists x, v = Some x /\ x <> "".
Proof.
  destruct v as [[|c x] |]; cbn; try discriminate.
  intros _. eexists. split; [reflexivity | discriminate].
Qed.

Lemma checkGitServer_ret s s' home :
  homePath (self s) = Some home ->
  checkGitServer env s = (Ret tt, s') ->
  exists sv,
    files s' !! cache_path env home GIT_SERVER_FILE = Some sv
    /\ gitServer (self s') = createGitServer sv
    /\ same_files_but (cache_path env home GIT_SERVER_FILE) s s'.
Proof.
  intros Hhome H. unfold checkGitServer in H. unfold bind at 1 in H.
  rewrite (createPath_ok _ _ _ Hhome) in H.
  unfold inquirer, writeFile, readFile in H. run_in H; injection H as <-; cbn.
  - eexists. split; [apply lookup_insert_eq |]. split; [reflexivity |].
    intros p Hp. cbn. now apply lookup_insert_ne.
  - match goal with
    | Hc : _ || _ = false |- _ =>
        apply orb_false_elim in Hc as [Hc _];
        apply falsy_false in Hc as (x & Hx & _)
    end.
    rewrite Hx. exists x. repeat split.
Qed.

Lemma checkGitToken_ret s s' home :
  homePath (self s) = Some home ->
  checkGitToken env s = (Ret tt, s') ->
  exists tv srv,
    gitServer (self s) = Some srv
    /\ files s' !! cache_path env home GIT_TOKEN_FILE = Some tv
    /\ token (self s') = Some tv
    /\ gitServer (self s') = Some {| kind := kind srv; server_token := Some tv |}
    /\ same_files_but (cache_path env home GIT_TOKEN_FILE) s s'.
Proof.
  intros Hhome H. unfold checkGitToken in H. unfold bind at 1 in H.
  rewrite (createPath_ok _ _ _ Hhome) in H.
  unfold inquirer, writeFile, readFile, the_gitServer in H.
  run_in H; injection H as <-; cbn; simplify_eq.
  - eexists _, _. split; [reflexivity |]. split; [apply lookup_insert_eq |].
    repeat split. intros p Hp. cbn. now apply lookup_insert_ne.
  - match goal with
    | Hc : _ || _ = false |- _ =>
        apply orb_false_elim in Hc as [Hc _];
        apply falsy_false in Hc as (x & Hx & _)
    end.
    rewrite Hx. eexists _, _. repeat split.
Qed.

Lemma checkGitOwner_ret s s' home :
  homePath (self s) = Some home ->
  cache_path env home GIT_OWN_FILE <> cache_path env home GIT_LOGIN_FILE ->
  checkGitOwner env s = (Ret tt, s') ->
  exists lv,
    files s' !! cache_path env home GIT_OWN_FILE = Some (owner (self s'))
    /\ files s' !! cache_path env home GIT_LOGIN_FILE = Some lv
    /\ login (self s') = Some lv
    /\ gitServer (self s') = gitServer (self s)
    /\ token (self s') = token (self s)
    /\ (forall p, p <> cache_path env home GIT_OWN_FILE ->
                  p <> cache_path env home GIT_LOGIN_FILE ->
                  files s' !! p = files s !! p).
Proof.
  intros Hhome Hne H. unfold checkGitOwner in H. unfold bind at 1 in H.
  rewrite (createPath_ok _ _ _ Hhome) in H. unfold bind at 1 in H.
  rewrite createPath_ok with (home := home) in H by exact Hhome.
  unfold inquirer, writeFile, readFile, the_gitServer, the_orgs in H.
  run_in H; injection H as <-; cbn; simplify_eq;
    try (eexists; split; [rewrite lookup_insert_ne by congruence; apply lookup_insert_eq |];
         split; [apply lookup_insert_eq |];
         split; [reflexivity |]; split; [assumption |]; split; [reflexivity |];
         intros p Hp1 Hp2; rewrite !lookup_insert_ne by congruence; reflexivity).
  match goal with
  | Hc : _ || _ || _ = false |- _ =>
      apply orb_false_elim in Hc as [Hc _];
      apply orb_false_elim in Hc as [Ho Hl];
      apply falsy_false in Ho as (ov & Hov & _);
      apply falsy_false in Hl as (lv & Hlv & _)
  end.
  rewrite Hov, Hlv. exists lv. repeat split.
Qed.

Lemma checkGitServer_anchors : respects (same anchors) (checkGitServer env).
Proof. unfold checkGitServer. keeps anchors. Qed.

Lemma checkGitToken_anchors : respects (same anchors) (checkGitToken env).
Proof. unfold checkGitToken. keeps anchors. Qed.

Lemma checkUserAndOrgs_anchors : respects (same anchors) (checkUserAndOrgs env).
Proof. unfold checkUserAndOrgs. keeps anchors. Qed.

Lemma checkGitOwner_anchors : respects (same anchors) (checkGitOwner env).
Proof. unfold checkGitOwner. keeps anchors. Qed.

Lemma checkRepo_anchors : respects (same anchors) (checkRepo env).
Proof. unfold checkRepo. keeps anchors. Qed.

Lemma checkUserAndOrgs_resolution : respects (same resolution) (checkUserAndOrgs env).
Proof. unfold checkUserAndOrgs. keeps resolution. Qed.

Lemma checkRepo_resolution : respects (same resolution) (checkRepo env).
Proof. unfold checkRepo. keeps resolution. Qed.

Lemma checkGitIgnore_resolution : respects (same resolution) (checkGitIgnore env).
Proof. unfold checkGitIgnore. keeps resolution. Qed.

Lemma init_resolution : respects (same resolution) (init env).
Proof.
  unfold init, initCommit, checkConflicted, checkNotCommitted, checkRemoteMaster,
    pullRemoteRepo, pushRemoteRepo.
  keeps resolution.
Qed.

Lemma checkUserAndOrgs_files : respects (same files) (checkUserAndOrgs env).
Proof. unfold checkUserAndOrgs. keeps files. Qed.

Lemma checkRepo_files : respects (same files) (checkRepo env).
Proof. unfold checkRepo. keeps files. Qed.

Lemma init_files : respects (same files) (init env).
Proof.
  unfold init, initCommit, checkConflicted, checkNotCommitted, checkRemoteMaster,
    pullRemoteRepo, pushRemoteRepo.
  keeps files.
Qed.

Lemma checkGitIgnore_files s :
  same_files_but (path_resolve env (dir (self s)) GIT_IGNORE_FILE) s
    (checkGitIgnore env s).2.
Proof.
  unfold checkGitIgnore, bind, get_self, existsSync, writeFile, log, emit, ret; cbn.
  destruct (fs_existsSync env (trace s) _); cbn; intros p Hp; [reflexivity |].
  now apply lookup_insert_ne.
Qed.

(** *** Replaying [prepare] on a warm cache *)

Lemma set_homePath_same g hp : homePath g = Some hp -> set_homePath (Some hp) g = g.
Proof. destruct g; cbn. now intros ->. Qed.

Lemma checkHomePath_result s :
  let home := home_of env (homePath (self s)) in
  let s' := {| self := set_homePath (Some home) (self s);
               files := files s; answers := answers s;
               trace := trace s ++ [Log verbose "home"; FsEnsureDir home] |} in
  checkHomePath env s
  = if fs_existsSync env (trace s') home then (Ret tt, s')
    else (Throw (Error "用户主目录获取失败！"), s').
Proof.
  cbn zeta. unfold checkHomePath, home_of.
  unfold bind, get_self, update_self, log, ensureDirSync, existsSync, emit,
    history, extend, ret, throw; cbn.
  destruct (Js.falsy (homePath (self s))) eqn:Hf.
  - destruct (Js.falsy (env_CLI_HOME env)); cbn;
      rewrite Hdirs; cbn; rewrite <- app_assoc; cbn;
      destruct (fs_existsSync env _ _); reflexivity.
  - apply falsy_false in Hf as (hp & Hhp & _). cbn.
    rewrite Hdirs; cbn. rewrite <- app_assoc; cbn. rewrite Hhp; cbn.
    rewrite (set_homePath_same _ _ Hhp).
    destruct (fs_existsSync env _ _); reflexivity.
Qed.

Lemma checkGitServer_replay s home sv :
  homePath (self s) = Some home ->
  refreshServer (self s) = false ->
  cached s (cache_path env home GIT_SERVER_FILE) sv ->
  checkGitServer env s
  = (Ret tt,
     {| self := set_gitServer (createGitServer sv) (self s);
        files := files s; answers := answers s;
        trace := trace s ++ [FsEnsureDir (cache_root env home);
                             Log success "git server获取成功"] |}).
Proof.
  intros Hhome Hrefresh [Hfile Hsv]. unfold checkGitServer. unfold bind at 1.
  rewrite (createPath_ok _ _ _ Hhome).
  unfold bind, readFile, get_self, update_self, log, emit, extend, ret; cbn.
  rewrite Hfile, Hrefresh. destruct sv; [congruence |]. cbn.
  rewrite <- app_assoc. reflexivity.
Qed.

Lemma checkGitToken_replay s home srv tv :
  homePath (self s) = Some home ->
  gitServer (self s) = Some srv ->
  refreshToken (self s) = false ->
  cached s (cache_path env home GIT_TOKEN_FILE) tv ->
  checkGitToken env s
  = (Ret tt,
     {| self := set_gitServer (Some {| kind := kind srv; server_token := Some tv |})
                  (set_token (Some tv) (self s));
        files := files s; answers := answers s;
        trace := trace s ++ [FsEnsureDir (cache_root env home); Log verbose "token";
                             Log success "token 获取成功"; HostSetToken tv] |}).
Proof.
  intros Hhome Hsrv Hrefresh [Hfile Htv]. unfold checkGitToken. unfold bind at 1.
  rewrite (createPath_ok _ _ _ Hhome).
  unfold bind, readFile, get_self, update_self, the_gitServer, log, emit, extend,
    ret; cbn.
  rewrite Hfile, Hrefresh. destruct tv; [congruence |]. cbn. rewrite Hsrv; cbn.
  rewrite <- !app_assoc. reflexivity.
Qed.

Lemma checkGitOwner_replay s home ov lv :
  homePath (self s) = Some home ->
  refreshOwner (self s) = false ->
  cached s (cache_path env home GIT_OWN_FILE) ov ->
  cached s (cache_path env home GIT_LOGIN_FILE) lv ->
  checkGitOwner env s
  = (Ret tt,
     {| self := set_login (Some lv) (set_owner ov (self s));
        files := files s; answers := answers s;
        trace := trace s ++ [FsEnsureDir (cache_root env home);
                             FsEnsureDir (cache_root env home);
                             Log success "git owner 获取成功";
                             Log success "git login 获取成功"] |}).
Proof.
  intros Hhome Hrefresh [Hof Hov] [Hlf Hlv]. unfold checkGitOwner.
  unfold bind at 1. rewrite (createPath_ok _ _ _ Hhome).
  unfold bind at 1. rewrite createPath_ok with (home := home) by exact Hhome.
  unfold bind, readFile, get_self, update_self, log, emit, extend, ret; cbn.
  rewrite Hof, Hlf, Hrefresh. destruct ov; [congruence |]. destruct lv; [congruence |].
  cbn. rewrite <- !app_assoc. reflexivity.
Qed.

Lemma checkUserAndOrgs_replay s srv u :
  gitServer (self s) = Some srv ->
  rejects env (trace s ++ [HostGetUser]) = None ->
  rejects env (trace s ++ [HostGetUser; HostGetOrgs]) = None ->
  host_getUser env (trace s ++ [HostGetUser]) = Some u ->
  checkUserAndOrgs env s
  = (Ret tt,
     {| self := set_orgs (Some (host_getOrgs env (trace s ++ [HostGetUser; HostGetOrgs])))
                  (set_user (Some u) (self s));
        files := files s; answers := answers s;
        trace := trace s ++ [HostGetUser; HostGetOrgs;
                             Log success (server_type srv +:+ " 用户和组织信息获取成功")] |}).
Proof.
  intros Hsrv Hrej1 Hrej2 Huser. unfold checkUserAndOrgs.
  unfold bind, the_gitServer, get_self, update_self, call, log, emit, history,
    extend, ret; cbn.
  rewrite Hsrv; cbn. rewrite Hrej1, Huser; cbn. rewrite Hsrv; cbn.
  rewrite <- app_assoc; cbn. rewrite Hrej2; cbn. rewrite Hsrv; cbn.
  rewrite <- !app_assoc. reflexivity.
Qed.

Lemma checkRepo_replay s srv r :
  gitServer (self s) = Some srv ->
  rejects env (trace s ++ [HostGetRepo (login (self s)) (name (self s))]) = None ->
  host_getRepo env (trace s ++ [HostGetRepo (login (self s)) (name (self s))]) = Some r ->
  checkRepo env s
  = (Ret tt,
     {| self := set_repo (Some r) (self s);
        files := files s; answers := answers s;
        trace := trace s ++ [HostGetRepo (login (self s)) (name (self s));
                             Log success "远程仓库信息获取成功"] |}).
Proof.
  intros Hsrv Hrej Hrepo. unfold checkRepo.
  unfold bind, the_gitServer, get_self, update_self, call, log, emit, history,
    extend, ret; cbn.
  rewrite Hsrv; cbn. rewrite Hrej, Hrepo; cbn.
  rewrite <- !app_assoc. reflexivity.
Qed.

Lemma init_replay s srv :
  gitServer (self s) = Some srv ->
  fs_existsSync env (trace s) (path_resolve env (dir (self s)) GIT_ROOT_DIR) = true ->
  init env s
  = (Ret tt,
     {| self := set_remote (Some (host_getRemote env (kind srv) (login (self s))
                                   (name (self s)))) (self s);
        files := files s; answers := answers s;
        trace := trace s ++ [Log success "git 已完成初始化"] |}).
Proof.
  intros Hsrv Hgit. unfold init.
  unfold bind, the_gitServer, get_self, update_self, existsSync, log, emit, extend,
    ret; cbn.
  rewrite Hsrv; cbn. rewrite Hgit. reflexivity.
Qed.

Lemma checkGitIgnore_quiet s :
  let r := checkGitIgnore env s in
  r.1 = Ret tt /\ self r.2 = self s /\ answers r.2 = answers s
  /\ exists evs, trace r.2 = trace s ++ evs /\ prompts evs = [].
Proof.
  unfold checkGitIgnore, bind, get_self, existsSync, writeFile, log, emit, ret,
    extend; cbn.
  destruct (fs_existsSync env (trace s) _); cbn; repeat split.
  - exists []. now rewrite app_nil_r.
  - eexists. rewrite <- app_assoc. split; reflexivity.
Qed.

(** What a first run that returned has put in the cache and in the object. *)
Lemma prepare_ret_cache wd nm ver cliHome rt ro rs prod disk typed h0 s1 :
  let home := home_of env cliHome in
  prepare env (launch wd nm ver cliHome rt ro rs prod disk typed h0)
  = (Ret tt, s1) ->
  cache_files_apart env home wd ->
  exists sv srv tv lv,
    createGitServer sv = Some srv
    /\ files s1 !! cache_path env home GIT_SERVER_FILE = Some sv
    /\ files s1 !! cache_path env home GIT_TOKEN_FILE = Some tv
    /\ files s1 !! cache_path env home GIT_OWN_FILE = Some (owner (self s1))
    /\ files s1 !! cache_path env home GIT_LOGIN_FILE = Some lv
    /\ resolved (self s1)
       = (Some {| kind := kind srv; server_token := Some tv |}, Some tv,
          owner (self s1), Some lv).
Proof.
  intros home Hfirst Hapart. unfold prepare in Hfirst. unbind Hfirst.
  match goal with
  | H : checkHomePath _ _ = (_, ?a) |- _ => rename a into tA; rename H into Hhome
  end.
  match goal with
  | H : checkGitServer _ _ = (_, ?a) |- _ => rename a into sB; rename H into Hserver
  end.
  match goal with
  | H : checkGitToken _ _ = (_, ?a) |- _ => rename a into sC; rename H into Htoken
  end.
  match goal with
  | H : checkUserAndOrgs _ _ = (_, ?a) |- _ => rename a into sD; rename H into Huser
  end.
  match goal with
  | H : checkGitOwner _ _ = (_, ?a) |- _ => rename a into sE; rename H into Howner
  end.
  match goal with
  | H : checkRepo _ _ = (_, ?a) |- _ => rename a into sF; rename H into Hrepo
  end.
  match goal with
  | H : checkGitIgnore _ _ = (_, ?a) |- _ => rename a into sG; rename H into Hignore
  end.
  (* the cache root and the project directory, all along *)
  rewrite checkHomePath_result in Hhome; cbn zeta in Hhome.
  destruct (fs_existsSync env _ _); [| discriminate].
  injection Hhome as <-.
  set (sA := {| self := set_homePath _ _ |}) in *.
  assert (HA : anchors sA = (Some home, wd)) by reflexivity.
  assert (HB : anchors sB = (Some home, wd)).
  { pose proof (checkGitServer_anchors sA) as E. rewrite Hserver in E.
    unfold same in E. cbn in E. congruence. }
  assert (HC : anchors sC = (Some home, wd)).
  { pose proof (checkGitToken_anchors sB) as E. rewrite Htoken in E.
    unfold same in E. cbn in E. congruence. }
  assert (HD : anchors sD = (Some home, wd)).
  { pose proof (checkUserAndOrgs_anchors sC) as E. rewrite Huser in E.
    unfold same in E. cbn in E. congruence. }
  assert (HE : anchors sE = (Some home, wd)).
  { pose proof (checkGitOwner_anchors sD) as E. rewrite Howner in E.
    unfold same in E. cbn in E. congruence. }
  assert (HF : anchors sF = (Some home, wd)).
  { pose proof (checkRepo_anchors sE) as E. rewrite Hrepo in E.
    unfold same in E. cbn in E. congruence. }
  unfold anchors in HA, HB, HC, HD, HE, HF.
  (* the paths differ *)
  unfold cache_files_apart in Hapart.
  repeat match goal with
         | H : NoDup (_ :: _) |- _ => apply NoDup_cons in H as [? H]
         end.
  repeat match goal with
         | H : ~ _ ∈ _ :: _ |- _ => apply not_elem_of_cons in H as [? H]
         end.
  (* what each step wrote *)
  destruct (checkGitServer_ret sA sB home ltac:(congruence) Hserver)
    as (sv & Hsv & Hsrv & HfB).
  destruct (checkGitToken_ret sB sC home ltac:(congruence) Htoken)
    as (tv & srv & HsrvB & Htv & Htok & HsrvC & HfC).
  assert (HfD : files sD = files sC).
  { pose proof (checkUserAndOrgs_files sC) as E. now rewrite Huser in E. }
  assert (HrD : resolved (self sD) = resolved (self sC)).
  { pose proof (checkUserAndOrgs_resolution sC) as E. now rewrite Huser in E. }
  destruct (checkGitOwner_ret sD sE home ltac:(congruence) ltac:(assumption) Howner)
    as (lv & Hov & Hlv & Hlogin & HsrvE & HtokE & HfE).
  assert (HfF : files sF = files sE).
  { pose proof (checkRepo_files sE) as E. now rewrite Hrepo in E. }
  assert (HrF : resolved (self sF) = resolved (self sE)).
  { pose proof (checkRepo_resolution sE) as E. now rewrite Hrepo in E. }
  assert (HfG : same_files_but (path_resolve env wd GIT_IGNORE_FILE) sF sG).
  { pose proof (checkGitIgnore_files sF) as E. rewrite Hignore in E.
    replace (dir (self sF)) with wd in E by congruence. exact E. }
  assert (HrG : resolved (self sG) = resolved (self sF)).
  { pose proof (checkGitIgnore_resolution sF) as E. now rewrite Hignore in E. }
  assert (Hf1 : files s1 = files sG).
  { pose proof (init_files sG) as E. now rewrite Hfirst in E. }
  assert (Hr1 : resolved (self s1) = resolved (self sG)).
  { pose proof (init_resolution sG) as E. now rewrite Hfirst in E. }
  assert (Howner1 : owner (self s1) = owner (self sE)).
  { unfold resolved in *. congruence. }
  exists sv, srv, tv, lv. split; [congruence |].
  split; [rewrite Hf1, HfG, HfF, HfE, HfD, HfC by assumption; exact Hsv |].
  split; [rewrite Hf1, HfG, HfF, HfE, HfD by assumption; exact Htv |].
  split; [rewrite Hf1, HfG, HfF, Howner1 by assumption; exact Hov |].
  split; [rewrite Hf1, HfG, HfF by assumption; exact Hlv |].
  rewrite Hr1, HrG, HrF. unfold resolved in *. congruence.
Qed.

Lemma prompts_app h h' : prompts (h ++ h') = prompts h ++ prompts h'.
Proof. apply List.filter_app. Qed.

(** A run on a warm cache, without refresh flags, in a world that is still
    there: no question, and the context is what the cache holds. *)
Lemma prepare_replay wd nm ver cliHome prod disk typed h srv sv tv ov lv :
  let home := home_of env cliHome in
  let s := launch wd nm ver cliHome false false false prod disk typed h in
  createGitServer sv = Some srv ->
  cached s (cache_path env home GIT_SERVER_FILE) sv ->
  cached s (cache_path env home GIT_TOKEN_FILE) tv ->
  cached s (cache_path env home GIT_OWN_FILE) ov ->
  cached s (cache_path env home GIT_LOGIN_FILE) lv ->
  still_there env h home wd ->
  exists s',
    prepare env s = (Ret tt, s')
    /\ prompts (trace s') = prompts h
    /\ answers s' = typed
    /\ resolved (self s')
       = (Some {| kind := kind srv; server_token := Some tv |}, Some tv, ov, Some lv).
Proof.
  intros home s Hsrv Hsv Htv Hov Hlv (Hrej & Huser & Hrepo & Hhome & Hgit).
  destruct (prepare env s) as [o s'] eqn:Hrun. unfold prepare in Hrun.
  (* cache root *)
  unfold bind at 1 in Hrun. rewrite checkHomePath_result in Hrun; cbn zeta in Hrun.
  change (home_of env (homePath (self s))) with home in Hrun.
  cbn [trace self files answers s launch] in Hrun.
  rewrite Hhome in Hrun.
  (* platform *)
  unfold bind at 1 in Hrun.
  rewrite (checkGitServer_replay _ home sv) in Hrun by (assumption || reflexivity).
  cbn [trace self files answers] in Hrun. rewrite Hsrv in Hrun.
  (* token *)
  unfold bind at 1 in Hrun.
  rewrite (checkGitToken_replay _ home srv tv) in Hrun by (assumption || reflexivity).
  cbn [trace self files answers] in Hrun.
  rewrite <- !app_assoc in Hrun; cbn [app] in Hrun.
  (* identity *)
  unfold bind at 1 in Hrun.
  match type of Hrun with
  | context [checkUserAndOrgs env ?t] =>
      assert (Hx : exists u, host_getUser env (trace t ++ [HostGetUser]) = Some u)
        by (cbn [trace]; rewrite <- app_assoc;
            destruct (host_getUser env _) eqn:E;
            [eauto | exfalso; exact (Huser _ E)]);
      destruct Hx as [u Hu];
      rewrite (checkUserAndOrgs_replay t {| kind := kind srv; server_token := Some tv |} u) in Hrun
        by (reflexivity || exact Hu
            || (cbn [trace]; rewrite <- app_assoc; apply Hrej))
  end.
  cbn [trace self files answers] in Hrun.
  rewrite <- !app_assoc in Hrun; cbn [app] in Hrun.
  (* owner *)
  unfold bind at 1 in Hrun.
  rewrite (checkGitOwner_replay _ home ov lv) in Hrun by (assumption || reflexivity).
  cbn [trace self files answers] in Hrun.
  rewrite <- !app_assoc in Hrun; cbn [app] in Hrun.
  (* repository *)
  unfold bind at 1 in Hrun.
  match type of Hrun with
  | context [checkRepo env ?t] =>
      assert (Hx : exists r, host_getRepo env
                      (trace t ++ [HostGetRepo (login (self t)) (name (self t))])
                    = Some r)
        by (cbn [trace]; rewrite <- app_assoc;
            destruct (host_getRepo env _) eqn:E;
            [eauto | exfalso; exact (Hrepo _ E)]);
      destruct Hx as [repo Hr];
      rewrite (checkRepo_replay t {| kind := kind srv; server_token := Some tv |} repo) in Hrun
        by (reflexivity || exact Hr
            || (cbn [trace]; rewrite <- app_assoc; apply Hrej))
  end.
  cbn [trace self files answers] in Hrun.
  rewrite <- !app_assoc in Hrun; cbn [app] in Hrun.
  (* ignore file *)
  unfold bind at 1 in Hrun.
  match type of Hrun with
  | context [checkGitIgnore env ?t] =>
      destruct (checkGitIgnore_quiet t) as (Hret & Hself & Hans & evs & Htrace & Hquiet);
      destruct (checkGitIgnore env t) as [o1 t1]
  end.
  cbn [fst snd trace self files answers] in Hret, Hself, Hans, Htrace.
  subst o1.
  (* local repository *)
  rewrite (init_replay t1 {| kind := kind srv; server_token := Some tv |}) in Hrun.
  - injection Hrun as <- <-. eexists. split; [reflexivity |].
    cbn [trace self files answers]. rewrite Hself, Hans, Htrace.
    split; [| split; [reflexivity | reflexivity]].
    rewrite <- !app_assoc, !prompts_app, Hquiet. cbn. now rewrite app_nil_r.
  - rewrite Hself. reflexivity.
  - rewrite Hself, Htrace. cbn [self dir set_repo set_login set_owner set_orgs set_user
                                  set_gitServer set_token set_homePath constructor].
    rewrite <- !app_assoc. apply Hgit.
Qed.




(** C7: where its directories can be made, the engine asks for a cached
    category whenever that category's refresh flag is set, whatever the cache
    holds: the platform in [checkGitServer], the token in [checkGitToken],
    the owner in [checkGitOwner].  And when a first [prepare] has returned,
    its five files are five different files, the four categories are cached
    and what the first run found is still there, a second [prepare] without
    refresh flags returns without a single question and resolves the platform
    client, token, owner and login the first one resolved. *)
Theorem refresh_asks_and_cache_replays :
  (forall s home,
     homePath (self s) = Some home ->
     refreshServer (self s) = true ->
     asks (checkGitServer env) s SERVER_PROMPT)
  /\ (forall s home srv,
       homePath (self s) = Some home ->
       gitServer (self s) = Some srv ->
       refreshToken (self s) = true ->
       asks (checkGitToken env) s TOKEN_PROMPT)
  /\ (forall s home srv os,
       homePath (self s) = Some home ->
       gitServer (self s) = Some srv ->
       orgs (self s) = Some os ->
       refreshOwner (self s) = true ->
       asks (checkGitOwner env) s (OWNER_PROMPT os))
  /\ (forall wd nm ver cliHome prod rt ro rs disk typed0 h0 s1 typed sv tv ov lv,
       let home := home_of env cliHome in
       prepare env (launch wd nm ver cliHome rt ro rs prod disk typed0 h0)
       = (Ret tt, s1) ->
       cache_files_apart env home wd ->
       cached s1 (cache_path env home GIT_SERVER_FILE) sv ->
       cached s1 (cache_path env home GIT_TOKEN_FILE) tv ->
       cached s1 (cache_path env home GIT_OWN_FILE) ov ->
       cached s1 (cache_path env home GIT_LOGIN_FILE) lv ->
       still_there env (trace s1) home wd ->
       let r := prepare env (launch wd nm ver cliHome false false false prod
                               (files s1) typed (trace s1)) in
       r.1 = Ret tt
       /\ prompts (trace r.2) = prompts (trace s1)
       /\ answers r.2 = typed
       /\ resolved (self r.2) = resolved (self s1)).
Proof.
  split; [exact checkGitServer_refresh_asks |].
  split; [exact checkGitToken_refresh_asks |].
  split; [exact checkGitOwner_refresh_asks |].
  intros wd nm ver cliHome prod rt ro rs disk typed0 h0 s1 typed sv tv ov lv home
         Hfirst Hapart Hsv Htv Hov Hlv Hstill r.
  destruct (prepare_ret_cache _ _ _ _ _ _ _ _ _ _ _ _ Hfirst Hapart)
    as (sv1 & srv & tv1 & lv1 & Hsrv & Hfs & Hft & Hfo & Hfl & Hres).
  fold home in Hfs, Hft, Hfo, Hfl.
  assert (sv1 = sv) by (destruct Hsv; congruence).
  assert (tv1 = tv) by (destruct Htv; congruence).
  assert (owner (self s1) = ov) by (destruct Hov; congruence).
  assert (lv1 = lv) by (destruct Hlv; congruence).
  subst sv1 tv1 lv1.
  destruct (prepare_replay wd nm ver cliHome prod (files s1) typed (trace s1)
              srv sv tv ov lv Hsrv Hsv Htv Hov Hlv Hstill)
    as (s2 & Hrun & Hquiet & Hans & Hres2).
  subst r. rewrite Hrun. cbn [fst snd].
  repeat split; try assumption. rewrite Hres2, Hres. congruence.
Qed.

End Cache.

Lemma refresh_asks_and_cache_replays_witness :
  let first := launch "/work/demo" "demo" "1.0.0" None true false false false ∅
                 ["github"; "t0k"; "user"] [] in
  let s1 := (prepare Sample.quiet first).2 in
  let r := prepare Sample.quiet
             (launch "/work/demo" "demo" "1.0.0" None false false false false
                (files s1) [] (trace s1)) in
  r.1 = Ret tt
  /\ prompts (trace r.2) = prompts (trace s1)
  /\ answers r.2 = []
  /\ resolved (self r.2) = resolved (self s1).
Proof.
  intros first s1 r.
  pose proof (refresh_asks_and_cache_replays Sample.quiet (fun _ => eq_refl))
    as (_ & _ & _ & H).
  apply (H "/work/demo" "demo" "1.0.0" None false true false false ∅
           ["github"; "t0k"; "user"] [] s1 [] "github" "t0k" "user" "sam").
  - vm_compute. reflexivity.
  - unfold cache_files_apart. apply (bool_decide_unpack _). vm_compute. exact I.
  - split; [vm_compute; reflexivity | discriminate].
  - split; [vm_compute; reflexivity | discriminate].
  - split; [vm_compute; reflexivity | discriminate].
  - split; [vm_compute; reflexivity | discriminate].
  - repeat split; intros h; try reflexivity; discriminate.
Defined.
(** * Further properties of the engine *)

(** ** What a computation may add to the history *)

Section Added.

Variable P : Event -> Prop.

Lemma added_refl s : added P s s.
Proof. exists []. split; [now rewrite app_nil_r | constructor]. Qed.

Lemma added_trans s1 s2 s3 : added P s1 s2 -> added P s2 s3 -> added P s1 s3.
Proof.
  intros (e1 & H1 & P1) (e2 & H2 & P2). exists (e1 ++ e2). split.
  - rewrite H2, H1. symmetry. apply app_assoc.
  - apply Forall_app. now split.
Qed.

Lemma added_emit e : P e -> respects (added P) (emit e).
Proof. intros He s. exists [e]. split; [reflexivity | now constructor]. Qed.

Lemma added_inquirer type message choices :
  P (Prompt type message choices) -> respects (added P) (inquirer type message choices).
Proof.
  intros He s. exists [Prompt type message choices].
  unfold inquirer, bind, emit, extend; cbn.
  destruct (answers s); cbn; (split; [reflexivity | now constructor]).
Qed.

Lemma added_loop : P COMMIT_PROMPT -> respects (added P) commit_message_loop.
Proof.
  intros He s. unfold commit_message_loop.
  destruct (ask_commit_message_shows (answers s) []) as [k Hk].
  destruct (ask_commit_message (answers s) []) as [[o rest] shown].
  cbn in *. subst shown. exists (repeat COMMIT_PROMPT k). split; [reflexivity |].
  clear -He. induction k; cbn; now constructor.
Qed.

Lemma added_finally {A} (m : M A) :
  P SpinnerStop -> respects (added P) m ->
  respects (added P) (finally m (emit SpinnerStop)).
Proof.
  intros He Hm s. unfold finally. specialize (Hm s).
  destruct (m s) as [[a | e | c |] s1]; cbn in *; try assumption;
    (eapply added_trans; [exact Hm |];
     exists [SpinnerStop]; split; [reflexivity | now constructor]).
Qed.

End Added.

(** Decompose a computation along its binds; [event] proves that an event
    the computation emits is one of those allowed. *)
Ltac adds event :=
  unfold_primitives; unfold_primitives;
  repeat first
    [ assumption
    | lazymatch goal with
      | |- respects _ (inquirer _ _ _) => apply added_inquirer; event
      | |- respects _ commit_message_loop => apply added_loop; event
      | |- respects _ (emit _) => apply added_emit; event
      | |- respects _ (finally _ _) => apply added_finally; [event |]
      | |- respects _ (bind _ _) =>
          apply (respects_bind _ (added_trans _)); [| intros ?]
      | |- respects _ (catch _ _) =>
          apply (respects_catch _ (added_trans _)); [| intros ?]
      | |- respects _ (match ?x with _ => _ end) => destruct x
      end
    | apply (respects_pure _ (added_refl _)); intros ?; reflexivity
    | (intros ?; exists []; cbn; split; [now rewrite app_nil_r | constructor]) ].

(** ** What [commit] and [prepare] leave alone *)

Section Reach.

Variable env : Env.

Lemma from_trans I R :
  (forall s1 s2 s3, R s1 s2 -> R s2 s3 -> R s1 s3) ->
  forall s1 s2 s3 : State, from I R s1 s2 -> from I R s2 s3 -> from I R s1 s3.
Proof.
  intros Htrans s1 s2 s3 H12 H23 H1.
  destruct (H12 H1) as [H2 R12]. destruct (H23 H2) as [H3 R23]. eauto.
Qed.

Lemma respects_from {A X} (view : State -> X) x R (m : M A) :
  respects (same view) m -> respects R m ->
  respects (from (fun s => view s = x) R) m.
Proof.
  intros Hview HR s Hs. split; [| apply HR].
  rewrite <- Hs. apply Hview.
Qed.

(** X1: however it ends, [commit] leaves the cache files as they are, and
    all it does to the outside world is log, call simple-git and ask for a
    commit message: it never writes a file, never creates a directory and
    never calls the hosting platform. *)
Theorem commit_leaves_cache_and_platform_alone s :
  files (commit env s).2 = files s
  /\ added commit_event s (commit env s).2.
Proof.
  split.
  - revert s. change (respects (same files) (commit env)).
    unfold commit, getCorrectVersion, getRemoteBranchList, checkStash,
      checkConflicted, checkNotCommitted, checkoutBranch,
      pullRemoteMasterAndBranch, pullRemoteRepo, pushRemoteRepo.
    keeps files.
  - revert s. change (respects (added commit_event) (commit env)).
    unfold commit, pullRemoteMasterAndBranch, getCorrectVersion,
      getRemoteBranchList, checkStash, checkConflicted, checkNotCommitted,
      checkoutBranch, pullRemoteRepo, pushRemoteRepo.
    adds ltac:(exact I || reflexivity).
Qed.

(** X2: [prepare] calls simple-git for the first synchronisation only: it
    never lists or switches branches and never touches the stash, and
    whatever it pulls or pushes is [master] of [origin]. *)
Theorem prepare_syncs_master_only s :
  added first_sync_event s (prepare env s).2.
Proof.
  revert s. change (respects (added first_sync_event) (prepare env)).
  unfold prepare, init, initCommit, checkHomePath, checkGitServer, checkGitToken,
    checkUserAndOrgs, checkGitOwner, checkRepo, checkGitIgnore, checkRemoteMaster,
    checkConflicted, checkNotCommitted, pullRemoteRepo, pushRemoteRepo.
  adds ltac:(exact I || (split; reflexivity)).
Qed.

Lemma init_dir : respects (same (fun s => dir (self s))) (init env).
Proof.
  unfold init, initCommit, checkRemoteMaster, checkConflicted, checkNotCommitted,
    pullRemoteRepo, pushRemoteRepo.
  keeps (fun s => dir (self s)).
Qed.

(** X3: in a project directory that has its [.git] directory, [prepare]
    makes no call on simple-git at all, however it ends. *)
Theorem prepare_leaves_initialised_repository_alone s :
  (forall h, fs_existsSync env h (path_resolve env (dir (self s)) GIT_ROOT_DIR) = true) ->
  added off_git s (prepare env s).2.
Proof.
  intros Hgit.
  set (wd := dir (self s)) in *.
  assert (H : respects (from (fun s => dir (self s) = wd) (added off_git)) (prepare env)).
  { unfold prepare.
    repeat (lazymatch goal with |- respects _ (bind _ _) => idtac end;
            apply (respects_bind _ (from_trans _ _ (added_trans _)));
            [apply respects_from | intros ?]).
    - unfold checkHomePath. keeps (fun s => dir (self s)).
    - unfold checkHomePath. adds ltac:(reflexivity).
    - unfold checkGitServer. keeps (fun s => dir (self s)).
    - unfold checkGitServer. adds ltac:(reflexivity).
    - unfold checkGitToken. keeps (fun s => dir (self s)).
    - unfold checkGitToken. adds ltac:(reflexivity).
    - unfold checkUserAndOrgs. keeps (fun s => dir (self s)).
    - unfold checkUserAndOrgs. adds ltac:(reflexivity).
    - unfold checkGitOwner. keeps (fun s => dir (self s)).
    - unfold checkGitOwner. adds ltac:(reflexivity).
    - unfold checkRepo. keeps (fun s => dir (self s)).
    - unfold checkRepo. adds ltac:(reflexivity).
    - unfold checkGitIgnore. keeps (fun s => dir (self s)).
    - unfold checkGitIgnore. adds ltac:(reflexivity).
    - intros t Ht. split; [rewrite <- Ht; apply init_dir |].
      unfold init, bind, get_self, the_gitServer, update_self, existsSync, log,
        emit, extend, ret, throw; cbn.
      destruct (gitServer (self t)); cbn; [| apply added_refl].
      rewrite Ht, Hgit. exists [Log success "git 已完成初始化"].
      split; [reflexivity | repeat constructor]. }
  exact (proj2 (H s eq_refl)).
Qed.

End Reach.

Lemma prepare_leaves_initialised_repository_alone_witness :
  let s := Sample.fresh "1.0.0" ["github"; "t0k"; "user"] in
  added off_git s (prepare Sample.quiet s).2.
Proof.
  intros s.
  apply (prepare_leaves_initialised_repository_alone Sample.quiet s).
  intros h. reflexivity.
Defined.

(** ** How [prepare] and [commit] end the process *)

Section Endings.

Variable env : Env.
Variable Q : Z -> State -> Prop.

Lemma exits_bind {A B} (m : M A) (k : A -> M B) :
  exits Q m -> (forall a, exits Q (k a)) -> exits Q (bind m k).
Proof.
  intros Hm Hk s c. unfold bind. specialize (Hm s).
  destruct (m s) as [[a | e | c' |] s1]; cbn in *; try discriminate.
  - apply Hk.
  - intros [= ->]. now apply Hm.
Qed.

Lemma exits_finally {A} (m : M A) :
  exits Q m -> exits Q (finally m (emit SpinnerStop)).
Proof.
  intros Hm s c. unfold finally. specialize (Hm s).
  destruct (m s) as [[a | e | c' |] s1]; cbn in *; try discriminate.
  intros [= ->]. now apply Hm.
Qed.

Lemma ask_commit_message_waits pending shown c :
  (ask_commit_message pending shown).1.1 <> Exit c.
Proof.
  revert shown. induction pending as [|a pending IH]; intros shown; cbn.
  - discriminate.
  - destruct (Js.truthy a); cbn; [discriminate | apply IH].
Qed.

Lemma exits_loop : exits Q commit_message_loop.
Proof.
  intros s c. unfold commit_message_loop.
  pose proof (ask_commit_message_waits (answers s) [] c) as H.
  destruct (ask_commit_message (answers s) []) as [[o rest] shown].
  cbn in *. congruence.
Qed.

Lemma exits_inquirer type message choices : exits Q (inquirer type message choices).
Proof.
  intros s c. unfold inquirer, bind, emit; cbn. destruct (answers s); discriminate.
Qed.

End Endings.

(** Decompose a computation along its binds, down to steps that do not end
    the process. *)
Ltac quits :=
  unfold_primitives; unfold_primitives;
  repeat first
    [ match goal with H : _ |- _ => apply H end
    | lazymatch goal with
      | |- exits _ (inquirer _ _ _) => apply exits_inquirer
      | |- exits _ commit_message_loop => apply exits_loop
      | |- exits _ (finally _ _) => apply exits_finally
      | |- exits _ (bind _ _) => apply exits_bind; [| intros ?]
      | |- exits _ (match ?x with _ => _ end) => destruct x
      end
    | (intros ? ?; cbn; discriminate) ].

Section Exit.

Variable env : Env.

Lemma pullRemoteRepo_exits b opts :
  exits (after_failed_pull env) (pullRemoteRepo env b opts).
Proof.
  intros s c. unfold pullRemoteRepo, catch, call_, call, the_gitServer.
  unfold bind, log, emit, history, get_self, extend, ret, throw, process_exit; cbn.
  destruct (rejects env _) as [msg |] eqn:Hrej; cbn; [| discriminate].
  destruct (Js.includes _ msg); cbn.
  - destruct (gitServer (self s)); cbn; discriminate.
  - destruct (Js.includes _ msg); cbn; intros [= <-];
      (split; [reflexivity |]);
      eexists (trace s ++ [_]), b, opts, _, _; rewrite <- !app_assoc; cbn;
      (split; [reflexivity |]); rewrite <- app_assoc in Hrej; cbn in Hrej;
      rewrite Hrej; discriminate.
Qed.

(** X4: [commit] ends the process in one way only: with status 0, right
    after a pull was refused and the refusal was logged.  A refused push,
    checkout, status or listing is thrown, never turned into an exit. *)
Theorem commit_exits_only_after_failed_pull s c :
  (commit env s).1 = Exit c -> after_failed_pull env c (commit env s).2.
Proof.
  revert s c. change (exits (after_failed_pull env) (commit env)).
  pose proof pullRemoteRepo_exits.
  unfold commit, pullRemoteMasterAndBranch, getCorrectVersion,
    getRemoteBranchList, checkStash, checkConflicted, checkNotCommitted,
    checkoutBranch, pushRemoteRepo.
  quits.
Qed.

(** X5: [prepare] ends the process in one way only: with status 0, right
    after the pull of the first synchronisation was refused and the refusal
    was logged. *)
Theorem prepare_exits_only_after_failed_pull s c :
  (prepare env s).1 = Exit c -> after_failed_pull env c (prepare env s).2.
Proof.
  revert s c. change (exits (after_failed_pull env) (prepare env)).
  pose proof pullRemoteRepo_exits.
  unfold prepare, init, initCommit, checkHomePath, checkGitServer, checkGitToken,
    checkUserAndOrgs, checkGitOwner, checkRepo, checkGitIgnore, checkRemoteMaster,
    checkConflicted, checkNotCommitted, pushRemoteRepo.
  quits.
Qed.

End Exit.

Lemma commit_exits_only_after_failed_pull_witness :
  let env := Sample.with_git (Sample.pull_fails "fatal: unable to access remote")
               (fun _ => Sample.clean) "" in
  let s := Sample.prepared "1.0.0" [] in
  after_failed_pull env 0 (commit env s).2.
Proof.
  intros env s.
  apply (commit_exits_only_after_failed_pull env s 0). vm_compute. reflexivity.
Defined.

Lemma prepare_exits_only_after_failed_pull_witness :
  let env := not_yet_a_repository (Sample.pull_fails "fatal: unable to access remote")
               ("3b18e512dba79e4c8300dd08aeb37f8e728b8dad" +:+ Sample.tab
                +:+ "refs/heads/master") in
  let s := Sample.fresh "1.0.0" ["github"; "t0k"; "user"] in
  after_failed_pull env 0 (prepare env s).2.
Proof.
  intros env s.
  apply (prepare_exits_only_after_failed_pull env s 0). vm_compute. reflexivity.
Defined.

(** ** What [prepare] hands over *)

Section Handover.

Variable env : Env.

Lemma checkHomePath_ret s s' :
  checkHomePath env s = (Ret tt, s') -> homePath (self s') <> None.
Proof.
  intros H. unfold checkHomePath, ensureDirSync, existsSync in H.
  run_in H; injection H as <-; cbn; try discriminate.
  match goal with
  | Hf : Js.falsy (homePath (self s)) = false |- _ =>
      destruct (homePath (self s)); [discriminate | discriminate Hf]
  end.
Qed.

Lemma checkGitServer_homePath :
  respects (same (fun s => homePath (self s))) (checkGitServer env).
Proof. unfold checkGitServer. keeps (fun s => homePath (self s)). Qed.

Lemma checkGitToken_binds s s' :
  checkGitToken env s = (Ret tt, s') ->
  exists srv t,
    self s' = set_gitServer (Some {| kind := kind srv; server_token := Some t |})
                (set_token (Some t) (self s)).
Proof.
  intros H. unfold checkGitToken, createPath, ensureDirSync in H.
  unfold inquirer, writeFile, readFile, the_gitServer in H.
  run_in H; injection H as <-; cbn; simplify_eq; eauto.
Qed.

Lemma checkUserAndOrgs_binds s s' :
  checkUserAndOrgs env s = (Ret tt, s') ->
  exists u os, self s' = set_orgs (Some os) (set_user (Some u) (self s)).
Proof.
  intros H. unfold checkUserAndOrgs, the_gitServer in H.
  run_in H; injection H as <-; cbn; eauto.
Qed.

Lemma checkGitOwner_binds s s' :
  checkGitOwner env s = (Ret tt, s') ->
  exists o l, self s' = set_login (Some l) (set_owner o (self s)).
Proof.
  intros H. unfold checkGitOwner, createPath, ensureDirSync in H.
  unfold inquirer, writeFile, readFile, the_gitServer, the_orgs in H.
  run_in H; injection H as <-; cbn; eauto.
Qed.

Lemma checkRepo_binds s s' :
  checkRepo env s = (Ret tt, s') ->
  exists r, self s' = set_repo (Some r) (self s).
Proof.
  intros H. unfold checkRepo, finally, the_gitServer in H.
  run_in H; injection H as <-; cbn; eauto.
Qed.

Lemma checkGitIgnore_self : respects (same self) (checkGitIgnore env).
Proof. unfold checkGitIgnore. keeps self. Qed.

Lemma initCommit_self : respects (same self) (initCommit env).
Proof.
  unfold initCommit, checkRemoteMaster, checkConflicted, checkNotCommitted,
    pullRemoteRepo, pushRemoteRepo.
  keeps self.
Qed.

Lemma init_binds s s' :
  init env s = (Ret tt, s') ->
  exists url, self s' = set_remote (Some url) (self s).
Proof.
  intros H. unfold init in H. unbind H.
  unfold get_self in Hstep. injection Hstep as <- <-.
  unfold the_gitServer, bind, get_self, ret, throw in Hstep0; cbn in Hstep0.
  destruct (gitServer (self s)); [| discriminate]. injection Hstep0 as <- <-.
  unfold update_self in Hstep1. injection Hstep1 as <-.
  unfold existsSync in Hstep2. injection Hstep2 as <- <-.
  eexists.
  match type of H with
  | ?m ?t = _ =>
      assert (Hm : respects (same self) m)
        by (pose proof initCommit_self; keeps self);
      specialize (Hm t); rewrite H in Hm; exact Hm
  end.
Qed.

(** X6: when [prepare] returns, the object is ready for what comes after:
    the cache root is known, a hosting client is bound and holds the very
    token the object holds, and the account, its organisations, the login,
    the remote repository and the remote URL are all set. *)
Theorem prepare_returns_ready s s' :
  prepare env s = (Ret tt, s') -> ready (self s').
Proof.
  intros H. unfold prepare in H. unbind H.
  apply checkHomePath_ret in Hstep.
  pose proof (checkGitServer_homePath s0) as Hsrv. rewrite Hstep0 in Hsrv.
  unfold same in Hsrv; cbn in Hsrv.
  apply checkGitToken_binds in Hstep1 as (srv & t & H1).
  apply checkUserAndOrgs_binds in Hstep2 as (u & os & H2).
  apply checkGitOwner_binds in Hstep3 as (o & l & H3).
  apply checkRepo_binds in Hstep4 as (r & H4).
  pose proof (checkGitIgnore_self s5) as H5. rewrite Hstep5 in H5.
  unfold same in H5; cbn in H5.
  apply init_binds in H as (url & H6).
  rewrite H6, H5, H4, H3, H2, H1. unfold ready; cbn.
  rewrite Hsrv. repeat split; try discriminate; [assumption | eauto].
Qed.

End Handover.

Lemma prepare_returns_ready_witness :
  let s := Sample.fresh "1.0.0" ["github"; "t0k"; "user"] in
  ready (self (prepare Sample.quiet s).2).
Proof.
  intros s.
  apply (prepare_returns_ready Sample.quiet s (prepare Sample.quiet s).2).
  vm_compute. reflexivity.
Defined.

(** ** [indexOf] as a test for a substring *)

Lemma substring_prefix n h :
  substring 0 (String.length n) h = n -> exists post, h = n +:+ post.
Proof.
  revert h. induction n as [|a n IH]; intros h; cbn.
  - intros _. now exists h.
  - destruct h as [|c h]; cbn; [discriminate |].
    intros [= -> H]. destruct (IH _ H) as [post ->]. now exists post.
Qed.

Lemma substring_mentions m n h :
  n <> "" -> substring m (String.length n) h = n -> mentions n h.
Proof.
  intros Hn. revert h. induction m as [|m IH]; intros h H.
  - destruct (substring_prefix _ _ H) as [post ->]. now exists "", post.
  - destruct h as [|c h].
    + destruct n; [congruence | discriminate H].
    + cbn in H. destruct (IH _ H) as (pre & post & ->).
      now exists (String c pre), post.
Qed.

Lemma substring_here n post : substring 0 (String.length n) (n +:+ post) = n.
Proof.
  induction n as [|a n IH]; cbn.
  - destruct post; reflexivity.
  - rewrite append_cons; cbn. now rewrite IH.
Qed.

Lemma substring_there pre n post :
  substring (String.length pre) (String.length n) (pre +:+ n +:+ post) = n.
Proof.
  induction pre as [|c pre IH]; cbn.
  - exact (substring_here n post).
  - rewrite append_cons; cbn. exact IH.
Qed.

(** [hay.indexOf(needle) >= 0] holds exactly when [needle] occurs in [hay]. *)
Lemma includes_mentions n h : n <> "" -> Js.includes n h = true <-> mentions n h.
Proof.
  intros Hn. unfold Js.includes. split.
  - destruct (index 0 n h) as [m |] eqn:Hi; [| discriminate]. intros _.
    apply index_correct1 in Hi. exact (substring_mentions _ _ _ Hn Hi).
  - intros (pre & post & ->).
    destruct (index 0 n _) as [m |] eqn:Hi; [reflexivity | exfalso].
    apply (index_correct3 0 (String.length pre)) in Hi; [| assumption | apply Nat.le_0_l].
    apply Hi, substring_there.
Qed.

Section Refs.

Variable env : Env.

(** X7: [checkRemoteMaster] lists the remote refs once and answers by a
    search for the text [refs/heads/master] anywhere in the listing: the
    answer is yes exactly when that text occurs, whatever follows it, so a
    head such as [refs/heads/master-old] counts as [master]. *)
Theorem checkRemoteMaster_searches_the_listing s :
  let h := trace s ++ [GitListRemote ["--refs"]] in
  rejects env h = None ->
  exists answer,
    checkRemoteMaster env s = (Ret answer, extend s [GitListRemote ["--refs"]])
    /\ (answer = true <-> mentions "refs/heads/master" (git_listRemote env h)).
Proof.
  intros h Hok. unfold checkRemoteMaster, call, bind, emit, history, extend, ret; cbn.
  fold h. rewrite Hok. eexists. split; [reflexivity |].
  apply includes_mentions. discriminate.
Qed.

End Refs.

Lemma checkRemoteMaster_searches_the_listing_witness :
  let env := Sample.with_git (fun _ => None) (fun _ => Sample.clean)
               ("3b18e512dba79e4c8300dd08aeb37f8e728b8dad" +:+ Sample.tab
                +:+ "refs/heads/master-old") in
  (checkRemoteMaster env (Sample.fresh "1.0.0" [])).1 = Ret true.
Proof.
  intros env.
  destruct (checkRemoteMaster_searches_the_listing env (Sample.fresh "1.0.0" []) eq_refl)
    as (answer & -> & Hanswer).
  cbn. f_equal. apply Hanswer.
  now exists ("3b18e512dba79e4c8300dd08aeb37f8e728b8dad" +:+ Sample.tab), "-old".
Defined.

(** ** Pulling before [prepare] *)

Section Unprepared.

Variable env : Env.

(** X8: on an object that [prepare] has not bound to a hosting client, a
    pull refused for want of a registered SSH key does not produce the
    advice about SSH keys and does not end the process: reading the links
    off the missing client raises a [TypeError]. *)
Theorem pullRemoteRepo_without_client_raises_TypeError s b opts msg :
  rejects env (pulling s b opts) = Some msg ->
  Js.includes SSH_SIGNATURE msg = true ->
  gitServer (self s) = None ->
  pullRemoteRepo env b opts s
  = (Throw (TypeError "gitServer"),
     extend s [Log notice ("同步远程 " +:+ b +:+ " 分支代码"); GitPull "origin" b opts]).
Proof.
  intros Hrej Hssh Hnone.
  rewrite (pullRemoteRepo_rejected _ _ _ _ _ Hrej). cbn zeta.
  now rewrite Hssh, Hnone.
Qed.

End Unprepared.

Lemma pullRemoteRepo_without_client_raises_TypeError_witness :
  let msg := "git@github.com: Permission denied (publickey)." in
  let env := Sample.with_git (Sample.pull_fails msg) (fun _ => Sample.clean) "" in
  (pullRemoteRepo env "master" [] (Sample.fresh "1.0.0" [])).1
  = Throw (TypeError "gitServer").
Proof.
  intros msg env.
  rewrite (pullRemoteRepo_without_client_raises_TypeError env (Sample.fresh "1.0.0" [])
             "master" [] msg eq_refl eq_refl eq_refl).
  reflexivity.
Defined.

(** ** Commit messages *)

Section Messages.

Variable env : Env.

Lemma added_bind_ret {A B} P (G : A -> Prop) (m : M A) (k : A -> M B) :
  respects (added P) m ->
  (forall s a, (m s).1 = Ret a -> G a) ->
  (forall a, G a -> respects (added P) (k a)) ->
  respects (added P) (bind m k).
Proof.
  intros Hm HG Hk s. unfold bind. specialize (Hm s). specialize (HG s).
  destruct (m s) as [[a | e | c |] s1]; cbn in *; try assumption.
  eapply added_trans; [exact Hm | apply Hk, HG; reflexivity].
Qed.

Lemma checkNotCommitted_messages :
  respects (added commits_with_message) (checkNotCommitted env).
Proof.
  unfold checkNotCommitted.
  apply (respects_bind _ (added_trans _)); [adds ltac:(exact I) | intros st].
  destruct (any_pending st); [| adds ltac:(exact I)].
  do 6 (apply (respects_bind _ (added_trans _)); [adds ltac:(exact I) | intros ?]).
  apply (added_bind_ret _ (fun a => a <> "")).
  - apply added_loop. exact I.
  - intros t msg. unfold commit_message_loop.
    destruct (ask_commit_message (answers t) []) as [[o rest] shown] eqn:Hask.
    cbn. intros ->. exact (proj1 (ask_commit_message_ret _ _ _ _ _ Hask)).
  - intros msg Hmsg. adds ltac:(exact I || exact Hmsg).
Qed.

(** X9: no commit is ever made with an empty message.  Whatever the
    operator types and however the run ends, every commit that
    [checkNotCommitted] makes, on its own, within [prepare] or within
    [commit], carries a message that is not empty. *)
Theorem commits_always_carry_a_message s :
  added commits_with_message s (checkNotCommitted env s).2
  /\ added commits_with_message s (prepare env s).2
  /\ added commits_with_message s (commit env s).2.
Proof.
  pose proof checkNotCommitted_messages as Hstep.
  repeat split; revert s.
  - exact Hstep.
  - change (respects (added commits_with_message) (prepare env)).
    unfold prepare, init, initCommit, checkHomePath, checkGitServer, checkGitToken,
      checkUserAndOrgs, checkGitOwner, checkRepo, checkGitIgnore, checkRemoteMaster,
      checkConflicted, pullRemoteRepo, pushRemoteRepo.
    adds ltac:(exact I).
  - change (respects (added commits_with_message) (commit env)).
    unfold commit, pullRemoteMasterAndBranch, getCorrectVersion,
      getRemoteBranchList, checkStash, checkConflicted, checkoutBranch,
      pullRemoteRepo, pushRemoteRepo.
    adds ltac:(exact I).
Qed.

End Messages.

(** ** The account and the owner *)

Section Account.

Variable env : Env.

(** X10: [checkUserAndOrgs] asks the platform for the account and then for
    its organisations, and stores both answers, before it looks at either.
    It fails exactly when there is no account; the organisations are not
    examined, so an account without any passes. *)
Theorem checkUserAndOrgs_requires_the_account_only s srv :
  gitServer (self s) = Some srv ->
  rejects env (trace s ++ [HostGetUser]) = None ->
  rejects env (trace s ++ [HostGetUser; HostGetOrgs]) = None ->
  let u := host_getUser env (trace s ++ [HostGetUser]) in
  let os := host_getOrgs env (trace s ++ [HostGetUser; HostGetOrgs]) in
  let r := checkUserAndOrgs env s in
  user (self r.2) = u
  /\ orgs (self r.2) = Some os
  /\ (u = None ->
      r.1 = Throw (Error "用户或组织信息获取失败")
      /\ trace r.2 = trace s ++ [HostGetUser; HostGetOrgs])
  /\ (u <> None -> r.1 = Ret tt).
Proof.
  intros Hsrv Hrej1 Hrej2. cbn zeta. unfold checkUserAndOrgs.
  unfold bind, the_gitServer, get_self, update_self, call, log, emit, history,
    extend, ret, throw; cbn.
  rewrite Hsrv; cbn. rewrite Hrej1; cbn. rewrite Hsrv; cbn.
  rewrite <- app_assoc; cbn. rewrite Hrej2; cbn.
  destruct (host_getUser env (trace s ++ [HostGetUser])) as [u |]; cbn.
  - rewrite Hsrv; cbn. repeat split; congruence.
  - repeat split; congruence.
Qed.

End Account.

Lemma checkUserAndOrgs_requires_the_account_only_witness :
  let s := Sample.prepared "1.0.0" [] in
  let r := checkUserAndOrgs Sample.quiet s in
  r.1 = Ret tt /\ orgs (self r.2) = Some [].
Proof.
  intros s r.
  destruct (checkUserAndOrgs_requires_the_account_only Sample.quiet s
              {| kind := Github; server_token := Some "t0k" |} eq_refl eq_refl eq_refl)
    as (_ & Horgs & _ & Hret).
  split; [apply Hret; discriminate | exact Horgs].
Defined.

Section Owner.

Variable env : Env.
Hypothesis Hdirs : forall h, fs_ensureDirFails env h = None.

Lemma owner_condition s home :
  owner_is_cached env s home = false \/ refreshOwner (self s) = true ->
  Js.falsy (files s !! cache_path env home GIT_OWN_FILE)
  || Js.falsy (files s !! cache_path env home GIT_LOGIN_FILE)
  || refreshOwner (self s) = true.
Proof.
  intros [Hc | ->]; [| apply orb_true_r].
  unfold owner_is_cached in Hc.
  destruct (Js.falsy (files s !! _)); [reflexivity |].
  destruct (Js.falsy (files s !! _)); [reflexivity | discriminate].
Qed.

Lemma checkGitOwner_fresh_user s home srv os u rest :
  homePath (self s) = Some home ->
  gitServer (self s) = Some srv ->
  orgs (self s) = Some os ->
  user (self s) = Some u ->
  owner_is_cached env s home = false \/ refreshOwner (self s) = true ->
  answers s = REPO_OWNER_USER :: rest ->
  checkGitOwner env s
  = (Ret tt,
     {| self := set_login (Some (id_login u)) (set_owner REPO_OWNER_USER (self s));
        files := <[cache_path env home GIT_LOGIN_FILE := id_login u]>
                   (<[cache_path env home GIT_OWN_FILE := REPO_OWNER_USER]> (files s));
        answers := rest;
        trace := trace s ++ [FsEnsureDir (cache_root env home);
                             FsEnsureDir (cache_root env home);
                             Log notice (server_type srv +:+ " owner 未生成，先选择 owner");
                             OWNER_PROMPT os;
                             FsWrite (cache_path env home GIT_OWN_FILE) REPO_OWNER_USER;
                             FsWrite (cache_path env home GIT_LOGIN_FILE) (id_login u);
                             Log success "git owner写入成功";
                             Log success "git login写入成功"] |}).
Proof.
  intros Hhome Hsrv Horgs Huser Hmiss Hans.
  apply owner_condition in Hmiss.
  unfold checkGitOwner. unfold bind at 1.
  rewrite (createPath_ok env Hdirs _ _ _ Hhome). unfold bind at 1.
  rewrite createPath_ok with (home := home) by (assumption || exact Hhome).
  unfold bind, readFile, writeFile, inquirer, the_gitServer, the_orgs, get_self,
    update_self, log, emit, extend, ret, throw; cbn.
  rewrite Hmiss; cbn. rewrite Hsrv; cbn. rewrite Horgs; cbn. rewrite Hans; cbn.
  rewrite Huser; cbn. rewrite <- !app_assoc. reflexivity.
Qed.

Lemma checkGitOwner_fresh_org s home srv os a l rest :
  homePath (self s) = Some home ->
  gitServer (self s) = Some srv ->
  orgs (self s) = Some os ->
  a <> REPO_OWNER_USER ->
  owner_is_cached env s home = false \/ refreshOwner (self s) = true ->
  answers s = a :: l :: rest ->
  checkGitOwner env s
  = (Ret tt,
     {| self := set_login (Some l) (set_owner a (self s));
        files := <[cache_path env home GIT_LOGIN_FILE := l]>
                   (<[cache_path env home GIT_OWN_FILE := a]> (files s));
        answers := rest;
        trace := trace s ++ [FsEnsureDir (cache_root env home);
                             FsEnsureDir (cache_root env home);
                             Log notice (server_type srv +:+ " owner 未生成，先选择 owner");
                             OWNER_PROMPT os; ORG_PROMPT os;
                             FsWrite (cache_path env home GIT_OWN_FILE) a;
                             FsWrite (cache_path env home GIT_LOGIN_FILE) l;
                             Log success "git owner写入成功";
                             Log success "git login写入成功"] |}).
Proof.
  intros Hhome Hsrv Horgs Ha Hmiss Hans.
  apply owner_condition in Hmiss.
  unfold checkGitOwner. unfold bind at 1.
  rewrite (createPath_ok env Hdirs _ _ _ Hhome). unfold bind at 1.
  rewrite createPath_ok with (home := home) by (assumption || exact Hhome).
  unfold bind, readFile, writeFile, inquirer, the_gitServer, the_orgs, get_self,
    update_self, log, emit, extend, ret, throw; cbn.
  rewrite Hmiss; cbn. rewrite Hsrv; cbn. rewrite Horgs; cbn. rewrite Hans; cbn.
  destruct (String.eqb a REPO_OWNER_USER) eqn:Heq;
    [apply String.eqb_eq in Heq; contradiction |].
  cbn. rewrite <- !app_assoc. reflexivity.
Qed.

(** X11: the owner is two cache entries, the kind and the login, and
    [checkGitOwner] trusts the cache only when both are there and no refresh
    is asked for: then it asks nothing and takes both values from the cache.
    With either entry missing or empty, or with the refresh flag set, it
    puts the question about the kind of owner. *)
Theorem checkGitOwner_asks_unless_both_cached s home srv os :
  homePath (self s) = Some home ->
  gitServer (self s) = Some srv ->
  orgs (self s) = Some os ->
  (owner_is_cached env s home = true -> refreshOwner (self s) = false ->
   let r := checkGitOwner env s in
   r.1 = Ret tt
   /\ files r.2 !! cache_path env home GIT_OWN_FILE = Some (owner (self r.2))
   /\ files r.2 !! cache_path env home GIT_LOGIN_FILE = login (self r.2)
   /\ files r.2 = files s
   /\ exists evs, trace r.2 = trace s ++ evs /\ prompts evs = [])
  /\ (owner_is_cached env s home = false \/ refreshOwner (self s) = true ->
      asks (checkGitOwner env) s (OWNER_PROMPT os)).
Proof.
  intros Hhome Hsrv Horgs. split.
  - intros Hcached Hrefresh. unfold owner_is_cached in Hcached.
    apply andb_true_iff in Hcached as [Ho Hl].
    apply negb_true_iff, falsy_false in Ho as (ov & Hov & Hov').
    apply negb_true_iff, falsy_false in Hl as (lv & Hlv & Hlv').
    cbn zeta.
    rewrite (checkGitOwner_replay env Hdirs s home ov lv Hhome Hrefresh);
      [| split; assumption | split; assumption].
    cbn. repeat split; try assumption.
    eexists. split; reflexivity.
  - intros Hmiss. pose proof (owner_condition _ _ Hmiss) as Hcond.
    unfold checkGitOwner.
    eapply asks_seq;
      [apply (createPath_ok env Hdirs); exact Hhome | reflexivity | reflexivity |].
    eapply asks_seq;
      [apply (createPath_ok env Hdirs); exact Hhome | reflexivity | reflexivity |].
    eapply asks_seq; [reflexivity | symmetry; apply app_nil_r | reflexivity |].
    eapply asks_seq; [reflexivity | symmetry; apply app_nil_r | reflexivity |].
    eapply asks_seq; [reflexivity | symmetry; apply app_nil_r | reflexivity |].
    cbn [self files extend]. rewrite Hcond.
    apply asks_bind; [| intros; grows].
    eapply asks_seq;
      [unfold the_gitServer, bind, get_self; cbn; rewrite Hsrv; reflexivity
      | symmetry; apply app_nil_r | reflexivity |].
    eapply asks_seq; [reflexivity | reflexivity | reflexivity |].
    eapply asks_seq;
      [unfold the_orgs, bind, get_self; cbn; rewrite Horgs; reflexivity
      | symmetry; apply app_nil_r | reflexivity |].
    apply asks_inquirer. intros; grows.
Qed.

(** X12: when [checkGitOwner] asks, the answer [user] settles the login at
    once: it is the login of the account, and no second question is put.
    Any other answer is taken for an organisation: a second question lists
    the logins of the account's organisations, and its answer is the login.
    Both values are written to the cache and set on the object. *)
Theorem checkGitOwner_resolves_the_login s home srv os a rest :
  homePath (self s) = Some home ->
  gitServer (self s) = Some srv ->
  orgs (self s) = Some os ->
  owner_is_cached env s home = false \/ refreshOwner (self s) = true ->
  answers s = a :: rest ->
  let ownerPath := cache_path env home GIT_OWN_FILE in
  let loginPath := cache_path env home GIT_LOGIN_FILE in
  let r := checkGitOwner env s in
  (a = REPO_OWNER_USER -> forall u, user (self s) = Some u ->
     r.1 = Ret tt
     /\ owner (self r.2) = REPO_OWNER_USER /\ login (self r.2) = Some (id_login u)
     /\ files r.2 = <[loginPath := id_login u]> (<[ownerPath := REPO_OWNER_USER]> (files s))
     /\ answers r.2 = rest
     /\ prompts (trace r.2) = prompts (trace s) ++ [OWNER_PROMPT os])
  /\ (a <> REPO_OWNER_USER -> forall l rest', rest = l :: rest' ->
     r.1 = Ret tt
     /\ owner (self r.2) = a /\ login (self r.2) = Some l
     /\ files r.2 = <[loginPath := l]> (<[ownerPath := a]> (files s))
     /\ answers r.2 = rest'
     /\ prompts (trace r.2) = prompts (trace s) ++ [OWNER_PROMPT os; ORG_PROMPT os]).
Proof.
  intros Hhome Hsrv Horgs Hmiss Hans. cbn zeta. split.
  - intros -> u Hu.
    rewrite (checkGitOwner_fresh_user s home srv os u rest) by assumption.
    cbn. repeat split. rewrite !prompts_app. reflexivity.
  - intros Ha l rest' ->.
    rewrite (checkGitOwner_fresh_org s home srv os a l rest') by assumption.
    cbn. repeat split. rewrite !prompts_app. reflexivity.
Qed.

End Owner.

Lemma checkGitOwner_asks_unless_both_cached_witness :
  let disk := <["/home/sam/.imooc-cli/.git/.git_own" := "org"]>
                (<["/home/sam/.imooc-cli/.git/.git_login" := "acme"]> ∅) in
  (checkGitOwner Sample.quiet (signed_in [] disk [])).1 = Ret tt
  /\ asks (checkGitOwner Sample.quiet) (signed_in [] ∅ ["user"]) (OWNER_PROMPT []).
Proof.
  intros disk. split.
  - apply (checkGitOwner_asks_unless_both_cached Sample.quiet (fun _ => eq_refl)
             (signed_in [] disk []) "/home/sam/.imooc-cli"
             {| kind := Github; server_token := Some "t0k" |} []
             eq_refl eq_refl eq_refl);
      vm_compute; reflexivity.
  - apply (checkGitOwner_asks_unless_both_cached Sample.quiet (fun _ => eq_refl)
             (signed_in [] ∅ ["user"]) "/home/sam/.imooc-cli"
             {| kind := Github; server_token := Some "t0k" |} []
             eq_refl eq_refl eq_refl).
    left. vm_compute. reflexivity.
Defined.

Lemma checkGitOwner_resolves_the_login_witness :
  let acme := [{| id_login := "acme" |}] in
  login (self (checkGitOwner Sample.quiet (signed_in acme ∅ ["user"])).2) = Some "sam"
  /\ login (self (checkGitOwner Sample.quiet (signed_in acme ∅ ["org"; "acme"])).2)
     = Some "acme".
Proof.
  intros acme. split.
  - pose proof (checkGitOwner_resolves_the_login Sample.quiet (fun _ => eq_refl)
                  (signed_in acme ∅ ["user"]) "/home/sam/.imooc-cli"
                  {| kind := Github; server_token := Some "t0k" |} acme "user" []
                  eq_refl eq_refl eq_refl
                  ltac:(left; vm_compute; reflexivity) eq_refl) as [Huser _].
    destruct (Huser eq_refl {| id_login := "sam" |} eq_refl) as (_ & _ & H & _).
    exact H.
  - pose proof (checkGitOwner_resolves_the_login Sample.quiet (fun _ => eq_refl)
                  (signed_in acme ∅ ["org"; "acme"]) "/home/sam/.imooc-cli"
                  {| kind := Github; server_token := Some "t0k" |} acme "org" ["acme"]
                  eq_refl eq_refl eq_refl
                  ltac:(left; vm_compute; reflexivity) eq_refl) as [_ Horg].
    destruct (Horg ltac:(discriminate) "acme" [] eq_refl) as (_ & _ & H & _).
    exact H.
Defined.

(** ** The remote repository *)

(** Run a computation in the goal, case by case. *)
Ltac run_goal :=
  unfold bind, log, call_, call, emit, history, get_self, update_self, ret,
    throw, process_exit, extend;
  cbn;
  repeat (match goal with
          | |- context [rejects ?env ?h] => destruct (rejects env h) eqn:?
          | |- context [match ?x with _ => _ end] =>
              lazymatch x with
              | context [match _ with _ => _ end] => fail
              | _ => destruct x eqn:?
              end
          end; cbn).

Section Repository.

Variable env : Env.

(** X13: [checkRepo] never leaves the spinner turning.  However the step
    ends, and in particular when the platform refuses to create the
    repository, the spinner it started has been stopped. *)
Theorem checkRepo_always_stops_the_spinner s :
  exists evs, trace (checkRepo env s).2 = trace s ++ evs /\ spinning evs = false.
Proof.
  unfold checkRepo, finally, the_gitServer. run_goal;
    (eexists; split; [rewrite <- ?app_assoc; cbn; try reflexivity;
                      symmetry; apply app_nil_r
                     | reflexivity]).
Qed.

(** X14: when the platform has no repository of that name under the login,
    [checkRepo] creates one, once: under the account when the owner is
    [user], under the login as an organisation for any other owner.  A
    repository that comes back is stored on the object; when none comes
    back the step fails, and when the platform refuses the creation the
    refusal is passed on; in both cases the spinner is stopped first. *)
Theorem checkRepo_creates_the_missing_repository s srv :
  gitServer (self s) = Some srv ->
  let g := self s in
  let h1 := trace s ++ [HostGetRepo (login g) (name g)] in
  let h := h1 ++ [SpinnerStart "开始创建远程仓库..."; creation g] in
  rejects env h1 = None ->
  host_getRepo env h1 = None ->
  checkRepo env s
  = match rejects env h with
    | Some msg =>
        (Throw (Rejected msg),
         {| self := g; files := files s; answers := answers s;
            trace := h ++ [SpinnerStop] |})
    | None =>
        match created_by env g h with
        | Some r =>
            (Ret tt,
             {| self := set_repo (Some r) g; files := files s; answers := answers s;
                trace := h ++ [SpinnerStop; Log success "远程仓库创建成功";
                               Log success "远程仓库信息获取成功"] |})
        | None =>
            (Throw (Error "远程仓库创建失败"),
             {| self := g; files := files s; answers := answers s;
                trace := h ++ [SpinnerStop] |})
        end
    end.
Proof.
  intros Hsrv g h1 h Hok Hnone. subst g h1 h. unfold checkRepo, finally, the_gitServer.
  unfold creation, created_by.
  unfold bind, log, call, emit, history, get_self, update_self, ret, throw, extend;
    cbn.
  rewrite Hsrv; cbn. rewrite Hok, Hnone; cbn.
  destruct (String.eqb (owner (self s)) REPO_OWNER_USER); cbn;
    rewrite <- !app_assoc; cbn;
    destruct (rejects env (_ ++ [_; _; _])); cbn; rewrite <- ?app_assoc;
    try reflexivity.
  - destruct (host_createRepo env _); cbn; rewrite <- ?app_assoc; reflexivity.
  - destruct (host_createOrgRepo env _); cbn; rewrite <- ?app_assoc; reflexivity.
Qed.

End Repository.

Lemma checkRepo_creates_the_missing_repository_witness :
  let r := checkRepo without_repository (Sample.prepared "1.0.0" []) in
  r.1 = Ret tt /\ repo (self r.2) = Some {| repo_url := "git@github.com:sam/demo.git" |}.
Proof.
  intros r. subst r.
  rewrite (checkRepo_creates_the_missing_repository without_repository
             (Sample.prepared "1.0.0" [])
             {| kind := Github; server_token := Some "t0k" |} eq_refl
             eq_refl eq_refl).
  split; reflexivity.
Defined.

(** ** The files [prepare] writes *)

Section Footprint.

Variable env : Env.
Variables home wd : string.

Let P := within_own_files env home wd.
Let Inv := fun s : State => anchors s = (Some home, wd).

Lemma from_bind_ret {A B} (G : A -> Prop) (m : M A) (k : A -> M B) :
  respects (from Inv (added P)) m ->
  (forall s a, Inv s -> (m s).1 = Ret a -> G a) ->
  (forall a, G a -> respects (from Inv (added P)) (k a)) ->
  respects (from Inv (added P)) (bind m k).
Proof.
  intros Hm HG Hk s Hs. unfold bind.
  destruct (Hm s Hs) as [Hs1 H1]. specialize (HG s).
  destruct (m s) as [[a | e | c |] s1]; cbn in *; try (split; assumption).
  destruct (Hk a (HG a Hs eq_refl) s1 Hs1) as [Hs2 H2].
  split; [assumption | eapply added_trans; eassumption].
Qed.

Lemma createPath_from file : respects (from Inv (added P)) (createPath env file).
Proof.
  intros s Hs. unfold Inv, anchors in Hs. injection Hs as Hhome Hwd.
  unfold createPath, ensureDirSync. unfold Inv, anchors. run_goal;
    simplify_eq; (split; [congruence |]);
    try (exists []; split; [now rewrite app_nil_r | constructor]);
    (eexists [_]; split; [reflexivity |];
     constructor; [now right | constructor]).
Qed.

Lemma createPath_value file s a :
  Inv s -> (createPath env file s).1 = Ret a -> a = cache_path env home file.
Proof.
  intros Hs. unfold Inv, anchors in Hs. injection Hs as Hhome Hwd.
  unfold createPath, ensureDirSync. run_goal; simplify_eq; try discriminate.
  now intros [= <-].
Qed.

Ltac cached_step file :=
  apply (from_bind_ret (fun p => p = cache_path env home file));
  [apply createPath_from | intros ? ?; apply createPath_value | intros ? ->].

Ltac own_event := unfold P, within_own_files, own_files; cbn; tauto.

Lemma rest_from {A} (m : M A) :
  respects (same anchors) m -> respects (added P) m -> respects (from Inv (added P)) m.
Proof. intros H1 H2. exact (respects_from anchors (Some home, wd) _ m H1 H2). Qed.

Lemma checkGitServer_from : respects (from Inv (added P)) (checkGitServer env).
Proof.
  unfold checkGitServer. cached_step GIT_SERVER_FILE.
  apply rest_from; [keeps anchors | adds own_event].
Qed.

Lemma checkGitToken_from : respects (from Inv (added P)) (checkGitToken env).
Proof.
  unfold checkGitToken. cached_step GIT_TOKEN_FILE.
  apply rest_from; [keeps anchors | adds own_event].
Qed.

Lemma checkGitOwner_from : respects (from Inv (added P)) (checkGitOwner env).
Proof.
  unfold checkGitOwner. cached_step GIT_OWN_FILE. cached_step GIT_LOGIN_FILE.
  apply rest_from; [keeps anchors | adds own_event].
Qed.

Lemma checkGitIgnore_from : respects (from Inv (added P)) (checkGitIgnore env).
Proof.
  intros s Hs. split.
  - assert (H : respects (same anchors) (checkGitIgnore env))
      by (unfold checkGitIgnore; keeps anchors).
    unfold Inv in *. rewrite <- Hs. apply H.
  - unfold Inv, anchors in Hs. injection Hs as Hhome Hwd.
    unfold checkGitIgnore, existsSync, writeFile. run_goal.
    + eexists [_; _]. split; [now rewrite <- app_assoc |].
      constructor; [| constructor; [exact Logic.I | constructor]].
      unfold P, within_own_files, own_files. rewrite Hwd. cbn. tauto.
    + apply added_refl.
Qed.

Lemma checkHomePath_settles s :
  home = home_of env (homePath (self s)) -> wd = dir (self s) ->
  Inv (checkHomePath env s).2 /\ added P s (checkHomePath env s).2.
Proof.
  intros Hhome Hwd. unfold Inv, anchors, home_of in *.
  unfold checkHomePath, ensureDirSync, existsSync. run_goal;
    try match goal with
        | Hf : Js.falsy (homePath (self s)) = false |- _ =>
            apply falsy_false in Hf as (hp & Hhp & _); rewrite Hhp in *; cbn in *
        end;
    subst home wd;
    (split; [reflexivity |]);
    (eexists; split; [rewrite <- ?app_assoc; cbn; reflexivity |]);
    (constructor; [exact Logic.I | constructor; [now left | constructor]]).
Qed.

Lemma prepare_rest_from :
  respects (from Inv (added P))
    (checkGitServer env ;; checkGitToken env ;; checkUserAndOrgs env ;;
     checkGitOwner env ;; checkRepo env ;; checkGitIgnore env ;; init env).
Proof.
  pose proof checkGitServer_from. pose proof checkGitToken_from.
  pose proof checkGitOwner_from. pose proof checkGitIgnore_from.
  repeat (lazymatch goal with |- respects _ (bind _ _) => idtac end;
          apply (respects_bind _ (from_trans _ _ (added_trans _)));
          [try assumption | intros ?]);
    try assumption; apply rest_from.
  - unfold checkUserAndOrgs. keeps anchors.
  - unfold checkUserAndOrgs. adds own_event.
  - unfold checkRepo. keeps anchors.
  - unfold checkRepo. adds own_event.
  - unfold init, initCommit, checkRemoteMaster, checkConflicted, checkNotCommitted,
      pullRemoteRepo, pushRemoteRepo.
    keeps anchors.
  - unfold init, initCommit, checkRemoteMaster, checkConflicted, checkNotCommitted,
      pullRemoteRepo, pushRemoteRepo.
    adds own_event.
Qed.

End Footprint.

(** X15: [prepare] writes nothing but its own files.  Whatever the cache
    holds and however the run ends, every file it writes is one of the four
    cache entries under [<home>/.git] or the [.gitignore] of the project,
    and the only directories it creates are the cache root and its [.git]
    directory, where [home] is the cache root [checkHomePath] settles on. *)
Theorem prepare_writes_only_its_own_files env s :
  added (within_own_files env (home_of env (homePath (self s))) (dir (self s)))
    s (prepare env s).2.
Proof.
  set (home := home_of env (homePath (self s))). set (wd := dir (self s)).
  destruct (checkHomePath_settles env home wd s eq_refl eq_refl) as [Hinv Hadd].
  unfold prepare. unfold bind at 1.
  destruct (checkHomePath env s) as [[[] | e | c |] s1]; cbn in *; try assumption.
  eapply added_trans; [exact Hadd |].
  exact (proj2 (prepare_rest_from env home wd s1 Hinv)).
Qed.

(** ** Initialising the repository *)

Section Initialising.

Variable env : Env.

(** X16: in a project directory without [.git], [init] records the remote
    URL on the object, runs [git init], reads the remotes, adds [origin]
    with that URL unless a remote of that name is already there, and then
    goes on with [initCommit]. *)
Theorem init_adds_origin_unless_present s srv :
  gitServer (self s) = Some srv ->
  (forall h, rejects env h = None) ->
  let g := self s in
  let url := host_getRemote env (kind srv) (login g) (name g) in
  let h := trace s ++ [Log notice "执行 git 初始化"; GitInit (dir g);
                       Log notice "添加 git remote"; GitGetRemotes] in
  fs_existsSync env (trace s) (path_resolve env (dir g) GIT_ROOT_DIR) = false ->
  init env s
  = initCommit env
      {| self := set_remote (Some url) g; files := files s; answers := answers s;
         trace := h ++ Log verbose "git remotes"
                    :: (if Js.array_includes "origin" (git_getRemotes env h) then []
                        else [GitAddRemote "origin" url]) |}.
Proof.
  intros Hsrv Hok g url h Hgit. subst g url h. unfold init.
  generalize (initCommit env) as k; intros k.
  unfold bind, get_self, the_gitServer, update_self, existsSync, log, call_, call,
    emit, history, extend, ret; cbn.
  rewrite Hsrv; cbn. rewrite Hgit; cbn. rewrite Hok; cbn.
  rewrite <- !app_assoc; cbn. rewrite Hok; cbn.
  destruct (Js.array_includes "origin" _); cbn; [| rewrite Hok; cbn];
    rewrite <- !app_assoc; reflexivity.
Qed.

End Initialising.

Lemma init_adds_origin_unless_present_witness :
  let env := not_yet_a_repository (fun _ => None) "" in
  git_calls (trace (init env (Sample.prepared "1.0.0" [])).2)
  = [GitInit "/work/demo"; GitGetRemotes;
     GitAddRemote "origin" "git@github.com:undefined/demo.git";
     GitStatus; GitStatus; GitListRemote ["--refs"]; GitPush "origin" "master"].
Proof.
  intros env.
  rewrite (init_adds_origin_unless_present env (Sample.prepared "1.0.0" [])
             {| kind := Github; server_token := Some "t0k" |} eq_refl
             (fun _ => eq_refl) eq_refl).
  vm_compute. reflexivity.
Defined.

(** ** The cache root *)

Section Home.

Variable env : Env.

Lemma home_of_again x : home_of env (Some (home_of env x)) = home_of env x.
Proof.
  unfold home_of. destruct (Js.falsy x) eqn:Hx.
  - destruct (path_resolve env _ _); reflexivity.
  - apply falsy_false in Hx as (hp & -> & Hne). cbn.
    destruct hp; [congruence | reflexivity].
Qed.

(** X17: [checkHomePath] settles the cache root by precedence: the home
    given to the constructor when it is not empty, else [CLI_HOME] of the
    environment when it is not empty, resolved against the user's home, else
    [.imooc-cli] there.  The object holds that path however the step ends,
    and the step returns only when the directory is there after having been
    asked for; on an object that went through it once, it changes
    nothing. *)
Theorem checkHomePath_settles_the_cache_root s :
  let r := checkHomePath env s in
  (forall given, homePath (self s) = Some given -> given <> "" ->
     homePath (self r.2) = Some given)
  /\ (Js.falsy (homePath (self s)) = true ->
      forall e, env_CLI_HOME env = Some e -> e <> "" ->
      homePath (self r.2) = Some (path_resolve env (userHome env) e))
  /\ (Js.falsy (homePath (self s)) = true -> Js.falsy (env_CLI_HOME env) = true ->
      homePath (self r.2) = Some (path_resolve env (userHome env) DEFAULT_CLI_HOME))
  /\ (r.1 = Ret tt ->
      exists home before,
        homePath (self r.2) = Some home
        /\ trace r.2 = trace s ++ before ++ [FsEnsureDir home]
        /\ fs_existsSync env (trace r.2) home = true)
  /\ self (checkHomePath env r.2).2 = self r.2.
Proof.
  cbn zeta.
  assert (Hhome : forall t, homePath (self (checkHomePath env t).2)
                            = Some (home_of env (homePath (self t)))).
  { intros t.
    destruct (checkHomePath_settles env _ _ t eq_refl eq_refl) as [Hinv _].
    now injection Hinv. }
  assert (Hself : forall t,
             (exists hp, self (checkHomePath env t).2 = set_homePath (Some hp) (self t))
             \/ self (checkHomePath env t).2 = self t).
  { intros t. unfold checkHomePath, ensureDirSync, existsSync. run_goal; eauto. }
  repeat split.
  - intros given Hgiven Hne. rewrite Hhome, Hgiven. unfold home_of.
    destruct given; [congruence | reflexivity].
  - intros Hf e He Hne. rewrite Hhome. unfold home_of. rewrite Hf, He.
    destruct e; [congruence | reflexivity].
  - intros Hf He. rewrite Hhome. unfold home_of. now rewrite Hf, He.
  - clear Hhome Hself. unfold checkHomePath, ensureDirSync, existsSync.
    run_goal; try discriminate; intros _;
      try match goal with
          | Hf : Js.falsy (homePath (self s)) = false |- _ =>
              apply falsy_false in Hf as (hp & Hhp & _); rewrite Hhp in *; cbn in *
          end;
      match goal with
      | H : negb _ = false |- _ => apply negb_false_iff in H
      end;
      eexists _, [_]; (split; [reflexivity |]);
      (split; [rewrite <- ?app_assoc; reflexivity |]);
      rewrite <- ?app_assoc in *; cbn in *; assumption.
  - pose proof (Hhome s) as H1. pose proof (Hhome (checkHomePath env s).2) as H2.
    rewrite H1, home_of_again in H2.
    destruct (Hself (checkHomePath env s).2) as [[hp H] | H]; [| exact H].
    rewrite H in *. cbn in H2. injection H2 as ->.
    now apply set_homePath_same.
Qed.

End Home.

Lemma checkHomePath_settles_the_cache_root_witness :
  homePath (self (checkHomePath Sample.quiet (Sample.fresh "1.0.0" [])).2)
  = Some "/home/sam/.imooc-cli".
Proof.
  exact (proj1 (proj2 (proj2 (checkHomePath_settles_the_cache_root Sample.quiet
                                (Sample.fresh "1.0.0" []))))
           eq_refl eq_refl).
Defined.

(** ** A value in the cache that names no platform *)

Section Platform.

Variable env : Env.
Hypothesis Hdirs : forall h, fs_ensureDirFails env h = None.

(** X18: the cached platform is not validated.  When the cache holds a
    value that is neither [github] nor [gitee], [checkGitServer] accepts it
    without a question and leaves the object without a hosting client, and
    [checkGitToken] then fails with a [TypeError], whether or not a token is
    cached, before it asks anything or writes anything. *)
Theorem unknown_platform_in_cache_raises_TypeError s home sv :
  homePath (self s) = Some home ->
  refreshServer (self s) = false ->
  cached s (cache_path env home GIT_SERVER_FILE) sv ->
  sv <> GITHUB -> sv <> GITEE ->
  let r := (checkGitServer env ;; checkGitToken env) s in
  r.1 = Throw (TypeError "gitServer")
  /\ gitServer (self r.2) = None
  /\ files r.2 = files s
  /\ answers r.2 = answers s
  /\ exists evs, trace r.2 = trace s ++ evs /\ prompts evs = [].
Proof.
  intros Hhome Hrefresh Hcached Hgithub Hgitee. cbn zeta.
  assert (Hnone : createGitServer sv = None).
  { unfold createGitServer.
    destruct (String.eqb sv GITHUB) eqn:E1; [apply String.eqb_eq in E1; contradiction |].
    destruct (String.eqb sv GITEE) eqn:E2; [apply String.eqb_eq in E2; contradiction |].
    reflexivity. }
  remember ((checkGitServer env ;; checkGitToken env) s) as r eqn:Hr.
  unfold bind at 1 in Hr.
  rewrite (checkGitServer_replay env Hdirs s home sv Hhome Hrefresh Hcached) in Hr.
  rewrite Hnone in Hr. unfold checkGitToken in Hr. unfold bind at 1 in Hr.
  rewrite createPath_ok with (home := home) in Hr by (assumption || exact Hhome).
  unfold bind, readFile, the_gitServer, get_self, update_self, log, emit, extend,
    ret, throw in Hr; cbn in Hr.
  destruct (Js.falsy (files s !! _) || refreshToken (self s)); cbn in Hr;
    subst r; cbn; repeat split; eexists; rewrite <- !app_assoc; split; reflexivity.
Qed.

End Platform.

Lemma unknown_platform_in_cache_raises_TypeError_witness :
  let disk := <["/home/sam/.imooc-cli/.git/.git_server" := "gitlab"]> ∅ in
  ((checkGitServer Sample.quiet ;; checkGitToken Sample.quiet)
     (signed_in [] disk [])).1 = Throw (TypeError "gitServer").
Proof.
  intros disk.
  apply (unknown_platform_in_cache_raises_TypeError Sample.quiet (fun _ => eq_refl)
           (signed_in [] disk []) "/home/sam/.imooc-cli" "gitlab" eq_refl eq_refl).
  - split; [vm_compute; reflexivity | discriminate].
  - discriminate.
  - discriminate.
Defined.

(** ** The token *)

Section Token.

Variable env : Env.
Hypothesis Hdirs : forall h, fs_ensureDirFails env h = None.

Lemma checkGitToken_asks s home srv :
  homePath (self s) = Some home ->
  gitServer (self s) = Some srv ->
  Js.falsy (files s !! cache_path env home GIT_TOKEN_FILE) || refreshToken (self s) = true ->
  asks (checkGitToken env) s TOKEN_PROMPT.
Proof.
  intros Hhome Hsrv Hcond. unfold checkGitToken.
  eapply asks_seq;
    [apply (createPath_ok env Hdirs); exact Hhome | reflexivity | reflexivity |].
  eapply asks_seq; [reflexivity | symmetry; apply app_nil_r | reflexivity |].
  eapply asks_seq; [reflexivity | symmetry; apply app_nil_r | reflexivity |].
  cbn [self files extend]. rewrite Hcond.
  apply asks_bind; [| intros; grows].
  eapply asks_seq;
    [unfold the_gitServer, bind, get_self; cbn; rewrite Hsrv; reflexivity
    | symmetry; apply app_nil_r | reflexivity |].
  eapply asks_seq; [reflexivity | reflexivity | reflexivity |].
  apply asks_inquirer. intros; grows.
Qed.

Lemma checkGitToken_fresh s home srv a rest :
  homePath (self s) = Some home ->
  gitServer (self s) = Some srv ->
  Js.falsy (files s !! cache_path env home GIT_TOKEN_FILE) || refreshToken (self s) = true ->
  answers s = a :: rest ->
  checkGitToken env s
  = (Ret tt,
     {| self := set_gitServer (Some {| kind := kind srv; server_token := Some a |})
                  (set_token (Some a) (self s));
        files := <[cache_path env home GIT_TOKEN_FILE := a]> (files s);
        answers := rest;
        trace := trace s ++ [FsEnsureDir (cache_root env home);
                             Log notice (server_type srv +:+ " token未生成");
                             TOKEN_PROMPT;
                             FsWrite (cache_path env home GIT_TOKEN_FILE) a;
                             Log success "token 写入成功"; HostSetToken a] |}).
Proof.
  intros Hhome Hsrv Hcond Hans. unfold checkGitToken. unfold bind at 1.
  rewrite (createPath_ok env Hdirs _ _ _ Hhome).
  unfold bind, readFile, writeFile, inquirer, the_gitServer, get_self, update_self,
    log, emit, extend, ret, throw; cbn.
  rewrite Hcond; cbn. rewrite Hsrv; cbn. rewrite Hans; cbn. rewrite Hsrv; cbn.
  rewrite <- !app_assoc. reflexivity.
Qed.

(** X19: the token is not validated either.  When [checkGitToken] asks and
    the operator enters nothing, the empty token is written to the cache,
    set on the object and handed to the hosting client, and the step
    returns.  An empty cache entry counts as no entry, so the next
    [checkGitToken] asks again, with or without the refresh flag. *)
Theorem checkGitToken_accepts_an_empty_token s home srv rest :
  homePath (self s) = Some home ->
  gitServer (self s) = Some srv ->
  Js.falsy (files s !! cache_path env home GIT_TOKEN_FILE) || refreshToken (self s) = true ->
  answers s = "" :: rest ->
  let r := checkGitToken env s in
  r.1 = Ret tt
  /\ token (self r.2) = Some ""
  /\ gitServer (self r.2) = Some {| kind := kind srv; server_token := Some "" |}
  /\ files r.2 !! cache_path env home GIT_TOKEN_FILE = Some ""
  /\ asks (checkGitToken env) r.2 TOKEN_PROMPT.
Proof.
  intros Hhome Hsrv Hcond Hans. cbn zeta.
  rewrite (checkGitToken_fresh s home srv "" rest) by assumption.
  cbn. repeat split.
  - apply lookup_insert_eq.
  - apply (checkGitToken_asks _ home {| kind := kind srv; server_token := Some "" |});
      cbn; [assumption | reflexivity |].
    now rewrite lookup_insert_eq.
Qed.

End Token.

Lemma checkGitToken_accepts_an_empty_token_witness :
  let r := checkGitToken Sample.quiet (signed_in [] ∅ [""; "t0k"]) in
  r.1 = Ret tt /\ token (self r.2) = Some "".
Proof.
  intros r.
  destruct (checkGitToken_accepts_an_empty_token Sample.quiet (fun _ => eq_refl)
              (signed_in [] ∅ [""; "t0k"]) "/home/sam/.imooc-cli"
              {| kind := Github; server_token := Some "t0k" |} ["t0k"])
    as (Hret & Htoken & _);
    [reflexivity | reflexivity | vm_compute; reflexivity | reflexivity |].
  split; assumption.
Defined.

(** ** Reading the remote refs *)

Section Listing.

Variable env : Env.

(** X20: [getRemoteBranchList] lists only what the remote has.  Every
    version it returns is one the semver package accepts and is read off a
    line of the listing that names it under the channel scanned:
    [refs/tags/release/] for the type [release], [refs/heads/dev/] for any
    other type or none. *)
Theorem getRemoteBranchList_lists_only_remote_versions type s l s' :
  getRemoteBranchList env type s = (Ret l, s') ->
  let listing := git_listRemote env (trace s ++ [GitListRemote ["--refs"]]) in
  let channel := match type with
                 | Some t => if String.eqb t "release" then "refs/tags/release/"
                             else "refs/heads/dev/"
                 | None => "refs/heads/dev/"
                 end in
  forall v, In v l ->
    semver_valid env v = true
    /\ exists line, In line (Js.split_lines listing) /\ mentions (channel +:+ v) line.
Proof.
  intros H listing channel v Hv.
  unfold getRemoteBranchList in H. run_in H. injection H as <- <-.
  apply (branchList_sound env type). exact Hv.
Qed.

Lemma exec_from_start lit s :
  Regex.exec lit 0 s
  = match Regex.search lit s 0 with
    | Some (cap, e) => (Some cap, e)
    | None => (None, 0)
    end.
Proof. unfold Regex.exec. destruct s; reflexivity. Qed.

Lemma exec_none lit i s : (Regex.exec lit i s).1 = None -> Regex.exec lit i s = (None, 0).
Proof.
  unfold Regex.exec. destruct (_ <? _)%nat; [reflexivity |].
  destruct (Regex.search _ _ _) as [[cap e] |]; [discriminate | reflexivity].
Qed.

Lemma version_at_truthy s cap : Regex.version_at s = Some cap -> Js.truthy cap = true.
Proof.
  unfold Regex.version_at.
  destruct (Regex.digits s) as [[|c d1] r1]; [discriminate |].
  destruct (Regex.dot r1) as [r1' |]; [| discriminate].
  destruct (Regex.digits r1') as [[|c2 d2] r2]; [discriminate |].
  destruct (Regex.dot r2) as [r2' |]; [| discriminate].
  destruct (Regex.digits r2') as [[|c3 d3] r3]; [discriminate |].
  intros [= <-]. reflexivity.
Qed.

Lemma match_at_truthy lit s cap n : Regex.match_at lit s = Some (cap, n) -> Js.truthy cap = true.
Proof.
  revert n. induction s as [|c s IH]; intros n; cbn; [discriminate |].
  destruct (Regex.line_terminator c); [discriminate |].
  unfold Regex.tail_at at 1.
  destruct (Regex.literal lit s) as [r |].
  - destruct (Regex.version_at r) as [cap' |] eqn:Hv.
    + intros [= <- _]. exact (version_at_truthy _ _ Hv).
    + destruct (Regex.match_at lit s) as [[cap' n'] |]; [| discriminate].
      intros [= <- _]. eauto.
  - destruct (Regex.match_at lit s) as [[cap' n'] |]; [| discriminate].
    intros [= <- _]. eauto.
Qed.

Lemma search_truthy lit s pos cap e :
  Regex.search lit s pos = Some (cap, e) -> Js.truthy cap = true.
Proof.
  revert pos. induction s as [|c s IH]; intros pos; rewrite search_unfold.
  - cbn. discriminate.
  - destruct (Regex.match_at lit (String c s)) as [[cap' n] |] eqn:Hm.
    + intros [= <- _]. exact (match_at_truthy _ _ _ _ Hm).
    + apply IH.
Qed.

Lemma scan_lines_unmatched lit before rest :
  Forall (no_match lit) before ->
  scan_lines env lit 0 (before ++ rest)
  = map (fun _ => None) before ++ scan_lines env lit 0 rest.
Proof.
  induction 1 as [|line before Hline _ IH]; [reflexivity |].
  cbn [app scan_lines map]. rewrite (exec_none _ _ _ Hline). now rewrite IH.
Qed.

Lemma keep_truthy_none {A} (l : list A) rest :
  keep_truthy (map (fun _ => None) l ++ rest) = keep_truthy rest.
Proof. induction l; cbn; [reflexivity | assumption]. Qed.

Lemma keep_truthy_some v l :
  Js.truthy v = true -> keep_truthy (Some v :: l) = v :: keep_truthy l.
Proof. intros H. unfold keep_truthy. cbn. now rewrite H. Qed.

(** X21: the first head of the channel in the listing is always found.  If
    the expression matches a line with a version the semver package accepts,
    and no line above it matches, that version is the first entry of what
    [getRemoteBranchList] returns. *)
Theorem getRemoteBranchList_finds_the_first_head type s before line after cap e :
  let h := trace s ++ [GitListRemote ["--refs"]] in
  rejects env h = None ->
  Js.split_lines (git_listRemote env h) = before ++ line :: after ->
  Forall (no_match (branch_literal type)) before ->
  Regex.exec (branch_literal type) 0 line = (Some cap, e) ->
  semver_valid env cap = true ->
  exists rest, (getRemoteBranchList env type s).1 = Ret (cap :: rest).
Proof.
  intros h Hok Hlines Hbefore Hline Hvalid.
  unfold getRemoteBranchList, call, bind, emit, history, extend, ret; cbn.
  fold h. rewrite Hok; cbn. unfold branchList. rewrite Hlines.
  rewrite (scan_lines_unmatched _ _ _ Hbefore), keep_truthy_none.
  cbn [scan_lines]. rewrite Hline, Hvalid.
  assert (Ht : Js.truthy cap = true).
  { rewrite exec_from_start in Hline.
    destruct (Regex.search _ _ _) as [[cap' e'] |] eqn:Hs; [| discriminate].
    injection Hline as -> _. exact (search_truthy _ _ _ _ _ Hs). }
  rewrite (keep_truthy_some _ _ Ht). eexists. reflexivity.
Qed.

Lemma every_app p a b : every p (a +:+ b) = every p a && every p b.
Proof.
  induction a as [|c a IH]; [reflexivity |].
  rewrite append_cons. cbn. rewrite IH. apply andb_assoc.
Qed.

Lemma digits_run d suf :
  every Regex.is_digit d = true -> starts_with_digit suf = false ->
  Regex.digits (d +:+ suf) = (d, suf).
Proof.
  intros Hd Hsuf. induction d as [|c d IH].
  - change ("" +:+ suf) with suf. destruct suf as [|c r]; [reflexivity |].
    cbn in *. now rewrite Hsuf.
  - rewrite append_cons. cbn in *. apply andb_true_iff in Hd as [-> Hd].
    now rewrite (IH Hd).
Qed.

Lemma number_run d :
  number d = true -> exists c r, d = String c r /\ every Regex.is_digit d = true.
Proof.
  unfold number. destruct d as [|c r]; [discriminate |]. cbn. eauto.
Qed.

Lemma dot_reads x : Regex.dot ("." +:+ x) = Some x.
Proof. reflexivity. Qed.

Lemma version_at_reads d1 d2 d3 suf :
  number d1 = true -> number d2 = true -> number d3 = true ->
  starts_with_digit suf = false ->
  Regex.version_at (d1 +:+ "." +:+ d2 +:+ "." +:+ d3 +:+ suf)
  = Some (d1 +:+ "." +:+ d2 +:+ "." +:+ d3).
Proof.
  intros H1 H2 H3 Hsuf.
  apply number_run in H1 as (c1 & r1 & E1 & H1).
  apply number_run in H2 as (c2 & r2 & E2 & H2).
  apply number_run in H3 as (c3 & r3 & E3 & H3).
  subst d1 d2 d3. unfold Regex.version_at.
  rewrite digits_run by (assumption || reflexivity).
  rewrite dot_reads. cbv beta iota.
  rewrite digits_run by (assumption || reflexivity).
  rewrite dot_reads. cbv beta iota.
  rewrite digits_run by assumption. reflexivity.
Qed.

Lemma literal_reads lit r : Regex.literal lit (lit +:+ r) = Some r.
Proof.
  induction lit as [|c lit IH]; [destruct r; reflexivity |].
  rewrite append_cons. cbn. now rewrite Ascii.eqb_refl.
Qed.

Lemma tail_at_reads lit v rest :
  Regex.version_at (v +:+ rest) = Some v ->
  Regex.tail_at lit (lit +:+ v +:+ rest)
  = Some (v, (String.length lit + String.length v)%nat).
Proof. intros Hv. unfold Regex.tail_at. now rewrite literal_reads, Hv. Qed.

Lemma tail_at_elsewhere lit c s :
  Ascii.eqb c "r"%char = false -> Regex.tail_at (String "r" lit) (String c s) = None.
Proof.
  intros Hc. unfold Regex.tail_at. cbn [Regex.literal].
  rewrite Ascii.eqb_sym, Hc. reflexivity.
Qed.

Lemma match_at_reads lit pre v rest :
  Js.truthy pre = true -> every before_ref pre = true ->
  Regex.version_at (v +:+ rest) = Some v ->
  Regex.match_at (String "r" lit) (pre +:+ String "r" lit +:+ v +:+ rest)
  = Some (v, (String.length pre + (String.length (String "r" lit) + String.length v))%nat).
Proof.
  intros Hpre Hevery Hv. induction pre as [|c pre IH]; [discriminate |].
  rewrite append_cons. cbn [every] in Hevery.
  apply andb_true_iff in Hevery as [Hc Hevery].
  unfold before_ref in Hc. apply andb_true_iff in Hc as [Hterm Hr].
  apply negb_true_iff in Hterm. cbn [Regex.match_at]. rewrite Hterm.
  destruct pre as [|c' pre].
  - change ("" +:+ ?x) with x. rewrite (tail_at_reads _ _ _ Hv). reflexivity.
  - rewrite append_cons. cbn [every] in Hevery.
    pose proof Hevery as Hevery'.
    apply andb_true_iff in Hevery' as [Hc' _].
    unfold before_ref in Hc'. apply andb_true_iff in Hc' as [_ Hr'].
    apply negb_true_iff in Hr'. rewrite (tail_at_elsewhere _ _ _ Hr').
    rewrite <- append_cons. rewrite (IH eq_refl Hevery). reflexivity.
Qed.

Lemma split_lines_aux_one cur s :
  every no_line_feed s = true -> Js.split_lines_aux cur s = [cur s].
Proof.
  revert cur. induction s as [|c s IH]; intros cur H; [reflexivity |].
  cbn in *. apply andb_true_iff in H as [Hc H]. unfold no_line_feed in Hc.
  apply negb_true_iff in Hc. rewrite Hc. now rewrite IH.
Qed.

Lemma every_weaken (p q : ascii -> bool) s :
  (forall c, p c = true -> q c = true) -> every p s = true -> every q s = true.
Proof.
  intros Hpq. induction s as [|c s IH]; [reflexivity |]. cbn.
  intros H. apply andb_true_iff in H as [Hc H]. now rewrite (Hpq _ Hc), IH.
Qed.

Lemma digit_no_line_feed c : Regex.is_digit c = true -> no_line_feed c = true.
Proof.
  intros H. unfold no_line_feed. destruct (Ascii.eqb_spec c "010"%char); [| reflexivity].
  subst c. discriminate H.
Qed.

Lemma before_ref_no_line_feed c : before_ref c = true -> no_line_feed c = true.
Proof.
  unfold before_ref, Regex.line_terminator, no_line_feed.
  destruct (Ascii.eqb c "010"%char); [discriminate | reflexivity].
Qed.

Lemma number_no_line_feed d : number d = true -> every no_line_feed d = true.
Proof.
  intros H. apply number_run in H as (_ & _ & _ & H).
  exact (every_weaken _ _ _ digit_no_line_feed H).
Qed.

Lemma branch_literal_shape type :
  exists lit, branch_literal type = String "r" lit
              /\ every no_line_feed (branch_literal type) = true.
Proof.
  unfold branch_literal. destruct type as [t |]; [destruct (String.eqb t _) |];
    eexists; split; reflexivity.
Qed.

(** X22: on a line of the listing, [getRemoteBranchList] reads the three
    numbers that follow the channel name and ignores whatever comes after
    them.  For a listing of one line, made of an object id and a tab, the
    channel name, [d1.d2.d3] and any rest that does not go on with a digit,
    the result is [d1.d2.d3] if the semver package accepts it and nothing
    otherwise: [refs/heads/dev/1.2.3-rc1] is listed as [1.2.3]. *)
Theorem getRemoteBranchList_ignores_what_follows_the_version type pre d1 d2 d3 suf :
  Js.truthy pre = true -> every before_ref pre = true ->
  number d1 = true -> number d2 = true -> number d3 = true ->
  starts_with_digit suf = false -> every no_line_feed suf = true ->
  let v := d1 +:+ "." +:+ d2 +:+ "." +:+ d3 in
  branchList env type (pre +:+ branch_literal type +:+ v +:+ suf)
  = if semver_valid env v then [v] else [].
Proof.
  intros Hpre Hbefore H1 H2 H3 Hsuf Hfeed v.
  pose proof (version_at_reads d1 d2 d3 suf H1 H2 H3 Hsuf) as Hv.
  assert (Hline : every no_line_feed (pre +:+ branch_literal type +:+ v +:+ suf) = true).
  { destruct (branch_literal_shape type) as (lit & _ & Hlit).
    subst v. rewrite !every_app, Hlit, Hfeed.
    rewrite (every_weaken _ _ _ before_ref_no_line_feed Hbefore).
    rewrite (number_no_line_feed _ H1), (number_no_line_feed _ H2),
      (number_no_line_feed _ H3).
    reflexivity. }
  assert (Ht : Js.truthy v = true).
  { apply number_run in H1 as (c & r & -> & _). reflexivity. }
  unfold branchList, Js.split_lines. rewrite (split_lines_aux_one _ _ Hline).
  cbn [scan_lines]. rewrite exec_from_start, search_unfold.
  destruct (branch_literal_shape type) as (lit & -> & _).
  replace (d1 +:+ "." +:+ d2 +:+ "." +:+ d3 +:+ suf) with (v +:+ suf) in Hv
    by (subst v; now rewrite !append_assoc).
  rewrite (match_at_reads lit pre v suf Hpre Hbefore Hv).
  destruct (semver_valid env v).
  - now rewrite (keep_truthy_some _ _ Ht).
  - reflexivity.
Qed.

End Listing.

Lemma getRemoteBranchList_finds_the_first_head_witness :
  let env := Sample.with_git (fun _ => None) (fun _ => Sample.clean) two_dev_heads in
  exists rest, (getRemoteBranchList env None (Sample.fresh "1.1.0" [])).1
               = Ret ("1.0.0" :: rest).
Proof.
  intros env.
  apply (getRemoteBranchList_finds_the_first_head env None (Sample.fresh "1.1.0" []) []
           ("3b18e512dba79e4c8300dd08aeb37f8e728b8dad" +:+ Sample.tab
            +:+ "refs/heads/dev/1.0.0")
           ["9d4c2f7a1e6b5d3c8f0a2b4c6d8e0f1a3b5c7d9e" +:+ Sample.tab
            +:+ "refs/heads/dev/1.1.0"] "1.0.0" 61);
    try (vm_compute; reflexivity).
  constructor.
Defined.

Lemma getRemoteBranchList_ignores_what_follows_the_version_witness :
  branchList Sample.quiet None
    ("3b18e512dba79e4c8300dd08aeb37f8e728b8dad" +:+ Sample.tab
     +:+ "refs/heads/dev/" +:+ ("1" +:+ "." +:+ "2" +:+ "." +:+ "3") +:+ "-rc1")
  = ["1.2.3"].
Proof.
  exact (getRemoteBranchList_ignores_what_follows_the_version Sample.quiet None
           ("3b18e512dba79e4c8300dd08aeb37f8e728b8dad" +:+ Sample.tab) "1" "2" "3" "-rc1"
           eq_refl eq_refl eq_refl eq_refl eq_refl eq_refl eq_refl).
Defined.

Lemma getRemoteBranchList_lists_only_remote_versions_witness :
  let env := Sample.with_git (fun _ => None) (fun _ => Sample.clean) one_good_one_bad in
  Semver.valid "1.0.0" = true
  /\ exists line, In line (Js.split_lines one_good_one_bad)
                  /\ mentions ("refs/heads/dev/" +:+ "1.0.0") line.
Proof.
  intros env.
  apply (getRemoteBranchList_lists_only_remote_versions env None (Sample.fresh "1.0.0" [])
           ["1.0.0"]
           (getRemoteBranchList env None (Sample.fresh "1.0.0" [])).2).
  - vm_compute. reflexivity.
  - now left.
Defined.

(** ** Publishing *)

Section Publish.

Variable env : Env.
Variable new_CloudBuild : Git -> string -> bool -> CloudBuild.
Hypothesis Hdirs : forall h, fs_ensureDirFails env h = None.

(** X23: [publish] has no refresh: whatever the refresh flags of the
    object, a publish target found in the cache is used as it is, without a
    question and without a check against the table of targets.  The build
    collaborator is made from the object, that target and the production
    flag, and its phases run in the order prepare, init, build, each only if
    the one before returned. *)
Theorem publish_uses_the_cached_target s home target :
  homePath (self s) = Some home ->
  cached s (cache_path env home GIT_PUBLISH_FILE) target ->
  publish env new_CloudBuild s
  = phases (new_CloudBuild (self s) target (prod (self s)))
      (extend s [Log notice "开始发布"; FsEnsureDir (cache_root env home);
                 Log success "git publish类型获取成功"]).
Proof.
  intros Hhome [Hfile Hne]. unfold publish, phases, createPath, ensureDirSync.
  unfold cache_path, cache_root in *.
  unfold bind, readFile, log, emit, history, get_self, extend, ret; cbn.
  rewrite Hhome; cbn. rewrite Hdirs; cbn. rewrite Hfile.
  destruct target as [|c target]; [congruence |]. cbn.
  rewrite <- !app_assoc. reflexivity.
Qed.

(** X24: without a publish target in the cache, [publish] asks for one,
    once, writes the answer to the cache and builds with it. *)
Theorem publish_asks_for_the_target_and_keeps_it s home a rest :
  homePath (self s) = Some home ->
  Js.falsy (files s !! cache_path env home GIT_PUBLISH_FILE) = true ->
  answers s = a :: rest ->
  publish env new_CloudBuild s
  = phases (new_CloudBuild (self s) a (prod (self s)))
      {| self := self s;
         files := <[cache_path env home GIT_PUBLISH_FILE := a]> (files s);
         answers := rest;
         trace := trace s ++ [Log notice "开始发布"; FsEnsureDir (cache_root env home);
                              PUBLISH_PROMPT;
                              FsWrite (cache_path env home GIT_PUBLISH_FILE) a;
                              Log success "git publish类型写入成功"] |}.
Proof.
  intros Hhome Hnone Hans. unfold publish, phases, createPath, ensureDirSync.
  unfold PUBLISH_PROMPT, cache_path, cache_root in *.
  unfold bind, readFile, writeFile, inquirer, log, emit, history, get_self, extend,
    ret; cbn.
  rewrite Hhome; cbn. rewrite Hdirs; cbn. rewrite Hnone; cbn. rewrite Hans; cbn.
  rewrite <- !app_assoc. reflexivity.
Qed.

End Publish.

Lemma publish_uses_the_cached_target_witness :
  let disk := <["/home/sam/.imooc-cli/.git/.git_publish" := "oss"]> ∅ in
  let r := publish Sample.quiet logging_build (signed_in [] disk []) in
  r.1 = Ret tt /\ prompts (trace r.2) = [].
Proof.
  intros disk r. subst r.
  rewrite (publish_uses_the_cached_target Sample.quiet logging_build (fun _ => eq_refl)
             (signed_in [] disk []) "/home/sam/.imooc-cli" "oss" eq_refl).
  - split; reflexivity.
  - split; [vm_compute; reflexivity | discriminate].
Defined.

Lemma publish_asks_for_the_target_and_keeps_it_witness :
  let r := publish Sample.quiet logging_build (signed_in [] ∅ ["oss"]) in
  r.1 = Ret tt
  /\ files r.2 !! "/home/sam/.imooc-cli/.git/.git_publish" = Some "oss".
Proof.
  intros r. subst r.
  rewrite (publish_asks_for_the_target_and_keeps_it Sample.quiet logging_build
             (fun _ => eq_refl) (signed_in [] ∅ ["oss"]) "/home/sam/.imooc-cli"
             "oss" []).
  - split; vm_compute; reflexivity.
  - reflexivity.
  - vm_compute. reflexivity.
  - reflexivity.
Defined.

(** ** Runs of [commit] that reach their end *)

Section Completion.

Variable env : Env.

(** The calls that are not refused. *)
Variable ok : Event -> Prop.
Hypothesis Hok : forall h e, ok e -> rejects env (h ++ [e]) = None.
Hypothesis Hclean : forall h, conflicted (git_status env h) = [].

Lemma returns_bind {A B} pre (m : M A) mid (k : A -> M B) post :
  returns pre m mid -> (forall a, returns (mid a) (k a) post) ->
  returns pre (bind m k) post.
Proof.
  intros Hm Hk s Hs. destruct (Hm s Hs) as (a & s1 & E & H1).
  unfold bind. rewrite E. exact (Hk a s1 H1).
Qed.

Lemma returns_weaken {A} (pre pre' : State -> Prop) (m : M A)
    (post post' : A -> State -> Prop) :
  returns pre' m post' ->
  (forall s, pre s -> pre' s) -> (forall a s, post' a s -> post a s) ->
  returns pre m post.
Proof.
  intros Hm Hpre Hpost s Hs. destruct (Hm s (Hpre s Hs)) as (a & s1 & E & H1). eauto.
Qed.

Lemma ends_bind {A B} pre (m : M A) mid (k : A -> M B) post :
  returns pre m mid -> (forall a, ends (mid a) (k a) post) ->
  ends pre (bind m k) post.
Proof.
  intros Hm Hk s Hs. destruct (Hm s Hs) as (a & s1 & E & H1).
  unfold bind. rewrite E. exact (Hk a s1 H1).
Qed.

Variable Q : list string -> Prop.

Lemma returns_log lvl msg : returns (on Q) (log lvl msg) (fun _ => on Q).
Proof. intros s Hs. eexists _, _. split; [reflexivity | exact Hs]. Qed.

Lemma returns_emit e : returns (on Q) (emit e) (fun _ => on Q).
Proof. intros s Hs. eexists _, _. split; [reflexivity | exact Hs]. Qed.

Lemma returns_call {A} e (reply : list Event -> A) :
  ok e -> returns (on Q) (call env e reply) (fun _ => on Q).
Proof.
  intros He s Hs. unfold call, bind, emit, history, extend, ret; cbn.
  rewrite (Hok _ _ He). eexists _, _. split; [reflexivity | exact Hs].
Qed.

Lemma returns_get : returns (on Q) get_self (fun _ => on Q).
Proof. intros s Hs. eexists _, _. split; [reflexivity | exact Hs]. Qed.

Lemma returns_update f : returns (on Q) (update_self f) (fun _ => on Q).
Proof. intros s Hs. eexists _, _. split; [reflexivity | exact Hs]. Qed.

Lemma returns_ret {A} (a : A) : returns (on Q) (ret a) (fun _ => on Q).
Proof. intros s Hs. eexists _, _. split; [reflexivity | exact Hs]. Qed.

Lemma returns_pullRemoteRepo b opts :
  ok (GitPull "origin" b opts) ->
  returns (on Q) (pullRemoteRepo env b opts) (fun _ => on Q).
Proof.
  intros He s Hs. rewrite pullRemoteRepo_resolved.
  - eexists _, _. split; [reflexivity | exact Hs].
  - unfold pulling.
    change (trace s ++ [?a; ?b]) with (trace s ++ [a] ++ [b]).
    rewrite app_assoc. now apply Hok.
Qed.

Lemma returns_checkConflicted :
  ok GitStatus -> returns (on Q) (checkConflicted env) (fun _ => on Q).
Proof.
  intros He s Hs. rewrite checkConflicted_resolved.
  - rewrite Hclean. eexists _, _. split; [reflexivity | exact Hs].
  - unfold checking.
    change (trace s ++ [?a; ?b]) with (trace s ++ [a] ++ [b]).
    rewrite app_assoc. now apply Hok.
Qed.

Lemma ask_commit_message_returns pending shown :
  has_message pending ->
  exists m rest shown', ask_commit_message pending shown = (Ret m, rest, shown').
Proof.
  intros (a & Hin & Hne). revert shown.
  induction pending as [|x pending IH]; intros shown; [destruct Hin |].
  cbn. destruct (Js.truthy x) eqn:Hx; [eauto |].
  destruct Hin as [-> | Hin]; [destruct a; [congruence | discriminate] |].
  apply IH. exact Hin.
Qed.

Lemma returns_checkNotCommitted :
  ok GitStatus -> (forall paths, ok (GitAdd paths)) -> (forall m, ok (GitCommit m)) ->
  returns (on (fun typed => (forall h, any_pending (git_status env h) = false)
                            \/ has_message typed))
    (checkNotCommitted env) (fun _ => on (fun _ => True)).
Proof.
  intros Hstatus Hadd Hcommit s Hs. unfold checkNotCommitted, call_, call.
  unfold bind, log, emit, history, extend, ret; cbn.
  rewrite (Hok _ _ Hstatus); cbn.
  destruct (any_pending _) eqn:Hp; cbn;
    [| eexists _, _; split; [reflexivity | exact Logic.I]].
  destruct Hs as [Hnone | Hs]; [rewrite Hnone in Hp; discriminate |].
  rewrite !(Hok _ _ (Hadd _)); cbn. unfold commit_message_loop; cbn.
  destruct (ask_commit_message_returns _ [] Hs) as (m & rest & shown & ->). cbn.
  rewrite (Hok _ _ (Hcommit _)); cbn.
  eexists _, _. split; [reflexivity | exact Logic.I].
Qed.

End Completion.

(** Decompose a computation along its binds into steps that return; [allowed]
    proves that a call is one of those not refused. *)
Ltac finishes allowed :=
  unfold call_;
  repeat first
    [ match goal with H : context [returns] |- returns _ _ _ => apply H; allowed end
    | lazymatch goal with
      | |- returns _ (bind _ _) _ => eapply returns_bind; [| intros ?]
      | |- returns _ (log _ _) _ => apply returns_log
      | |- returns _ (emit _) _ => apply returns_emit
      | |- returns _ (call _ _ _) _ => eapply returns_call; [eassumption | allowed]
      | |- returns _ get_self _ => apply returns_get
      | |- returns _ (update_self _) _ => apply returns_update
      | |- returns _ (ret _) _ => apply returns_ret
      | |- returns _ (match ?x with _ => _ end) _ => destruct x
      | |- returns _ (if ?x then _ else _) _ => destruct x
      end ].

Section Reaching.

Variable env : Env.
Variable ok : Event -> Prop.
Hypothesis Hok : forall h e, ok e -> rejects env (h ++ [e]) = None.
Hypothesis Hclean : forall h, conflicted (git_status env h) = [].
Hypothesis Hevery : forall e, not_a_push e -> ok e.

(** What [commit] does before it pushes: when nothing else is refused, the
    push is reached, and how it ends is how [commit] ends. *)
Lemma commit_reaches_the_push (k : Git -> M unit) post :
  (forall g, ends (on (fun _ => True)) (k g) post) ->
  ends (on (fun typed => (forall h, any_pending (git_status env h) = false)
                         \/ has_message typed))
    (getCorrectVersion env None ;; checkStash env ;; checkConflicted env ;;
     checkNotCommitted env ;; checkoutBranch env ;; pullRemoteMasterAndBranch env ;;
     do g <- get_self; k g)
    post.
Proof.
  intros Hk.
  pose proof (fun Q b opts =>
                returns_pullRemoteRepo env ok Hok Q b opts
                  (Hevery (GitPull "origin" b opts) Logic.I)) as Hpull.
  pose proof (fun Q => returns_checkConflicted env ok Hok Hclean Q
                         (Hevery GitStatus Logic.I)) as Hcheck.
  pose proof (returns_checkNotCommitted env ok Hok (Hevery GitStatus Logic.I)
                (fun paths => Hevery (GitAdd paths) Logic.I)
                (fun m => Hevery (GitCommit m) Logic.I)) as Hstage.
  eapply ends_bind;
    [unfold getCorrectVersion, getRemoteBranchList;
     finishes ltac:(try (apply Hevery; exact Logic.I)) |].
  intros ?.
  eapply ends_bind;
    [unfold checkStash; finishes ltac:(try (apply Hevery; exact Logic.I)) |].
  intros ?.
  eapply ends_bind; [finishes idtac |]. intros ?.
  eapply ends_bind; [apply Hstage |]. intros ?.
  eapply ends_bind;
    [unfold checkoutBranch; finishes ltac:(try (apply Hevery; exact Logic.I)) |].
  intros ?.
  eapply ends_bind;
    [unfold pullRemoteMasterAndBranch, getRemoteBranchList;
     finishes ltac:(try (apply Hevery; exact Logic.I)) |].
  intros ?.
  eapply ends_bind; [apply returns_get |]. intros g. apply Hk.
Qed.

End Reaching.

Section Reached.

Variable env : Env.
Hypothesis Hok : forall h, rejects env h = None.
Hypothesis Hclean : forall h, conflicted (git_status env h) = [].

(** X25: [commit] reaches its end when nothing stands in its way.  If no
    call on simple-git is refused and no status ever lists a conflict, and
    if either there is never anything to stage or the operator is going to
    give a commit message that is not blank, then [commit] returns, with
    neither an error nor an exit. *)
Theorem commit_completes s :
  (forall h, any_pending (git_status env h) = false) \/ has_message (answers s) ->
  (commit env s).1 = Ret tt.
Proof.
  intros Hs.
  apply (commit_reaches_the_push env (fun _ => True) (fun h e _ => Hok (h ++ [e]))
           Hclean (fun _ _ => Logic.I)
           (fun g => pushRemoteRepo env (Js.show (branch g)))
           (fun o _ => o = Ret tt)); [| exact Hs].
  intros g t _. unfold pushRemoteRepo, call_, call.
  unfold bind, log, emit, history, extend, ret; cbn. now rewrite Hok.
Qed.

End Reached.

Section Refused.

Variable env : Env.
Variable msg : string.
Hypothesis Hquiet : forall h e, not_a_push e -> rejects env (h ++ [e]) = None.
Hypothesis Hpush : forall h r b, rejects env (h ++ [GitPush r b]) = Some msg.
Hypothesis Hclean : forall h, conflicted (git_status env h) = [].

(** X28: a refused push is passed on.  If the push is the only call that
    is refused, no status ever lists a conflict, and either there is never
    anything to stage or the operator is going to give a commit message
    that is not blank, then [commit] goes all the way to the push and
    throws the refusal: the push is the last thing that happened, no
    success is logged after it, and the process is not ended. *)
Theorem commit_passes_on_a_refused_push s :
  (forall h, any_pending (git_status env h) = false) \/ has_message (answers s) ->
  (commit env s).1 = Throw (Rejected msg) /\ ends_with_push (commit env s).2.
Proof.
  intros Hs.
  apply (commit_reaches_the_push env not_a_push Hquiet Hclean (fun _ H => H)
           (fun g => pushRemoteRepo env (Js.show (branch g)))
           (fun o t => o = Throw (Rejected msg) /\ ends_with_push t)); [| exact Hs].
  intros g t _. unfold pushRemoteRepo, call_, call.
  unfold bind, log, emit, history, extend, ret, throw; cbn. rewrite Hpush. cbn.
  split; [reflexivity |]. eexists _, _. reflexivity.
Qed.

End Refused.



Lemma commit_completes_witness :
  let dirty := {| conflicted := []; not_added := ["README.md"]; created := [];
                  deleted := []; modified := []; renamed := [] |} in
  let env := Sample.with_git (fun _ => None) (fun _ => dirty) "" in
  (commit env (Sample.prepared "1.0.0" [""; "first commit"])).1 = Ret tt.
Proof.
  intros dirty env.
  apply (commit_completes env (fun _ => eq_refl) (fun _ => eq_refl)).
  right. exists "first commit". split; [right; now left | discriminate].
Defined.

(** ** A first run of [prepare] *)

Section FirstRun.

Variable env : Env.
Hypothesis Hdirs : forall h, fs_ensureDirFails env h = None.

Lemma checkGitServer_fresh s home a rest :
  homePath (self s) = Some home ->
  Js.falsy (files s !! cache_path env home GIT_SERVER_FILE) || refreshServer (self s) = true ->
  answers s = a :: rest ->
  checkGitServer env s
  = (Ret tt,
     {| self := set_gitServer (createGitServer a) (self s);
        files := <[cache_path env home GIT_SERVER_FILE := a]> (files s);
        answers := rest;
        trace := trace s ++ [FsEnsureDir (cache_root env home); SERVER_PROMPT;
                             FsWrite (cache_path env home GIT_SERVER_FILE) a;
                             Log success "git server写入成功"] |}).
Proof.
  intros Hhome Hcond Hans. unfold checkGitServer. unfold bind at 1.
  rewrite (createPath_ok env Hdirs _ _ _ Hhome).
  unfold bind, readFile, writeFile, inquirer, get_self, update_self, log, emit,
    extend, ret; cbn.
  rewrite Hcond; cbn. rewrite Hans; cbn. rewrite <- !app_assoc. reflexivity.
Qed.

(** X26: a first run of [prepare], on an empty cache and in a world that
    is there (the collaborators answer, the account and the remote
    repository exist, and so do the cache root and the local repository),
    asks three questions and no more: the platform, the token, and the kind
    of owner.  With a known platform and the answer [user] it returns, has
    used up exactly those three answers, has bound the client to the token
    and settled the login on the account's, and has put all four values in
    the cache. *)
Theorem prepare_first_run_asks_three_questions
    wd nm ver cliHome prod disk sv tv rest h srv :
  let home := home_of env cliHome in
  let s := launch wd nm ver cliHome false false false prod disk
             (sv :: tv :: REPO_OWNER_USER :: rest) h in
  createGitServer sv = Some srv ->
  cache_files_apart env home wd ->
  disk !! cache_path env home GIT_SERVER_FILE = None ->
  disk !! cache_path env home GIT_TOKEN_FILE = None ->
  disk !! cache_path env home GIT_OWN_FILE = None ->
  still_there env h home wd ->
  exists s' u os,
    prepare env s = (Ret tt, s')
    /\ answers s' = rest
    /\ prompts (trace s') = prompts h ++ [SERVER_PROMPT; TOKEN_PROMPT; OWNER_PROMPT os]
    /\ resolved (self s')
       = (Some {| kind := kind srv; server_token := Some tv |}, Some tv,
          REPO_OWNER_USER, Some (id_login u))
    /\ files s' !! cache_path env home GIT_SERVER_FILE = Some sv
    /\ files s' !! cache_path env home GIT_TOKEN_FILE = Some tv
    /\ files s' !! cache_path env home GIT_OWN_FILE = Some REPO_OWNER_USER
    /\ files s' !! cache_path env home GIT_LOGIN_FILE = Some (id_login u).
Proof.
  intros home s Hsrv Hapart Hnos Hnot Hnoo (Hrej & Huser & Hrepo & Hhome & Hgit).
  unfold cache_files_apart in Hapart.
  repeat match goal with
         | H : NoDup (_ :: _) |- _ => apply NoDup_cons in H as [? H]
         end.
  repeat match goal with
         | H : _ ∉ _ :: _ |- _ => apply not_elem_of_cons in H as [? H]
         end.
  destruct (prepare env s) as [o s'] eqn:Hrun. unfold prepare in Hrun.
  (* cache root *)
  unfold bind at 1 in Hrun.
  rewrite (checkHomePath_result env Hdirs) in Hrun; cbn zeta in Hrun.
  change (home_of env (homePath (self s))) with home in Hrun.
  cbn [trace self files answers s launch] in Hrun.
  rewrite Hhome in Hrun.
  (* platform *)
  unfold bind at 1 in Hrun.
  rewrite (checkGitServer_fresh _ home sv (tv :: REPO_OWNER_USER :: rest)) in Hrun
    by (reflexivity || (cbn [files]; now rewrite Hnos)).
  cbn [trace self files answers] in Hrun. rewrite Hsrv in Hrun.
  rewrite <- !app_assoc in Hrun; cbn [app] in Hrun.
  (* token *)
  unfold bind at 1 in Hrun.
  rewrite (checkGitToken_fresh env Hdirs _ home srv tv (REPO_OWNER_USER :: rest)) in Hrun
    by (reflexivity
        || (cbn [files]; rewrite lookup_insert_ne by congruence; now rewrite Hnot)).
  cbn [trace self files answers] in Hrun.
  rewrite <- !app_assoc in Hrun; cbn [app] in Hrun.
  (* identity *)
  unfold bind at 1 in Hrun.
  match type of Hrun with
  | context [checkUserAndOrgs env ?t] =>
      assert (Hx : exists u, host_getUser env (trace t ++ [HostGetUser]) = Some u)
        by (cbn [trace]; rewrite <- app_assoc;
            destruct (host_getUser env _) eqn:E;
            [eauto | exfalso; exact (Huser _ E)]);
      destruct Hx as [u Hu];
      rewrite (checkUserAndOrgs_replay env t
                 {| kind := kind srv; server_token := Some tv |} u) in Hrun
        by (reflexivity || exact Hu
            || (cbn [trace]; rewrite <- app_assoc; apply Hrej))
  end.
  cbn [trace self files answers] in Hrun.
  rewrite <- !app_assoc in Hrun; cbn [app] in Hrun.
  (* owner *)
  unfold bind at 1 in Hrun.
  match type of Hrun with
  | context [checkGitOwner env ?t] =>
      rewrite (checkGitOwner_fresh_user env Hdirs t home
                 {| kind := kind srv; server_token := Some tv |}
                 (host_getOrgs env (h ++ [Log verbose "home"; FsEnsureDir home;
                    FsEnsureDir (cache_root env home); SERVER_PROMPT;
                    FsWrite (cache_path env home GIT_SERVER_FILE) sv;
                    Log success "git server写入成功";
                    FsEnsureDir (cache_root env home);
                    Log notice (server_type srv +:+ " token未生成"); TOKEN_PROMPT;
                    FsWrite (cache_path env home GIT_TOKEN_FILE) tv;
                    Log success "token 写入成功"; HostSetToken tv;
                    HostGetUser; HostGetOrgs]))
                 u rest) in Hrun
        by (reflexivity
            || (left; unfold owner_is_cached; cbn [files];
                rewrite !lookup_insert_ne by congruence; now rewrite Hnoo))
  end.
  cbn [trace self files answers] in Hrun.
  rewrite <- !app_assoc in Hrun; cbn [app] in Hrun.
  (* repository *)
  unfold bind at 1 in Hrun.
  match type of Hrun with
  | context [checkRepo env ?t] =>
      assert (Hx : exists r, host_getRepo env
                      (trace t ++ [HostGetRepo (login (self t)) (name (self t))])
                    = Some r)
        by (cbn [trace]; rewrite <- app_assoc;
            destruct (host_getRepo env _) eqn:E;
            [eauto | exfalso; exact (Hrepo _ E)]);
      destruct Hx as [repo Hr];
      rewrite (checkRepo_replay env t
                 {| kind := kind srv; server_token := Some tv |} repo) in Hrun
        by (reflexivity || exact Hr
            || (cbn [trace]; rewrite <- app_assoc; apply Hrej))
  end.
  cbn [trace self files answers] in Hrun.
  rewrite <- !app_assoc in Hrun; cbn [app] in Hrun.
  (* ignore file *)
  unfold bind at 1 in Hrun.
  match type of Hrun with
  | context [checkGitIgnore env ?t] =>
      destruct (checkGitIgnore_quiet env t)
        as (Hret & Hself & Hans & evs & Htrace & Hquiet);
      pose proof (checkGitIgnore_files env t) as Hfiles;
      destruct (checkGitIgnore env t) as [o1 t1]
  end.
  cbn [fst snd trace self files answers] in Hret, Hself, Hans, Htrace, Hfiles.
  subst o1.
  (* local repository *)
  rewrite (init_replay env t1 {| kind := kind srv; server_token := Some tv |}) in Hrun.
  - injection Hrun as <- <-. eexists _, u, _. split; [reflexivity |].
    cbn [trace self files answers]. rewrite Hself, Hans, Htrace.
    split; [reflexivity |]. split.
    { rewrite <- !app_assoc, !prompts_app, Hquiet. cbn.
      rewrite ?app_nil_r. reflexivity. }
    split; [reflexivity |].
    cbn [self dir set_repo set_login set_owner set_orgs set_user set_gitServer
           set_token set_homePath constructor] in Hfiles.
    repeat split; rewrite Hfiles by congruence; cbn [files];
      rewrite ?lookup_insert_ne by congruence; apply lookup_insert_eq.
  - rewrite Hself. reflexivity.
  - rewrite Hself, Htrace. cbn [self dir set_repo set_login set_owner set_orgs set_user
                                  set_gitServer set_token set_homePath constructor].
    rewrite <- !app_assoc. apply Hgit.
Qed.

End FirstRun.

Lemma prepare_first_run_asks_three_questions_witness :
  let r := prepare Sample.quiet
             (launch "/work/demo" "demo" "1.0.0" None false false false false ∅
                ["github"; "t0k"; "user"] []) in
  r.1 = Ret tt /\ answers r.2 = [].
Proof.
  intros r.
  destruct (prepare_first_run_asks_three_questions Sample.quiet (fun _ => eq_refl)
              "/work/demo" "demo" "1.0.0" None false ∅ "github" "t0k" [] []
              {| kind := Github; server_token := None |})
    as (s' & u & os & Hrun & Hans & _).
  - reflexivity.
  - unfold cache_files_apart. apply (bool_decide_unpack _). vm_compute. exact I.
  - vm_compute. reflexivity.
  - vm_compute. reflexivity.
  - vm_compute. reflexivity.
  - repeat split; intros h; try reflexivity; discriminate.
  - subst r. unfold REPO_OWNER_USER in Hrun. rewrite Hrun.
    split; [reflexivity | exact Hans].
Defined.

(** ** The token and the platform *)

Section Authorised.

Variable env : Env.

Lemma checkGitToken_hands_over s s' :
  checkGitToken env s = (Ret tt, s') ->
  exists evs t,
    trace s' = trace s ++ evs ++ [HostSetToken t]
    /\ Forall off_platform evs
    /\ token (self s') = Some t.
Proof.
  intros H. unfold checkGitToken, createPath, ensureDirSync in H.
  unfold inquirer, writeFile, readFile, the_gitServer in H.
  run_in H; injection H as <-; cbn; simplify_eq.
  - eexists [_; _; _; _; _], _.
    split; [rewrite <- !app_assoc; reflexivity |].
    split; [repeat constructor | reflexivity].
  - eexists [_; _; _], _.
    split; [rewrite <- !app_assoc; reflexivity |].
    split; [repeat constructor | reflexivity].
Qed.

Lemma after_token_token :
  respects (same (fun s => token (self s)))
    (checkUserAndOrgs env ;; checkGitOwner env ;; checkRepo env ;;
     checkGitIgnore env ;; init env).
Proof.
  unfold checkUserAndOrgs, checkGitOwner, checkRepo, checkGitIgnore, init,
    initCommit, checkRemoteMaster, checkConflicted, checkNotCommitted,
    pullRemoteRepo, pushRemoteRepo.
  keeps (fun s => token (self s)).
Qed.

Lemma after_token_later :
  respects (added (fun _ => True))
    (checkUserAndOrgs env ;; checkGitOwner env ;; checkRepo env ;;
     checkGitIgnore env ;; init env).
Proof.
  unfold checkUserAndOrgs, checkGitOwner, checkRepo, checkGitIgnore, init,
    initCommit, checkRemoteMaster, checkConflicted, checkNotCommitted,
    pullRemoteRepo, pushRemoteRepo.
  adds ltac:(exact Logic.I).
Qed.

(** X27: [prepare] makes no request to the hosting platform before it has
    handed the token to the hosting client.  In every run, either no request
    is made at all, or the client was given a token first; and that token
    is the one the object holds when the run ends. *)
Theorem prepare_hands_the_token_over_before_any_request s :
  exists evs,
    trace (prepare env s).2 = trace s ++ evs
    /\ (Forall off_platform evs
        \/ exists before t after,
             evs = before ++ HostSetToken t :: after
             /\ Forall off_platform before
             /\ token (self (prepare env s).2) = Some t).
Proof.
  assert (Hhome : respects (added off_platform) (checkHomePath env))
    by (unfold checkHomePath; adds ltac:(reflexivity)).
  assert (Hserver : respects (added off_platform) (checkGitServer env))
    by (unfold checkGitServer; adds ltac:(reflexivity)).
  assert (Htoken : respects (added off_platform) (checkGitToken env))
    by (unfold checkGitToken; adds ltac:(reflexivity)).
  pose (rest := (checkUserAndOrgs env ;; checkGitOwner env ;; checkRepo env ;;
                 checkGitIgnore env ;; init env)).
  remember (prepare env s) as r eqn:Hr.
  change (prepare env s)
    with ((checkHomePath env ;; checkGitServer env ;; checkGitToken env ;; rest) s)
    in Hr.
  unfold bind at 1 in Hr.
  destruct (Hhome s) as (e1 & T1 & P1).
  destruct (checkHomePath env s) as [[[] | ? | ? |] s1]; cbn [fst snd] in *;
    try (subst r; exists e1; split; [exact T1 | now left]).
  unfold bind at 1 in Hr.
  destruct (Hserver s1) as (e2 & T2 & P2).
  destruct (checkGitServer env s1) as [[[] | ? | ? |] s2]; cbn [fst snd] in *;
    try (subst r; exists (e1 ++ e2); split;
         [cbn; rewrite T2, T1; symmetry; apply app_assoc
         | left; now apply Forall_app]).
  unfold bind at 1 in Hr.
  destruct (Htoken s2) as (e3 & T3 & P3).
  destruct (checkGitToken env s2) as [[[] | ? | ? |] s3] eqn:E3; cbn [fst snd] in *;
    try (subst r; exists (e1 ++ e2 ++ e3); split;
         [cbn; rewrite T3, T2, T1, <- !app_assoc; reflexivity
         | left; rewrite !Forall_app; auto]).
  destruct (checkGitToken_hands_over _ _ E3) as (e3' & t & T3' & P3' & Ht).
  assert (Hkeep : token (self (rest s3).2) = token (self s3))
    by apply after_token_token.
  destruct (after_token_later s3) as (e4 & T4 & _). fold rest in T4.
  subst r. exists (e1 ++ e2 ++ e3' ++ HostSetToken t :: e4). split.
  - rewrite T4, T3', T2, T1, <- !app_assoc. reflexivity.
  - right. exists (e1 ++ e2 ++ e3'), t, e4. split; [now rewrite <- !app_assoc |].
    split; [rewrite !Forall_app; auto |]. now rewrite Hkeep.
Qed.

End Authorised.

Lemma commit_passes_on_a_refused_push_witness :
  let msg := "remote: Permission to sam/demo.git denied" in
  let env := Sample.with_git (push_fails msg) (fun _ => Sample.clean) "" in
  (commit env (Sample.prepared "1.0.0" [])).1 = Throw (Rejected msg).
Proof.
  intros msg env.
  apply (commit_passes_on_a_refused_push env msg).
  - intros h e He. cbn. unfold push_fails. rewrite last_snoc.
    destruct e; try reflexivity. destruct He.
  - intros h r b. cbn. unfold push_fails. now rewrite last_snoc.
  - reflexivity.
  - left. reflexivity.
Defined.

(** ** A conflict left in the working tree *)

Section Conflict.

Variable env : Env.
Hypothesis Hok : forall h, rejects env h = None.
Hypothesis Hconflict : forall h, conflicted (git_status env h) <> [].

(** X29: [commit] stops at a conflict before it stages anything.  If no
    call is refused and the status lists a conflicted path, [commit] throws
    the unresolved-conflict error at its first check: by then it has listed
    the remote refs and gone through the stash, and it has staged nothing,
    committed nothing, switched to no branch, and pulled and pushed
    nothing. *)
Theorem commit_stops_at_a_conflict s :
  (commit env s).1 = Throw (Error UNRESOLVED_CONFLICT)
  /\ added leaves_work_alone s (commit env s).2.
Proof.
  assert (A1 : respects (added leaves_work_alone) (getCorrectVersion env None))
    by (unfold getCorrectVersion, getRemoteBranchList; adds ltac:(exact Logic.I)).
  assert (A2 : respects (added leaves_work_alone) (checkStash env))
    by (unfold checkStash; adds ltac:(exact Logic.I)).
  pose proof (fun A => @returns_call env (fun _ => True)
                         (fun h e _ => Hok (h ++ [e])) (fun _ => True) A) as Hcall.
  assert (R1 : returns (on (fun _ => True)) (getCorrectVersion env None)
                 (fun _ => on (fun _ => True)))
    by (unfold getCorrectVersion, getRemoteBranchList; finishes ltac:(exact Logic.I)).
  assert (R2 : returns (on (fun _ => True)) (checkStash env)
                 (fun _ => on (fun _ => True)))
    by (unfold checkStash; finishes ltac:(exact Logic.I)).
  remember (commit env s) as r eqn:Hr. unfold commit in Hr.
  unfold bind at 1 in Hr.
  destruct (R1 s Logic.I) as ([] & s1 & E1 & _).
  pose proof (A1 s) as B1. rewrite E1 in Hr, B1. cbn [snd] in B1.
  unfold bind at 1 in Hr.
  destruct (R2 s1 Logic.I) as ([] & s2 & E2 & _).
  pose proof (A2 s1) as B2. rewrite E2 in Hr, B2. cbn [snd] in B2.
  unfold bind at 1 in Hr.
  rewrite (checkConflicted_resolved env s2 (Hok _)) in Hr.
  destruct (conflicted _) eqn:Hc; [exfalso; exact (Hconflict _ Hc) |].
  subst r. split; [reflexivity |]. cbn [snd].
  eapply added_trans; [exact B1 |]. eapply added_trans; [exact B2 |].
  exists [Log notice "代码冲突检查"; GitStatus]. split; [reflexivity |].
  repeat constructor.
Qed.

End Conflict.

Lemma commit_stops_at_a_conflict_witness :
  let env := Sample.with_git (fun _ => None) (fun _ => in_conflict) "" in
  (commit env (Sample.prepared "1.0.0" [])).1 = Throw (Error UNRESOLVED_CONFLICT).
Proof.
  intros env.
  apply (commit_stops_at_a_conflict env (fun _ => eq_refl)).
  intros h. discriminate.
Defined.
